(** * Teryaq: vehicle routing validation and cold-chain stability

    A shallow embedding of the routing core of
    [mapwithvrp/vrp-backend/main.py] (the OSRM edge provider, the
    capacity split, the multi-trip validator and the route merger) and of
    the stability state machine of
    [mapwithvrp/vrp-backend/stability_router.py], followed by the
    properties established about them. *)

From Stdlib Require Import ZArith QArith Qround Reals Psatz List Bool.
From stdpp Require Import gmap strings list fin_maps.

Open Scope Z_scope.

(** * Routing ([main.py]) *)

(** ** Python float arithmetic, as an interface

    The routing code computes on Python floats.  The code below is
    written once against the operations it uses; the control-flow
    theorems hold for every interpretation of them, and two instances
    are given: the real numbers (for the fallback estimate between two
    nodes at one address) and the rationals (exact, executable). *)

Class PyFloat (F : Type) := {
  of_Q : Q → F;              (* numeric literals and int → float *)
  fadd : F → F → F;
  fsub : F → F → F;
  fmul : F → F → F;
  fdiv : F → F → F;
  fgt : F → F → bool;        (* a > b *)
  fsin : F → F;              (* math.sin *)
  fcos : F → F;              (* math.cos *)
  fasin : F → F;             (* math.asin *)
  fsqrt : F → F;             (* math.sqrt *)
  fpi : F                    (* math.pi *)
}.

Definition of_Z `{PyFloat F} (z : Z) : F := of_Q (inject_Z z).

(** ** Results of calls that may raise *)

Inductive exn :=
  | KeyError (k : Z)      (* coords[n] on an unknown node *)
  | IndexError            (* raw[i] out of range *)
  | OutOfFuel             (* the bound on loop passes was too small *)
  | ValueError.           (* math domain error *)

Inductive result (A : Type) :=
  | Ok (a : A)
  | Raise (e : exn).
Arguments Ok {A} a.
Arguments Raise {A} e.

(** ** Configuration constants of [main.py] *)

Definition SOL_VEH_CAP : Z := 15.
Definition SHIFT_LIMIT_SEC : Z := 8 * 3600.
Definition FALLBACK_SPEED_MPS : Q := 1667 # 100.

(** ** split_into_trips *)

Definition dict_get (m : gmap Z Z) (k : Z) (d : Z) : Z := default d (m !! k).

Definition is_empty {A} (l : list A) : bool :=
  match l with [] => true | _ => false end.

Definition close_trips (trips : list (list Z * Z)) (cur : list Z) (load : Z)
  : list (list Z * Z) :=
  if is_empty cur then trips else trips ++ [(cur, load)].

Fixpoint split_loop (cap : Z) (demand : gmap Z Z) (route : list Z)
    (trips : list (list Z * Z)) (cur : list Z) (load : Z) : list (list Z * Z) :=
  match route with
  | [] => close_trips trips cur load
  | c :: route' =>
      let d := dict_get demand c 0 in
      let '(trips, cur, load) :=
        if negb (is_empty cur) && (cap <? load + d)
        then (trips ++ [(cur, load)], [], 0)
        else (trips, cur, load) in
      split_loop cap demand route' trips (cur ++ [c]) (load + d)
  end.

Definition split_into_trips (route : list Z) (cap : Z) (demand : gmap Z Z)
  : list (list Z * Z) :=
  split_loop cap demand route [] [] 0.

(** The load of a trip, and what [split_into_trips] guarantees of every
    trip it closes. *)
Definition trip_load (demand : gmap Z Z) (trip : list Z) : Z :=
  foldr (λ c acc, dict_get demand c 0 + acc) 0 trip.

Definition trip_ok (cap : Z) (demand : gmap Z Z) (t : list Z * Z) : Prop :=
  t.1 ≠ [] ∧ t.2 = trip_load demand t.1 ∧ (t.2 ≤ cap ∨ ∃ c, t.1 = [c]).

(** Between two consecutive trips: the first customer of the second
    did not fit on top of the load of the first. *)
Definition closed_when_full (cap : Z) (demand : gmap Z Z)
    (trips : list (list Z * Z)) : Prop :=
  ∀ i t1 l1 t2 l2,
    trips !! i = Some (t1, l1) → trips !! S i = Some (t2, l2) →
    ∃ c rest, t2 = c :: rest ∧ cap < l1 + dict_get demand c 0.

(** The first value a function yields along a list. *)
Fixpoint first_some {A B} (g : A → option B) (l : list A) : option B :=
  match l with
  | [] => None
  | x :: l' =>
      match g x with
      | Some b => Some b
      | None => first_some g l'
      end
  end.

(** ** The reply of the map service to one table query *)

(** A JSON matrix as [_pick_cell] inspects it: a list whose first entry
    is either a row (a list of cells) or a bare cell; a cell is a number
    or [null]. *)
Inductive json_row (F : Type) :=
  | JRow (cells : list (option F))
  | JCell (c : option F).
Arguments JRow {F} cells.
Arguments JCell {F} c.

Record osrm_body (F : Type) := {
  distances : option (list (json_row F));   (* None: key absent or not a list *)
  durations : option (list (json_row F))
}.
Arguments distances {F} _.
Arguments durations {F} _.

Inductive http_reply (F : Type) :=
  | RequestError                                  (* requests.get raised: timeout, connection *)
  | Response (ok : bool) (body : option (osrm_body F)).
      (* ok: r.ok; body None: r.json() raises, or its value is not an object *)
Arguments RequestError {F}.
Arguments Response {F} ok body.

Section Routing.
Context {F : Type} `{PyFloat F}.

(** The map service, as seen by one provider: the reply to the table
    query for [lon1,lat1;lon2,lat2].  A provider asks at most once per
    pair of nodes (answers are cached); the model fixes one reply per
    query URL for the lifetime of the provider. *)
Variable osrm_http : F → F → F → F → http_reply F.

(** *** haversine_m *)

Definition radians (x : F) : F := fmul x (fdiv fpi (of_Z 180)).

Definition haversine_m (lat1 lon1 lat2 lon2 : F) : F :=
  let R := of_Z 6371000 in
  let φ1 := radians lat1 in
  let φ2 := radians lat2 in
  let dφ := radians (fsub lat2 lat1) in
  let dλ := radians (fsub lon2 lon1) in
  let s1 := fsin (fdiv dφ (of_Z 2)) in
  let s2 := fsin (fdiv dλ (of_Z 2)) in
  let a := fadd (fmul s1 s1) (fmul (fmul (fcos φ1) (fcos φ2)) (fmul s2 s2)) in
  fmul (fmul (of_Z 2) R) (fasin (fsqrt a)).

(** *** OSRMClient *)

Record OSRMClient := {
  coords : gmap Z (F * F);
  cache : gmap (Z * Z) (F * F);
  fallback_edges : gset (Z * Z)
}.

Definition new_client (c : gmap Z (F * F)) : OSRMClient :=
  {| coords := c; cache := ∅; fallback_edges := ∅ |}.

Definition set_cache (st : OSRMClient) (k : Z * Z) (e : F * F) : OSRMClient :=
  {| coords := coords st; cache := <[k := e]> (cache st);
     fallback_edges := fallback_edges st |}.

Definition add_fallback (st : OSRMClient) (k : Z * Z) : OSRMClient :=
  {| coords := coords st; cache := cache st;
     fallback_edges := {[k]} ∪ fallback_edges st |}.

Definition _pick_cell (mat : option (list (json_row F))) : option F :=
  match mat with
  | Some (JRow (_ :: c :: _) :: _) => c
  | Some (JRow _ :: _) => None
  | Some (JCell c :: _) => c
  | _ => None
  end.

(** The [try] block of [get_edge]: [Some (d, t)] when the live answer is
    usable, [None] when an exception is raised inside the block. *)
Definition osrm_live (r : http_reply F) : option (F * F) :=
  match r with
  | RequestError => None
  | Response true (Some data) =>
      match _pick_cell (distances data), _pick_cell (durations data) with
      | Some d, Some t => Some (d, t)
      | _, _ => None
      end
  | Response true None => None
  | Response false _ => None
  end.

(** Calls on a client: the client is threaded, a [KeyError] aborts. *)
Definition M (A : Type) : Type := OSRMClient → result (A * OSRMClient).

#[export] Instance M_ret : MRet M := λ A a st, Ok (a, st).
#[export] Instance M_bind : MBind M := λ A B k m st,
  match m st with
  | Ok (a, st') => k a st'
  | Raise e => Raise e
  end.
Definition raise {A} (e : exn) : M A := λ _, Raise e.

Definition coords_at (n : Z) : M (F * F) :=
  λ st, match coords st !! n with
        | Some c => Ok (c, st)
        | None => Raise (KeyError n)
        end.
Definition cache_lookup (k : Z * Z) : M (option (F * F)) :=
  λ st, Ok (cache st !! k, st).
Definition cache_store (k : Z * Z) (e : F * F) : M unit :=
  λ st, Ok (tt, set_cache st k e).
Definition fallback_add (k : Z * Z) : M unit :=
  λ st, Ok (tt, add_fallback st k).

Definition get_edge (u v : Z) : M (F * F) :=
  c ← cache_lookup (u, v);
  match c with
  | Some e => mret e
  | None =>
      '(lat1, lon1) ← coords_at u;
      '(lat2, lon2) ← coords_at v;
      match osrm_live (osrm_http lon1 lat1 lon2 lat2) with
      | Some (d, t) =>
          _ ← cache_store (u, v) (d, t);
          mret (d, t)
      | None =>
          let d := haversine_m lat1 lon1 lat2 lon2 in
          let t := fdiv d (of_Q FALLBACK_SPEED_MPS) in
          _ ← fallback_add (u, v);
          _ ← cache_store (u, v) (d, t);
          mret (d, t)
      end
  end.

Definition is_fallback (u v : Z) : M bool :=
  λ st, Ok (bool_decide ((u, v) ∈ fallback_edges st), st).

(** *** validate_multitrip

    Calls to [logger] have no effect on the result and are left out. *)

(** The inner loop over the legs of one trip; [None] stands for the
    early [return False, [], []]. *)
Fixpoint walk_legs (due : gmap Z Z) (legs : list (Z * Z)) (clk : F) : M (option F) :=
  match legs with
  | [] => mret (Some clk)
  | (u, v) :: legs' =>
      '(_, t) ← get_edge u v;
      let clk := fadd clk t in
      let eta_min := fdiv clk (of_Z 60) in
      fb ← is_fallback u v;
      if bool_decide (v ≠ 0)
         && fgt eta_min (of_Z (dict_get due v 9999))
         && negb fb
      then mret None
      else walk_legs due legs' clk
  end.

Definition trip_legs (trip : list Z) : list (Z * Z) :=
  let full := [0] ++ trip ++ [0] in zip full (tail full).

(** The outer loop over the trips. *)
Fixpoint walk_trips (due : gmap Z Z) (trips : list (list Z * Z))
    (total_t : F) (expanded : list Z) : M (option (F * list Z)) :=
  match trips with
  | [] => mret (Some (total_t, expanded))
  | (trip, load) :: trips' =>
      let full := [0] ++ trip ++ [0] in
      let expanded := expanded ++ (if is_empty expanded then full else tail full) in
      r ← walk_legs due (trip_legs trip) (of_Z 0);
      match r with
      | None => mret None
      | Some clk => walk_trips due trips' (fadd total_t clk) expanded
      end
  end.

Definition validate_multitrip (route : list Z) (cap : Z) (demand due : gmap Z Z)
  : M (bool * list Z * list Z) :=
  let trips := split_into_trips route cap demand in
  r ← walk_trips due trips (of_Z 0) [];
  match r with
  | None => mret (false, [], [])
  | Some (total_t, expanded) =>
      if fgt total_t (of_Z SHIFT_LIMIT_SEC)
      then mret (false, [], [])
      else mret (true, expanded, filter (λ n, n ≠ 0) expanded)
  end.

(** *** combine_and_validate_multitrip *)

(** A [for] loop left by [break] at the first iteration that yields a
    value. *)
Fixpoint for_first {A B} (f : A → M (option B)) (l : list A) : M (option B) :=
  match l with
  | [] => mret None
  | x :: l' =>
      r ← f x;
      match r with
      | Some b => mret (Some b)
      | None => for_first f l'
      end
  end.

Definition py_range (a b : nat) : list nat := seq a (b - a).

Definition item (raw : list (list Z)) (i : nat) : M (list Z) :=
  match raw !! i with
  | Some r => mret r
  | None => raise IndexError
  end.

(** One pass of the nested [for i] / [for j] loops: the list after the
    first merge that validates, or [None] when no pair validates. *)
Definition merge_pass (cap : Z) (demand due : gmap Z Z) (raw : list (list Z))
  : M (option (list (list Z))) :=
  for_first (λ i,
    for_first (λ j,
      ri ← item raw i;
      rj ← item raw j;
      '(ok, _, rw) ← validate_multitrip (ri ++ rj) cap demand due;
      if ok : bool
      then mret (Some (delete i (delete j raw) ++ [rw]))
      else mret None)
    (py_range (i + 1) (length raw)))
  (py_range 0 (length raw)).

(** The [while merged] loop, bounded by [fuel] passes. *)
Fixpoint merge_loop (fuel : nat) (cap : Z) (demand due : gmap Z Z)
    (raw : list (list Z)) : M (list (list Z)) :=
  match fuel with
  | O => raise OutOfFuel
  | S fuel' =>
      r ← merge_pass cap demand due raw;
      match r with
      | Some raw' => merge_loop fuel' cap demand due raw'
      | None => mret raw
      end
  end.

Fixpoint keep_feasible (cap : Z) (demand due : gmap Z Z)
    (raw final : list (list Z)) : M (list (list Z)) :=
  match raw with
  | [] => mret final
  | r :: raw' =>
      '(ok, exp, _) ← validate_multitrip r cap demand due;
      keep_feasible cap demand due raw' (if ok : bool then final ++ [exp] else final)
  end.

Definition combine_and_validate_multitrip (routes : list (list Z)) (cap : Z)
    (demand due : gmap Z Z) : M (list (list Z)) :=
  let raw := filter (λ r, r ≠ []) routes in
  raw ← merge_loop (S (length raw)) cap demand due raw;
  keep_feasible cap demand due raw [].

(** *** What a client will answer

    The answer [get_edge u v] gives from a client state, and whether
    [(u, v)] is in [fallback_edges] afterwards, read off the state
    without running the call. *)

Definition fallback_estimate (c1 c2 : F * F) : F * F :=
  let d := haversine_m c1.1 c1.2 c2.1 c2.2 in
  (d, fdiv d (of_Q FALLBACK_SPEED_MPS)).

Definition edge_of (st : OSRMClient) (u v : Z) : option (F * F) :=
  match cache st !! (u, v) with
  | Some e => Some e
  | None =>
      match coords st !! u, coords st !! v with
      | Some c1, Some c2 =>
          Some (default (fallback_estimate c1 c2)
                        (osrm_live (osrm_http c1.2 c1.1 c2.2 c2.1)))
      | _, _ => None
      end
  end.

Definition fallback_of (st : OSRMClient) (u v : Z) : bool :=
  bool_decide ((u, v) ∈ fallback_edges st)
  || match cache st !! (u, v), coords st !! u, coords st !! v with
     | None, Some c1, Some c2 =>
         bool_decide (osrm_live (osrm_http c1.2 c1.1 c2.2 c2.1) = None)
     | _, _, _ => false
     end.

Definition leg_time (st : OSRMClient) (u v : Z) : F :=
  match edge_of st u v with
  | Some (_, t) => t
  | None => of_Z 0
  end.

(** Two states that answer every query alike. *)
Definition view_eq (st st' : OSRMClient) : Prop :=
  coords st' = coords st
  ∧ ∀ u v, edge_of st' u v = edge_of st u v
           ∧ fallback_of st' u v = fallback_of st u v.

(** Every node of the route, and the depot, has coordinates. *)
Definition route_known (st : OSRMClient) (route : list Z) : Prop :=
  ∀ n, n ∈ 0 :: route → is_Some (coords st !! n).

(** *** The time simulation, leg by leg

    The arrivals of one trip: for each leg [(u, v)], the clock (seconds
    since the trip left the depot at [clk]) on arrival at [v]. *)
Fixpoint arrivals (st : OSRMClient) (legs : list (Z * Z)) (clk : F)
  : list (Z * Z * F) :=
  match legs with
  | [] => []
  | (u, v) :: legs' =>
      let clk' := fadd clk (leg_time st u v) in
      (u, v, clk') :: arrivals st legs' clk'
  end.

(** Arrival at a customer later than its due time (minutes). *)
Definition late (due : gmap Z Z) (a : Z * Z * F) : bool :=
  let '(u, v, clk) := a in
  bool_decide (v ≠ 0) && fgt (fdiv clk (of_Z 60)) (of_Z (dict_get due v 9999)).

Definition on_fallback (st : OSRMClient) (a : Z * Z * F) : bool :=
  let '(u, v, clk) := a in fallback_of st u v.

(** An arrival that makes the validator give up: late, over an edge
    answered by the live service. *)
Definition rejecting (st : OSRMClient) (due : gmap Z Z) (a : Z * Z * F) : bool :=
  late due a && negb (on_fallback st a).

Definition trip_rejected (st : OSRMClient) (due : gmap Z Z) (trip : list Z) : bool :=
  existsb (rejecting st due) (arrivals st (trip_legs trip) (of_Z 0)).

(** The clock of a trip when it is back at the depot. *)
Definition trip_clock (st : OSRMClient) (trip : list Z) : F :=
  fold_left (λ clk '(u, v), fadd clk (leg_time st u v)) (trip_legs trip) (of_Z 0).

(** The shift time: the trip clocks added up, trip after trip. *)
Definition shift_total (st : OSRMClient) (trips : list (list Z * Z)) : F :=
  fold_left (λ tot '(trip, _), fadd tot (trip_clock st trip)) trips (of_Z 0).

(** The path of a list of trips: depot, trip, depot, trip, ..., depot. *)
Definition expanded_path (trips : list (list Z * Z)) : list Z :=
  fold_left (λ expanded '(trip, _),
               let full := [0] ++ trip ++ [0] in
               expanded ++ (if is_empty expanded then full else tail full))
            trips [].

Definition customers (path : list Z) : list Z := filter (λ n, n ≠ 0) path.

(** The answer of [validate_multitrip], read off the state. *)
Definition validate_result (st : OSRMClient) (route : list Z) (cap : Z)
    (demand due : gmap Z Z) : bool * list Z * list Z :=
  let trips := split_into_trips route cap demand in
  if existsb (λ t, trip_rejected st due t.1) trips then (false, [], [])
  else if fgt (shift_total st trips) (of_Z SHIFT_LIMIT_SEC) then (false, [], [])
  else (true, expanded_path trips, customers (expanded_path trips)).

Definition feasible (st : OSRMClient) (cap : Z) (demand due : gmap Z Z)
    (route : list Z) : bool :=
  (validate_result st route cap demand due).1.1.

(** The outcome of trying the pair [(i, j)] in [merge_pass], and of a
    whole pass, read off the state. *)
Definition merge_of (st : OSRMClient) (cap : Z) (demand due : gmap Z Z)
    (raw : list (list Z)) (i j : nat) : option (list (list Z)) :=
  match raw !! i, raw !! j with
  | Some ri, Some rj =>
      let '(ok, _, rw) := validate_result st (ri ++ rj) cap demand due in
      if ok : bool then Some (delete i (delete j raw) ++ [rw]) else None
  | _, _ => None
  end.

Definition pass_result (st : OSRMClient) (cap : Z) (demand due : gmap Z Z)
    (raw : list (list Z)) : option (list (list Z)) :=
  first_some (λ i,
    first_some (merge_of st cap demand due raw i) (py_range (i + 1) (length raw)))
  (py_range 0 (length raw)).

(** The path [keep_feasible] keeps for a route, if any. *)
Definition kept (st : OSRMClient) (cap : Z) (demand due : gmap Z Z)
    (r : list Z) : option (list Z) :=
  let '(ok, exp, _) := validate_result st r cap demand due in
  if ok : bool then Some exp else None.

(** A call that, from any state answering like [st0], returns [a] and
    leaves a state answering like [st0]. *)
Definition denotes {A} (st0 : OSRMClient) (m : M A) (a : A) : Prop :=
  ∀ st, view_eq st0 st → ∃ st', view_eq st0 st' ∧ m st = Ok (a, st').

(** A route as the solver returns it: customers only, no depot marker. *)
Definition depot_free (r : list Z) : Prop := 0 ∉ r.

(** A route the merge loop can work on. *)
Definition good_route (st : OSRMClient) (r : list Z) : Prop :=
  route_known st r ∧ depot_free r ∧ r ≠ [].

End Routing.

(** ** Callers and neighbours of the validator *)

(** The two float operations [summarize_route] uses besides those of
    [PyFloat]: [a <= b] and [round(x, ndigits)]. *)
Class PyFloatOrd (F : Type) := {
  fle : F → F → bool;
  fround : F → Z → F
}.

(** The dict [summarize_route] returns. *)
Record route_summary (F : Type) := {
  nodes : list Z;
  distance_km : F;
  duration_h : F;
  within_shift : bool
}.
Arguments nodes {F} _.
Arguments distance_km {F} _.
Arguments duration_h {F} _.
Arguments within_shift {F} _.

(** A patient as the data layer hands it to the routing code: the keys
    read by [build_nodes_and_client] ([demand] and [due_date] are read
    with a default). *)
Record patient (F : Type) := {
  pt_cust_no : Z;
  pt_id : string;
  pt_name : string;
  pt_lat : F;
  pt_lon : F;
  pt_demand : option Z;
  pt_due_date : option Z
}.
Arguments pt_cust_no {F} _.
Arguments pt_id {F} _.
Arguments pt_name {F} _.
Arguments pt_lat {F} _.
Arguments pt_lon {F} _.
Arguments pt_demand {F} _.
Arguments pt_due_date {F} _.

(** A database cell of type INTERVAL as the driver returns it: a
    [timedelta] (seconds) or a text ['HH:MM:SS']. *)
Inductive interval_cell :=
  | Timedelta (secs : Q)
  | Text (s : string).

(** A row of the query of [get_patients_data]; [None] is NULL. *)
Record patient_row (F : Type) := {
  row_pid : string;
  row_name : string;
  row_addr : string;
  row_lat : option F;
  row_lon : option F;
  row_demand : option Z;
  row_due_date : option interval_cell
}.
Arguments row_pid {F} _.
Arguments row_name {F} _.
Arguments row_addr {F} _.
Arguments row_lat {F} _.
Arguments row_lon {F} _.
Arguments row_demand {F} _.
Arguments row_due_date {F} _.

(** The rows [get_patients_data] does not skip: both coordinates are
    there. *)
Definition has_coords {F : Type} (row : patient_row F) : bool :=
  match row_lat row, row_lon row with
  | Some _, Some _ => true
  | _, _ => false
  end.

Section RoutingCallers.
Context {F : Type} `{PyFloat F} `{PyFloatOrd F}.
Variable osrm_http : F → F → F → F → http_reply F.

(** [map(int, str(val).split(":"))], or [None] when some field is not
    an integer literal. *)
Variable parse_ints : string → option (list Z).

(** *** summarize_route *)

Fixpoint sum_legs (legs : list (Z * Z)) (dist time : F) : M (F * F) :=
  match legs with
  | [] => mret (dist, time)
  | (u, v) :: legs' =>
      '(d, t) ← get_edge osrm_http u v;
      sum_legs legs' (fadd dist d) (fadd time t)
  end.

Definition summarize_route (path : list Z) : M (route_summary F) :=
  '(dist, time) ← sum_legs (zip path (tail path)) (of_Z 0) (of_Z 0);
  mret {| nodes := path;
          distance_km := fround (fdiv dist (of_Z 1000)) 2;
          duration_h := fround (fdiv time (of_Z 3600)) 2;
          within_shift := fle time (of_Z SHIFT_LIMIT_SEC) |}.

(** *** run_hgs: the per-route list [validated]

    A route that validates contributes its expanded path; one that does
    not contributes each of its trips as a path of its own. *)
Fixpoint run_hgs_validated (routes : list (list Z)) (demand due : gmap Z Z)
    (validated : list (list Z)) : M (list (list Z)) :=
  match routes with
  | [] => mret validated
  | r :: routes' =>
      '(ok, exp, _) ← validate_multitrip osrm_http r SOL_VEH_CAP demand due;
      let validated :=
        if ok : bool then validated ++ [exp]
        else validated
             ++ ((λ t : list Z * Z, [0] ++ t.1 ++ [0])
                   <$> split_into_trips r SOL_VEH_CAP demand) in
      run_hgs_validated routes' demand due validated
  end.

(** *** build_nodes_and_client *)

Fixpoint build_nodes (patients : list (patient F))
    (coords : gmap Z (F * F)) (demand due : gmap Z Z)
  : gmap Z (F * F) * gmap Z Z * gmap Z Z :=
  match patients with
  | [] => (coords, demand, due)
  | p :: patients' =>
      let n := pt_cust_no p in
      build_nodes patients'
        (<[n := (pt_lat p, pt_lon p)]> coords)
        (<[n := default 1 (pt_demand p)]> demand)
        (<[n := default 9999 (pt_due_date p)]> due)
  end.

Definition build_nodes_and_client (depot : F * F) (patients : list (patient F))
  : gmap Z (F * F) * gmap Z Z * gmap Z Z * OSRMClient :=
  let '(coords, demand, due) :=
    build_nodes patients {[0 := depot]} {[0 := 0]} {[0 := 10 ^ 9]} in
  (coords, demand, due, new_client coords).

(** *** get_patients_data: from rows to patients *)

(** Minutes of an interval: [int(td.total_seconds() // 60)], or
    [h * 60 + m] of a text; [None] when the conversion raises. *)
Definition interval_minutes (c : interval_cell) : option Z :=
  match c with
  | Timedelta secs => Some (Qfloor (secs / 60))
  | Text s =>
      match parse_ints s with
      | Some (h :: m :: _) => Some (h * 60 + m)
      | _ => None
      end
  end.

(** Truth value of a cell: a zero [timedelta] and an empty text are
    false. *)
Definition cell_truthy (c : interval_cell) : bool :=
  match c with
  | Timedelta secs => negb (Qeq_bool secs 0)
  | Text s => negb (String.eqb s "")
  end.

Definition patient_due (due_date : option interval_cell) : Z :=
  match due_date with
  | Some c => if cell_truthy c then default 9999 (interval_minutes c) else 9999
  | None => 9999
  end.

Definition patient_demand (demand : option Z) : Z :=
  match demand with
  | Some d => if negb (d =? 0) && (0 <? d) then d else 1
  | None => 1
  end.

Fixpoint patients_loop (rows : list (patient_row F)) (pts : list (patient F))
    (i : Z) : list (patient F) :=
  match rows with
  | [] => pts
  | row :: rows' =>
      match row_lat row, row_lon row with
      | Some lat, Some lon =>
          patients_loop rows'
            (pts ++ [{| pt_cust_no := i; pt_id := row_pid row; pt_name := row_name row;
                        pt_lat := lat; pt_lon := lon;
                        pt_demand := Some (patient_demand (row_demand row));
                        pt_due_date := Some (patient_due (row_due_date row)) |}])
            (i + 1)
      | _, _ => patients_loop rows' pts i
      end
  end.

Definition get_patients_data (rows : list (patient_row F)) : list (patient F) :=
  patients_loop rows [] 1.

(** *** How a client may change

    [grows st st']: the coordinates are the same, every cached edge and
    every fallback mark of [st] is still there in [st'], and a pair
    that was cached in [st] has got no new fallback mark. *)
Definition grows (st st' : OSRMClient (F:=F)) : Prop :=
  coords st' = coords st
  ∧ cache st ⊆ cache st'
  ∧ fallback_edges st ⊆ fallback_edges st'
  ∧ ∀ k, is_Some (cache st !! k) → k ∈ fallback_edges st' → k ∈ fallback_edges st.

(** Every edge marked as fallback is cached. *)
Definition fallback_cached (st : OSRMClient (F:=F)) : Prop :=
  ∀ k, k ∈ fallback_edges st → is_Some (cache st !! k).

(** Every leg of the path is in the cache. *)
Definition path_cached (st : OSRMClient (F:=F)) (path : list Z) : Prop :=
  ∀ u v, (u, v) ∈ zip path (tail path) → is_Some (cache st !! (u, v)).

(** [keeps st st']: what [st] has cached, [st'] has cached with the
    same values and the same fallback marks. *)
Definition keeps (st st' : OSRMClient (F:=F)) : Prop :=
  cache st ⊆ cache st'
  ∧ ∀ k, is_Some (cache st !! k) →
         (k ∈ fallback_edges st' ↔ k ∈ fallback_edges st).

(** A call that, when it returns, has only let the client grow, has
    kept fallback edges cached and returns a value in [Q]; and that
    neither indexes a list out of range nor runs out of loop passes. *)
Definition well_behaved_with {A} (Q : A → Prop) (m : M (F:=F) A) : Prop :=
  ∀ st,
    match m st with
    | Ok (a, st') =>
        grows st st' ∧ (fallback_cached st → fallback_cached st') ∧ Q a
    | Raise IndexError | Raise OutOfFuel => False
    | Raise _ => True
    end.

Definition well_behaved {A} (m : M (F:=F) A) : Prop :=
  well_behaved_with (λ _, True) m.

End RoutingCallers.

(** ** The provider without the two simplifications

    [get_edge] above reads the code under two assumptions: a matrix cell
    of the reply is a number or [null], and no function of [math] is
    applied outside its domain.  Here a cell is any JSON value, which
    the provider stores and returns as it is, and [haversine_m], which
    runs after the [try] block, may raise. *)

(** A JSON value other than [null]: a number, or anything else (a
    string, a list, an object). *)
Inductive value (F : Type) :=
  | Num (x : F)
  | NotNum.
Arguments Num {F} x.
Arguments NotNum {F}.

(** [math.sin], [math.cos], [math.asin] and [math.sqrt]; [None] stands
    for [ValueError: math domain error]. *)
Class PyMath (F : Type) := {
  msin : F → option F;
  mcos : F → option F;
  masin : F → option F;
  msqrt : F → option F
}.

Section Checked.
Context {F : Type} `{PyFloat F} `{PyMath F}.
Variable osrm_http : F → F → F → F → http_reply (value F).

Definition haversine_m_checked (lat1 lon1 lat2 lon2 : F) : option F :=
  let R := of_Z 6371000 in
  let φ1 := radians lat1 in
  let φ2 := radians lat2 in
  let dφ := radians (fsub lat2 lat1) in
  let dλ := radians (fsub lon2 lon1) in
  s1 ← msin (fdiv dφ (of_Z 2));
  c1 ← mcos φ1;
  c2 ← mcos φ2;
  s2 ← msin (fdiv dλ (of_Z 2));
  let a := fadd (fmul s1 s1) (fmul (fmul c1 c2) (fmul s2 s2)) in
  q ← msqrt a;
  r ← masin q;
  Some (fmul (fmul (of_Z 2) R) r).

Record Provider := {
  pv_coords : gmap Z (F * F);
  pv_cache : gmap (Z * Z) (value F * value F);
  pv_fallback : gset (Z * Z)
}.

Definition pv_set_cache (st : Provider) (k : Z * Z) (e : value F * value F)
  : Provider :=
  {| pv_coords := pv_coords st; pv_cache := <[k := e]> (pv_cache st);
     pv_fallback := pv_fallback st |}.

Definition pv_add_fallback (st : Provider) (k : Z * Z) : Provider :=
  {| pv_coords := pv_coords st; pv_cache := pv_cache st;
     pv_fallback := {[k]} ∪ pv_fallback st |}.

(** [get_edge], statement by statement.  The live answer is
    [osrm_live] read on cells that are JSON values: two cells that are
    not [null] are stored and returned whatever they are. *)
Definition get_edge_checked (u v : Z) (st : Provider)
  : result ((value F * value F) * Provider) :=
  match pv_cache st !! (u, v) with
  | Some e => Ok (e, st)
  | None =>
      match pv_coords st !! u with
      | None => Raise (KeyError u)
      | Some (lat1, lon1) =>
          match pv_coords st !! v with
          | None => Raise (KeyError v)
          | Some (lat2, lon2) =>
              match osrm_live (osrm_http lon1 lat1 lon2 lat2) with
              | Some (d, t) => Ok ((d, t), pv_set_cache st (u, v) (d, t))
              | None =>
                  match haversine_m_checked lat1 lon1 lat2 lon2 with
                  | None => Raise ValueError
                  | Some d =>
                      let t := fdiv d (of_Q FALLBACK_SPEED_MPS) in
                      Ok ((Num d, Num t),
                          pv_set_cache (pv_add_fallback st (u, v)) (u, v)
                            (Num d, Num t))
                  end
              end
          end
      end
  end.

(** *** The simpler reading inside this one *)

Definition numeric_cell (c : option F) : option (value F) := Num <$> c.

Definition numeric_row (r : json_row F) : json_row (value F) :=
  match r with
  | JRow cells => JRow (numeric_cell <$> cells)
  | JCell c => JCell (numeric_cell c)
  end.

Definition numeric_body (b : osrm_body F) : osrm_body (value F) :=
  {| distances := fmap (M:=list) numeric_row <$> distances b;
     durations := fmap (M:=list) numeric_row <$> durations b |}.

Definition numeric_reply (r : http_reply F) : http_reply (value F) :=
  match r with
  | RequestError => RequestError
  | Response ok body => Response ok (numeric_body <$> body)
  end.

Definition numeric_edge (e : F * F) : value F * value F := (Num e.1, Num e.2).

Definition provider_of (st : OSRMClient (F:=F)) : Provider :=
  {| pv_coords := coords st; pv_cache := numeric_edge <$> cache st;
     pv_fallback := fallback_edges st |}.

Definition provider_result (r : result ((F * F) * OSRMClient (F:=F)))
  : result ((value F * value F) * Provider) :=
  match r with
  | Ok (e, st) => Ok (numeric_edge e, provider_of st)
  | Raise e => Raise e
  end.

End Checked.

(** ** Exact rational arithmetic

    An executable instance: [+ - * /] and comparisons are exact; the
    [math] functions are truncated series rounded to twelve decimals,
    enough to run the code on small inputs. *)

Module RatFloat.

(** Rounding down to twelve decimals. *)
Definition qround (x : Q) : Q :=
  Qred (inject_Z (Qfloor (x * 1000000000000)) / 1000000000000).

Definition qsqrt (a : Q) : Q :=
  if Qle_bool a 0 then 0%Q
  else Qred (inject_Z (Z.sqrt (Qfloor (a * 1000000000000000000000000))) / 1000000000000).

Definition qsin (x : Q) : Q :=
  qround (x - x * x * x / 6 + x * x * x * x * x / 120).

Definition qcos (x : Q) : Q :=
  qround (1 - x * x / 2 + x * x * x * x / 24).

Definition qasin (x : Q) : Q :=
  qround (x + x * x * x / 6 + 3 * x * x * x * x * x / 40).

#[export] Instance Q_float : PyFloat Q := {|
  of_Q := Qred;
  fadd := λ a b, Qred (a + b);
  fsub := λ a b, Qred (a - b);
  fmul := λ a b, Qred (a * b);
  fdiv := λ a b, Qred (a / b);
  fgt := λ a b, negb (Qle_bool a b);
  fsin := qsin;
  fcos := qcos;
  fasin := qasin;
  fsqrt := qsqrt;
  fpi := (355 # 113)%Q
|}.

End RatFloat.

(** ** Real arithmetic

    The mathematical reading of the float operations.  [asin] and
    [sqrt] are total on the reals; [math.asin] and [math.sqrt] raise
    outside their domains, which the haversine argument never leaves
    mathematically. *)

Module RealFloat.

#[export] Instance R_float : PyFloat R := {|
  of_Q := Q2R;
  fadd := Rplus;
  fsub := Rminus;
  fmul := Rmult;
  fdiv := Rdiv;
  fgt := λ a b, if Rlt_dec b a then true else false;
  fsin := sin;
  fcos := cos;
  fasin := asin;
  fsqrt := sqrt;
  fpi := PI
|}.

(** Two patients at one address, and a map service that is down. *)
Definition same_address : gmap Z (R * R) :=
  <[1 := ((2471 / 100)%R, (4667 / 100)%R)]>
  (<[2 := ((2471 / 100)%R, (4667 / 100)%R)]> ∅).

Definition net_unreachable (lon1 lat1 lon2 lat2 : R) : http_reply (value R) :=
  RequestError.

End RealFloat.

(** ** Comparison and rounding on the rationals

    [round(x, n)]: the nearest multiple of [10 ^ -n], a tie going to the
    even one. *)
Definition round_half_even (f : Z) (below above : bool) : Z :=
  if below then f else if above then f + 1 else if Z.even f then f else f + 1.

Definition qround_even (x : Q) (n : Z) : Q :=
  let y := (x * Qpower 10 n)%Q in
  let f := Qfloor y in
  let r := (y - inject_Z f)%Q in
  Qred (inject_Z (round_half_even f (negb (Qle_bool (1 # 2) r))
                                    (negb (Qle_bool r (1 # 2))))
        / Qpower 10 n).

#[export] Instance Q_float_ord : PyFloatOrd Q := {|
  fle := Qle_bool;
  fround := qround_even
|}.

(** [math] on the two instances: [sqrt] of a negative number and
    [asin] outside [-1, 1] raise. *)
#[export] Instance Q_math : PyMath Q := {|
  msin := λ x, Some (RatFloat.qsin x);
  mcos := λ x, Some (RatFloat.qcos x);
  masin := λ x, if Qle_bool (-1) x && Qle_bool x 1 then Some (RatFloat.qasin x) else None;
  msqrt := λ x, if Qle_bool 0 x then Some (RatFloat.qsqrt x) else None
|}.

#[export] Instance R_math : PyMath R := {|
  msin := λ x, Some (sin x);
  mcos := λ x, Some (cos x);
  masin := λ x, if Rle_dec (-1) x
                then if Rle_dec x 1 then Some (asin x) else None
                else None;
  msqrt := λ x, if Rle_dec 0 x then Some (sqrt x) else None
|}.

(** ** Failure of the live query *)

(** The ways the live query can fail: the request raises (timeout,
    connection error), the status is not a success, the body is not
    JSON, or a matrix cell is missing. *)
Inductive query_failure {F : Type} : http_reply F → Prop :=
  | fail_request : query_failure RequestError
  | fail_status body : query_failure (Response false body)
  | fail_json : query_failure (Response true None)
  | fail_cells data :
      _pick_cell (distances data) = None ∨ _pick_cell (durations data) = None →
      query_failure (Response true (Some data)).

(** ** Small routing instances, for running the code *)

Module Demo.
Import RatFloat.

Definition value_of {A} (r : result (A * OSRMClient (F:=Q))) : option A :=
  match r with
  | Ok (a, _) => Some a
  | Raise _ => None
  end.

Definition table (d t : Q) : http_reply Q :=
  Response true
    (Some {| distances := Some [JRow [Some 0%Q; Some d]; JRow [Some d; Some 0%Q]];
             durations := Some [JRow [Some 0%Q; Some t]; JRow [Some t; Some 0%Q]] |}).

(** A map service that answers every query: nothing between a point
    and itself, [d] metres and [t] seconds between two different points. *)
Definition net_live (d t : Q) (lon1 lat1 lon2 lat2 : Q) : http_reply Q :=
  if Qeq_bool lon1 lon2 && Qeq_bool lat1 lat2 then table 0 0 else table d t.

(** A map service that is down. *)
Definition net_down (lon1 lat1 lon2 lat2 : Q) : http_reply Q := RequestError.

(** A depot and two customers around Riyadh. *)
Definition demo_coords : gmap Z (Q * Q) :=
  <[0 := ((2471 # 100)%Q, (4667 # 100)%Q)]>
  (<[1 := ((2475 # 100)%Q, (4670 # 100)%Q)]>
  (<[2 := ((2468 # 100)%Q, (4672 # 100)%Q)]> ∅)).

Definition demo_client : OSRMClient := new_client demo_coords.

Definition demo_demand : gmap Z Z := <[0 := 0]> (<[1 := 1]> (<[2 := 1]> ∅)).

(** Due times in minutes, as [build_nodes_and_client] lays them out. *)
Definition demo_due (due1 due2 : Z) : gmap Z Z :=
  <[0 := 10 ^ 9]> (<[1 := due1]> (<[2 := due2]> ∅)).

End Demo.

(** ** The small instance for the provider with all cells *)

Module CheckedDemo.
Import RatFloat Demo.

Definition demo_provider : Provider := provider_of demo_client.

(** A map service that is down. *)
Definition net_failing (lon1 lat1 lon2 lat2 : Q) : http_reply (value Q) :=
  RequestError.

(** A map service whose distance cell is a text. *)
Definition net_text (lon1 lat1 lon2 lat2 : Q) : http_reply (value Q) :=
  Response true
    (Some {| distances := Some [JRow [Some (Num 0%Q); Some NotNum]];
             durations := Some [JRow [Some (Num 0%Q); Some (Num 300%Q)]] |}).

End CheckedDemo.

(** ** A small patient table *)

Module PatientDemo.
Import RatFloat.

(** No interval text parses. *)
Definition no_parse (s : string) : option (list Z) := None.

(** Two rows, the first without coordinates. *)
Definition demo_rows : list (patient_row Q) :=
  [ {| row_pid := "p0"; row_name := "A"; row_addr := ""; row_lat := None;
       row_lon := None; row_demand := Some 2; row_due_date := None |};
    {| row_pid := "p1"; row_name := "B"; row_addr := "";
       row_lat := Some (2475 # 100)%Q; row_lon := Some (4670 # 100)%Q;
       row_demand := Some 0; row_due_date := Some (Timedelta 1200) |} ].

Definition demo_depot : Q * Q := ((2471 # 100)%Q, (4667 # 100)%Q).

End PatientDemo.

(** * Cold-chain stability ([stability_router.py]) *)

Module Stability.

Definition FRIDGE_MIN : Q := 2.
Definition FRIDGE_MAX : Q := 8.

(** The JSON a handler returns: a dict literal, key by key. *)
Inductive json :=
  | JStr (s : string)
  | JBool (b : bool)
  | JInt (n : Z)
  | JNum (q : Q)
  | JNull.

Definition response : Type := list (string * json).

Inductive outcome :=
  | Return (r : response)
  | HTTPException (status_code : Z) (detail : string)
  | TypeError                 (* arithmetic on a [None] timestamp *)
  | FloatOfNone               (* [float(row[0])] on NULL: the [TypeError]
                                 of [float], kept apart from the one above *)
  | AttributeError.           (* [row[1].total_seconds()] on NULL *)

Record TempUpdate := { temp : Q; lat : Q; lon : Q }.

(** One entry of [STABILITY_STATE].  Temperatures, timestamps and
    durations (seconds) are exact rationals. *)
Record state := {
  timer_started : bool;
  timer_started_at : option Q;
  active : bool;
  max_exc : Q;
  max_time : Q
}.

Definition set_active (s : state) (b : bool) : state :=
  {| timer_started := timer_started s; timer_started_at := timer_started_at s;
     active := b; max_exc := max_exc s; max_time := max_time s |}.

Definition set_timer (s : state) (t : Q) : state :=
  {| timer_started := true; timer_started_at := Some t;
     active := active s; max_exc := max_exc s; max_time := max_time s |}.

(** What the handlers read and write: the module-level dict, the
    database, and the clock ([clock n] is the [n]-th reading of
    [_now()]). *)
Record world := {
  STABILITY_STATE : gmap string state;
  medication : gmap string (option Q * option Q);
    (* order_id ↦ max_temp_range_excursion, max_time_exertion (s) of the
       joined row, [None] for NULL *)
  orders : gmap string (option string);   (* "Order": order_id ↦ dashboard_id, [None] for NULL *)
  estimated_stability_time : list (string * Z);   (* rows inserted: dashboard_id, secs *)
  clock : nat → Q;
  ticks : nat
}.

Definition W (A : Type) : Type := world → A * world.

#[export] Instance W_ret : MRet W := λ A a w, (a, w).
#[export] Instance W_bind : MBind W := λ A B k m w, let '(a, w') := m w in k a w'.

Definition lookup_state (order_id : string) : W (option state) :=
  λ w, (STABILITY_STATE w !! order_id, w).

Definition store_state (order_id : string) (s : state) : W unit :=
  λ w, (tt, {| STABILITY_STATE := <[order_id := s]> (STABILITY_STATE w);
               medication := medication w; orders := orders w;
               estimated_stability_time := estimated_stability_time w;
               clock := clock w; ticks := ticks w |}).

Definition _now : W Q :=
  λ w, (clock w (ticks w),
        {| STABILITY_STATE := STABILITY_STATE w;
           medication := medication w; orders := orders w;
           estimated_stability_time := estimated_stability_time w;
           clock := clock w; ticks := S (ticks w) |}).

Definition fetch_medication (order_id : string)
  : W (option (option Q * option Q)) :=
  λ w, (medication w !! order_id, w).

Definition fetch_dashboard (order_id : string) : W (option (option string)) :=
  λ w, (orders w !! order_id, w).

Definition insert_estimated_stability_time (dash : string) (secs : Z) : W unit :=
  λ w, (tt, {| STABILITY_STATE := STABILITY_STATE w;
               medication := medication w; orders := orders w;
               estimated_stability_time := estimated_stability_time w ++ [(dash, secs)];
               clock := clock w; ticks := ticks w |}).

(** [int(x)] on a float: truncation toward zero. *)
Definition py_int (q : Q) : Z := Z.quot (Qnum q) (Zpos (Qden q)).

Definition Qgt_bool (a b : Q) : bool := negb (Qle_bool a b).

(** The limits of the medication of an order, or what is raised
    instead: no row, or a row with a NULL column, which [float] and
    [total_seconds] do not accept. *)
Definition get_medication_config (order_id : string) : W (outcome + Q * Q) :=
  row ← fetch_medication order_id;
  match row with
  | None => mret (inl (HTTPException 404 "Order or medication not found"))
  | Some (None, _) => mret (inl FloatOfNone)
  | Some (Some _, None) => mret (inl AttributeError)
  | Some (Some max_exc, Some max_time) => mret (inr (max_exc, max_time))
  end.

Definition start_stability (order_id : string) : W outcome :=
  config ← get_medication_config order_id;
  match config with
  | inl raised => mret raised
  | inr (max_exc, max_time) =>
      _ ← store_state order_id
            {| timer_started := false; timer_started_at := None; active := true;
               max_exc := max_exc; max_time := max_time |};
      mret (Return [("order_id", JStr order_id);
                    ("max_excursion_temp", JNum max_exc);
                    ("max_time_exertion_seconds", JNum max_time);
                    ("timer_started", JBool false)])
  end.

Definition update_stability (order_id : string) (data : TempUpdate) : W outcome :=
  s ← lookup_state order_id;
  match s with
  | None => mret (Return [("error", JStr "Monitoring not started")])
  | Some state =>
      if negb (active state) then mret (Return [("status", JStr "inactive")])
      else
        let max_exc := max_exc state in
        let max_time := max_time state in
        dash_row ← fetch_dashboard order_id;
        match dash_row with
        | Some (Some dashboard_id) =>
            if String.eqb dashboard_id "" then mret (HTTPException 400 "Order has no dashboard")
            else if Qgt_bool (temp data) max_exc then
              (* 1: max temp exceeded *)
              _ ← store_state order_id (set_active state false);
              mret (Return [("alert", JStr "MAX_EXCURSION_EXCEEDED")])
            else
              (* 2: start timer if outside fridge *)
              state ← (if Qgt_bool (temp data) FRIDGE_MAX && negb (timer_started state)
                       then t ← _now;
                            _ ← store_state order_id (set_timer state t);
                            mret (set_timer state t)
                       else mret state);
              if timer_started state then
                (* 3: timer running: compute remaining *)
                match timer_started_at state with
                | None => mret TypeError
                | Some t0 =>
                    t ← _now;
                    let elapsed := (t - t0)%Q in
                    let remaining := (max_time - elapsed)%Q in
                    remaining ← (if Qle_bool remaining 0
                                 then _ ← store_state order_id (set_active state false);
                                      mret 0%Q
                                 else mret remaining);
                    _ ← insert_estimated_stability_time dashboard_id (py_int remaining);
                    mret (Return [("remaining_seconds", JInt (py_int remaining));
                                  ("written_to_dashboard", JBool true)])
                end
              else
                (* 4: safe inside fridge: write full stability *)
                _ ← insert_estimated_stability_time dashboard_id (py_int max_time);
                mret (Return [("status", JStr "safe");
                              ("written_to_dashboard", JBool true)])
        | _ =>
            (* no row, or a NULL dashboard_id *)
            mret (HTTPException 400 "Order has no dashboard")
        end
  end.

(** A sequence of telemetry updates, each for some order. *)
Fixpoint updates (us : list (string * TempUpdate)) (w : world) : world :=
  match us with
  | [] => w
  | (order_id, data) :: us' => updates us' (update_stability order_id data w).2
  end.

(** The value under a key of a returned dict. *)
Fixpoint dict_lookup (k : string) (r : response) : option json :=
  match r with
  | [] => None
  | (k', v) :: r' => if String.eqb k k' then Some v else dict_lookup k r'
  end.

Definition field (k : string) (o : outcome) : option json :=
  match o with
  | Return r => dict_lookup k r
  | _ => None
  end.

(** The scenario of the documentation: excursion limit 15 degrees, 1800 s
    of tolerated exposure; order [o1] has a dashboard, order [o2] has
    none. *)
Definition demo_world (clk : nat → Q) : world :=
  {| STABILITY_STATE := ∅;
     medication := <["o1" := (Some 15%Q, Some 1800%Q)]>
                     (<["o2" := (Some 15%Q, Some 1800%Q)]> ∅);
     orders := <["o1" := Some "d1"]> (<["o2" := None]> ∅);
     estimated_stability_time := [];
     clock := clk;
     ticks := 0 |}.

Definition reading (t : Q) : TempUpdate := {| temp := t; lat := 0; lon := 0 |}.

(** The remaining time computed at clock reading [t] for a timer started
    at [t0], as step 3 writes and reports it. *)
Definition remaining_at (s : state) (t0 t : Q) : Q :=
  let remaining := (max_time s - (t - t0))%Q in
  if Qle_bool remaining 0 then 0%Q else remaining.

(** A clock that never runs backwards. *)
Definition monotone (clk : nat → Q) : Prop :=
  ∀ i j, (i ≤ j)%nat → (clk i <= clk j)%Q.

(** Clocks: one reading per second, one reading per quarter of a
    second, and a given list of readings (the last one repeated). *)
Definition seconds_clock (n : nat) : Q := inject_Z (Z.of_nat n).
Definition quarter_clock (n : nat) : Q := (inject_Z (Z.of_nat n) / 4)%Q.
Definition clock_steps (l : list Q) (n : nat) : Q := nth n l (List.last l 0%Q).

(** The entry [start_stability] creates for the demo medication. *)
Definition demo_state : state :=
  {| timer_started := false; timer_started_at := None; active := true;
     max_exc := 15; max_time := 1800 |}.

(** The same world after the [Order] table has changed. *)
Definition set_orders (w : world) (o : gmap string (option string)) : world :=
  {| STABILITY_STATE := STABILITY_STATE w; medication := medication w; orders := o;
     estimated_stability_time := estimated_stability_time w;
     clock := clock w; ticks := ticks w |}.

(** Run a list of calls, collecting what each returns. *)
Fixpoint run (calls : list (W outcome)) (w : world) : list outcome * world :=
  match calls with
  | [] => ([], w)
  | c :: calls' =>
      let '(o, w1) := c w in
      let '(os, w2) := run calls' w1 in
      (o :: os, w2)
  end.

End Stability.

(** ** The third handler, and what the handlers keep true *)

Module StabilityHandlers.
Import Stability.

(** [GET /config/{order_id}]: the limits of the medication, read from
    the database; the in-memory store is not consulted. *)
Definition stability_config (order_id : string) : W outcome :=
  row ← fetch_medication order_id;
  match row with
  | None => mret (HTTPException 404 "Order or medication not found")
  | Some (None, _) => mret FloatOfNone
  | Some (Some _, None) => mret AttributeError
  | Some (Some max_exc, Some max_time) =>
      mret (Return [("order_id", JStr order_id);
                    ("max_excursion_temp", JNum max_exc);
                    ("max_time_exertion_seconds", JInt (py_int max_time))])
  end.

(** A call of one of the three handlers of the router. *)
Inductive handler_call : W outcome → Prop :=
  | call_start order_id : handler_call (start_stability order_id)
  | call_update order_id data : handler_call (update_stability order_id data)
  | call_config order_id : handler_call (stability_config order_id).

(** An entry whose timer, if started, has its starting time; a store
    with such entries only. *)
Definition timer_consistent (s : state) : Prop :=
  timer_started s = true → is_Some (timer_started_at s).

Definition consistent (w : world) : Prop :=
  ∀ order_id s, STABILITY_STATE w !! order_id = Some s → timer_consistent s.

(** An order the updates do nothing for: not monitored, or no longer
    active. *)
Definition idle (w : world) (order_id : string) : Prop :=
  match STABILITY_STATE w !! order_id with
  | None => True
  | Some s => active s = false
  end.

End StabilityHandlers.

(** * Properties *)

(** ** The edge provider *)

Lemma osrm_live_None {F : Type} (r : http_reply F) :
  osrm_live r = None ↔ query_failure r.
Proof.
  split.
  - destruct r as [|[] [data|]]; simpl; try (intros; constructor; fail).
    intros Hl. constructor.
    destruct (_pick_cell (distances data)); [|by left].
    destruct (_pick_cell (durations data)); [done|by right].
  - destruct 1 as [| | |data [Hd|Hd]]; simpl; try done.
    + by rewrite Hd.
    + rewrite Hd. by destruct (_pick_cell (distances data)).
Qed.

Section EdgeFacts.
Context {F : Type} `{PyFloat F}.
Variable osrm_http : F → F → F → F → http_reply F.

Lemma get_edge_cached (st : OSRMClient) u v e :
  cache st !! (u, v) = Some e → get_edge osrm_http u v st = Ok (e, st).
Proof. intros Hc. unfold get_edge, mbind, M_bind, cache_lookup. by rewrite Hc. Qed.

Lemma get_edge_live (st : OSRMClient) u v lat1 lon1 lat2 lon2 d t :
  cache st !! (u, v) = None →
  coords st !! u = Some (lat1, lon1) →
  coords st !! v = Some (lat2, lon2) →
  osrm_live (osrm_http lon1 lat1 lon2 lat2) = Some (d, t) →
  get_edge osrm_http u v st = Ok ((d, t), set_cache st (u, v) (d, t)).
Proof.
  intros Hc Hu Hv Hl.
  unfold get_edge, mbind, M_bind, cache_lookup, coords_at. rewrite Hc, Hu, Hv.
  by rewrite Hl.
Qed.

Lemma get_edge_fallback (st : OSRMClient) u v lat1 lon1 lat2 lon2 :
  cache st !! (u, v) = None →
  coords st !! u = Some (lat1, lon1) →
  coords st !! v = Some (lat2, lon2) →
  osrm_live (osrm_http lon1 lat1 lon2 lat2) = None →
  let d := haversine_m lat1 lon1 lat2 lon2 in
  let t := fdiv d (of_Q FALLBACK_SPEED_MPS) in
  get_edge osrm_http u v st
  = Ok ((d, t), set_cache (add_fallback st (u, v)) (u, v) (d, t)).
Proof.
  intros Hc Hu Hv Hl.
  unfold get_edge, mbind, M_bind, cache_lookup, coords_at. rewrite Hc, Hu, Hv.
  by rewrite Hl.
Qed.

End EdgeFacts.

(** ** The provider, reply cells and math errors included *)

Section CheckedFacts.
Context {F : Type} `{PyFloat F} `{PyMath F}.

Lemma pick_cell_numeric (m : option (list (json_row F))) :
  _pick_cell (fmap (M:=list) numeric_row <$> m) = Num <$> _pick_cell m.
Proof. by destruct m as [[|[[|c0 [|c cells]]|c] rows]|]. Qed.

Lemma osrm_live_numeric (r : http_reply F) :
  osrm_live (numeric_reply r) = numeric_edge <$> osrm_live r.
Proof.
  destruct r as [|[] [data|]]; try done. simpl.
  rewrite !pick_cell_numeric.
  by destruct (_pick_cell (distances data)), (_pick_cell (durations data)).
Qed.

(** When the functions of [math] return, [haversine_m_checked] returns
    what [haversine_m] computes. *)
Lemma haversine_m_checked_Some (lat1 lon1 lat2 lon2 d : F) :
  (∀ x y, msin x = Some y → y = fsin x) →
  (∀ x y, mcos x = Some y → y = fcos x) →
  (∀ x y, masin x = Some y → y = fasin x) →
  (∀ x y, msqrt x = Some y → y = fsqrt x) →
  haversine_m_checked lat1 lon1 lat2 lon2 = Some d →
  d = haversine_m lat1 lon1 lat2 lon2.
Proof.
  intros Hsin Hcos Hasin Hsqrt Hd.
  unfold haversine_m_checked in Hd. unfold haversine_m. cbv zeta in *.
  destruct (msin (fdiv (radians (fsub lat2 lat1)) (of_Z 2))) as [s1|] eqn:H1;
    simpl in Hd; [|done]. apply Hsin in H1 as ->.
  destruct (mcos (radians lat1)) as [c1|] eqn:H2; simpl in Hd; [|done].
  apply Hcos in H2 as ->.
  destruct (mcos (radians lat2)) as [c2|] eqn:H3; simpl in Hd; [|done].
  apply Hcos in H3 as ->.
  destruct (msin (fdiv (radians (fsub lon2 lon1)) (of_Z 2))) as [s2|] eqn:H4;
    simpl in Hd; [|done]. apply Hsin in H4 as ->.
  destruct (msqrt _) as [q|] eqn:H5; simpl in Hd; [|done]. apply Hsqrt in H5 as ->.
  destruct (masin _) as [r|] eqn:H6; simpl in Hd; [|done]. apply Hasin in H6 as ->.
  by injection Hd as <-.
Qed.

(** The first call of [math] is [sin] of half the difference of the
    latitudes: when it raises, so does [haversine_m]. *)
Lemma haversine_m_checked_sin (lat1 lon1 lat2 lon2 : F) :
  msin (fdiv (radians (fsub lat2 lat1)) (of_Z 2)) = None →
  haversine_m_checked lat1 lon1 lat2 lon2 = None.
Proof. intros Hs. unfold haversine_m_checked. cbv zeta. by rewrite Hs. Qed.

Lemma provider_of_set_cache (st : OSRMClient (F:=F)) (k : Z * Z) (e : F * F) :
  provider_of (set_cache st k e) = pv_set_cache (provider_of st) k (numeric_edge e).
Proof. unfold provider_of, pv_set_cache. simpl. by rewrite fmap_insert. Qed.

(** The simpler reading is this one on replies whose cells are numbers
    or [null], as long as [haversine_m] does not raise. *)
Lemma get_edge_checked_numeric (net : F → F → F → F → http_reply F)
    (st : OSRMClient) (u v : Z) :
  (∀ lat1 lon1 lat2 lon2,
      coords st !! u = Some (lat1, lon1) → coords st !! v = Some (lat2, lon2) →
      osrm_live (net lon1 lat1 lon2 lat2) = None →
      haversine_m_checked lat1 lon1 lat2 lon2
      = Some (haversine_m lat1 lon1 lat2 lon2)) →
  get_edge_checked (λ a b c d, numeric_reply (net a b c d)) u v (provider_of st)
  = provider_result (get_edge net u v st).
Proof.
  intros Hmath.
  unfold get_edge_checked, get_edge, mbind, M_bind, cache_lookup, coords_at. simpl.
  rewrite lookup_fmap.
  destruct (cache st !! (u, v)) as [e|]; simpl; [done|].
  destruct (coords st !! u) as [[lat1 lon1]|] eqn:Hu; [|done].
  destruct (coords st !! v) as [[lat2 lon2]|] eqn:Hv; [|done].
  rewrite osrm_live_numeric.
  destruct (osrm_live (net lon1 lat1 lon2 lat2)) as [[d t]|] eqn:Hl; simpl.
  - by rewrite provider_of_set_cache.
  - rewrite (Hmath _ _ _ _ eq_refl eq_refl Hl). simpl.
    by rewrite provider_of_set_cache.
Qed.

Variable net : F → F → F → F → http_reply (value F).

Lemma get_edge_checked_fallback (st : Provider) (u v : Z) (lat1 lon1 lat2 lon2 d : F) :
  pv_cache st !! (u, v) = None →
  pv_coords st !! u = Some (lat1, lon1) →
  pv_coords st !! v = Some (lat2, lon2) →
  osrm_live (net lon1 lat1 lon2 lat2) = None →
  haversine_m_checked lat1 lon1 lat2 lon2 = Some d →
  get_edge_checked net u v st
  = Ok ((Num d, Num (fdiv d (of_Q FALLBACK_SPEED_MPS))),
        pv_set_cache (pv_add_fallback st (u, v)) (u, v)
          (Num d, Num (fdiv d (of_Q FALLBACK_SPEED_MPS)))).
Proof.
  intros Hc Hu Hv Hl Hd. unfold get_edge_checked. by rewrite Hc, Hu, Hv, Hl, Hd.
Qed.

(** X1. What [get_edge] returns it has cached: a later call for the
    same pair returns the same answer and leaves the provider as it
    is, whatever the map service would answer then, whatever else has
    been cached since, and even if the nodes have no coordinates any
    more; so the service is not asked again. *)
Theorem get_edge_repeat (st st' : Provider) (u v : Z) (e : value F * value F) :
  get_edge_checked net u v st = Ok (e, st') →
  pv_cache st' !! (u, v) = Some e
  ∧ ∀ (net' : F → F → F → F → http_reply (value F)) (st'' : Provider),
      pv_cache st' ⊆ pv_cache st'' →
      get_edge_checked net' u v st'' = Ok (e, st'').
Proof.
  intros Hget.
  assert (Hc : pv_cache st' !! (u, v) = Some e).
  { unfold get_edge_checked in Hget.
    destruct (pv_cache st !! (u, v)) as [e0|] eqn:Hc.
    { by injection Hget as <- <-. }
    destruct (pv_coords st !! u) as [[lat1 lon1]|]; [|done].
    destruct (pv_coords st !! v) as [[lat2 lon2]|]; [|done].
    destruct (osrm_live (net lon1 lat1 lon2 lat2)) as [[d t]|].
    { injection Hget as <- <-. simpl. apply lookup_insert_eq. }
    destruct (haversine_m_checked lat1 lon1 lat2 lon2) as [d|]; [|done].
    injection Hget as <- <-. simpl. apply lookup_insert_eq. }
  split; [done|]. intros net' st'' Hsub. unfold get_edge_checked.
  by rewrite (lookup_weaken _ _ _ _ Hc Hsub).
Qed.

(** X2. Every outcome of [get_edge].  A cached pair is answered from
    the cache.  Otherwise the call raises the [KeyError] of the first
    node without coordinates ([u] before [v]), before the service is
    asked; with both coordinates it returns the two cells of a live
    answer, or, when the query failed, the great-circle estimate,
    unless [haversine_m] raises [ValueError], which reaches the caller.
    It raises nothing else. *)
Theorem get_edge_outcome (st : Provider) (u v : Z) :
  match pv_cache st !! (u, v), pv_coords st !! u, pv_coords st !! v with
  | Some e, _, _ => get_edge_checked net u v st = Ok (e, st)
  | None, None, _ => get_edge_checked net u v st = Raise (KeyError u)
  | None, Some _, None => get_edge_checked net u v st = Raise (KeyError v)
  | None, Some (lat1, lon1), Some (lat2, lon2) =>
      match osrm_live (net lon1 lat1 lon2 lat2),
            haversine_m_checked lat1 lon1 lat2 lon2 with
      | Some e, _ => get_edge_checked net u v st = Ok (e, pv_set_cache st (u, v) e)
      | None, Some d =>
          ∃ st', get_edge_checked net u v st
                 = Ok ((Num d, Num (fdiv d (of_Q FALLBACK_SPEED_MPS))), st')
      | None, None => get_edge_checked net u v st = Raise ValueError
      end
  end.
Proof.
  unfold get_edge_checked.
  destruct (pv_cache st !! (u, v)) as [e0|]; [done|].
  destruct (pv_coords st !! u) as [[lat1 lon1]|]; [|done].
  destruct (pv_coords st !! v) as [[lat2 lon2]|]; [|done].
  destruct (osrm_live (net lon1 lat1 lon2 lat2)) as [[d t]|]; [done|].
  destruct (haversine_m_checked lat1 lon1 lat2 lon2) as [d|]; [|done].
  by eexists.
Qed.

(** C7 (amended). Take a pair that is not cached and whose two nodes
    have coordinates.  When the query fails (the request raises, the
    status is not a success, the body is not a JSON object, or a matrix
    cell is missing or [null]), [get_edge] runs [haversine_m] outside
    the [try] block: if a function of [math] raises, the [ValueError]
    reaches the caller; otherwise the call returns the great-circle
    distance [d] and [d / 16.67], caches them and records the pair in
    [fallback_edges].  When the query does not fail, the two cells of
    the answer, numbers or not, are cached and returned, and the pair
    is not recorded as fallback. *)
Theorem get_edge_fallback_estimate (st : Provider) (u v : Z) (lat1 lon1 lat2 lon2 : F) :
  pv_cache st !! (u, v) = None →
  pv_coords st !! u = Some (lat1, lon1) →
  pv_coords st !! v = Some (lat2, lon2) →
  (query_failure (net lon1 lat1 lon2 lat2) →
   match haversine_m_checked lat1 lon1 lat2 lon2 with
   | None => get_edge_checked net u v st = Raise ValueError
   | Some d =>
       let t := fdiv d (of_Q FALLBACK_SPEED_MPS) in
       ∃ st', get_edge_checked net u v st = Ok ((Num d, Num t), st')
              ∧ pv_cache st' = <[(u, v) := (Num d, Num t)]> (pv_cache st)
              ∧ pv_fallback st' = {[(u, v)]} ∪ pv_fallback st
              ∧ pv_coords st' = pv_coords st
   end)
  ∧ (¬ query_failure (net lon1 lat1 lon2 lat2) →
     ∃ e st', osrm_live (net lon1 lat1 lon2 lat2) = Some e
              ∧ get_edge_checked net u v st = Ok (e, st')
              ∧ pv_cache st' = <[(u, v) := e]> (pv_cache st)
              ∧ pv_fallback st' = pv_fallback st
              ∧ pv_coords st' = pv_coords st).
Proof.
  intros Hc Hu Hv. unfold get_edge_checked. rewrite Hc, Hu, Hv. split.
  - intros Hfail. apply osrm_live_None in Hfail. rewrite Hfail.
    destruct (haversine_m_checked lat1 lon1 lat2 lon2) as [d|]; [|done].
    cbv zeta. by eexists.
  - intros Hlive. rewrite <- osrm_live_None in Hlive.
    destruct (osrm_live (net lon1 lat1 lon2 lat2)) as [[d t]|]; [|done].
    by eexists (d, t), _.
Qed.

End CheckedFacts.

Section SplitFacts.
Variables (cap : Z) (demand : gmap Z Z).

Lemma trip_load_app (l1 l2 : list Z) :
  trip_load demand (l1 ++ l2) = trip_load demand l1 + trip_load demand l2.
Proof. induction l1 as [|c l1 IH]; simpl; [done|]. rewrite IH. lia. Qed.

Lemma split_loop_concat (route : list Z) : ∀ trips cur load,
  concat (split_loop cap demand route trips cur load).*1
  = concat trips.*1 ++ cur ++ route.
Proof.
  induction route as [|c route IH]; intros trips cur load; simpl.
  - unfold close_trips. destruct cur as [|x cur]; simpl.
    + by rewrite app_nil_r.
    + rewrite fmap_app, concat_app. simpl. by rewrite !app_nil_r.
  - destruct (negb (is_empty cur) && (cap <? load + dict_get demand c 0)) eqn:Hc;
      rewrite IH.
    + rewrite fmap_app, concat_app. simpl. rewrite app_nil_r.
      by rewrite <- !app_assoc.
    + by rewrite <- !app_assoc.
Qed.

Lemma split_loop_ok (route : list Z) : ∀ trips cur load,
  Forall (trip_ok cap demand) trips →
  load = trip_load demand cur →
  (cur = [] ∨ load ≤ cap ∨ ∃ c, cur = [c]) →
  Forall (trip_ok cap demand) (split_loop cap demand route trips cur load).
Proof.
  induction route as [|c route IH]; intros trips cur load Htrips Hload Hcur; simpl.
  - unfold close_trips. destruct cur as [|x cur]; simpl; [done|].
    apply Forall_app. split; [done|]. apply Forall_singleton.
    split; [done|]. split; [done|]. simpl.
    destruct Hcur as [?|[?|?]]; [done|by left|by right].
  - destruct (negb (is_empty cur) && (cap <? load + dict_get demand c 0)) eqn:Hc.
    + apply andb_true_iff in Hc as [Hne Hgt].
      apply IH.
      * apply Forall_app. split; [done|]. apply Forall_singleton.
        destruct cur as [|x cur]; [done|].
        split; [done|]. split; [done|]. simpl.
        destruct Hcur as [?|[?|?]]; [done|by left|by right].
      * simpl. lia.
      * right. right. by exists c.
    + apply IH; [done| |].
      * rewrite trip_load_app. simpl. lia.
      * destruct cur as [|x cur].
        -- right. right. by exists c.
        -- right. left. simpl in Hc. apply Z.ltb_ge in Hc. lia.
Qed.

Lemma split_into_trips_concat (route : list Z) :
  concat (split_into_trips route cap demand).*1 = route.
Proof. unfold split_into_trips. by rewrite split_loop_concat. Qed.

Lemma split_into_trips_ok (route : list Z) :
  Forall (trip_ok cap demand) (split_into_trips route cap demand).
Proof. apply split_loop_ok; [done|done|by left]. Qed.

Lemma split_into_trips_elem (route trip : list Z) (load n : Z) :
  (trip, load) ∈ split_into_trips route cap demand → n ∈ trip → n ∈ route.
Proof.
  intros Ht Hn. rewrite <- (split_into_trips_concat route).
  apply list_elem_of_In, in_concat. exists trip.
  split; [|by apply list_elem_of_In].
  apply list_elem_of_In, list_elem_of_fmap. by exists (trip, load).
Qed.

(** C6 (amended). Every trip closed by [split_into_trips] carries as load
    the sum of the demands of its customers, and that load is within the
    capacity unless the trip is a single customer; if no customer of the
    route demands more than the capacity, every trip is within it. *)
Theorem split_into_trips_capacity (route trip : list Z) (load : Z) :
  (trip, load) ∈ split_into_trips route cap demand →
  load = trip_load demand trip
  ∧ (load ≤ cap ∨ ∃ c, trip = [c])
  ∧ ((∀ c, c ∈ route → dict_get demand c 0 ≤ cap) → trip_load demand trip ≤ cap).
Proof.
  intros Hin.
  pose proof (split_into_trips_ok route) as Hok.
  rewrite Forall_forall in Hok. destruct (Hok _ Hin) as (Hne & Hload & Hcap).
  simpl in Hne, Hload, Hcap. split; [done|]. split; [done|].
  intros Hdem. destruct Hcap as [Hle|[c ->]]; [lia|].
  simpl. specialize (Hdem c (split_into_trips_elem route [c] load c Hin ltac:(left))).
  lia.
Qed.

End SplitFacts.

Section ViewFacts.
Context {F : Type} `{PyFloat F}.
Variable net : F → F → F → F → http_reply F.

Lemma view_eq_refl (st : OSRMClient) : view_eq net st st.
Proof. by split. Qed.

Lemma view_eq_trans (st1 st2 st3 : OSRMClient) :
  view_eq net st1 st2 → view_eq net st2 st3 → view_eq net st1 st3.
Proof.
  intros [Hc1 H1] [Hc2 H2]. split; [congruence|].
  intros u v. destruct (H1 u v), (H2 u v). split; congruence.
Qed.

Lemma view_eq_sym (st1 st2 : OSRMClient) : view_eq net st1 st2 → view_eq net st2 st1.
Proof.
  intros [Hc1 H1]. split; [congruence|].
  intros u v. destruct (H1 u v). split; congruence.
Qed.

Lemma edge_of_known (st : OSRMClient) u v :
  is_Some (coords st !! u) → is_Some (coords st !! v) → is_Some (edge_of net st u v).
Proof.
  intros [c1 H1] [c2 H2]. unfold edge_of.
  destruct (cache st !! (u, v)); [done|]. by rewrite H1, H2.
Qed.

(** [get_edge] answers what [edge_of] announces and leaves every later
    answer as it was. *)
Lemma get_edge_spec (st : OSRMClient) u v e :
  edge_of net st u v = Some e →
  ∃ st', get_edge net u v st = Ok (e, st')
         ∧ view_eq net st st'
         ∧ bool_decide ((u, v) ∈ fallback_edges st') = fallback_of net st u v.
Proof.
  unfold edge_of. intros He.
  destruct (cache st !! (u, v)) as [e'|] eqn:Hc.
  - injection He as ->. exists st. split; [by apply get_edge_cached|].
    split; [apply view_eq_refl|].
    unfold fallback_of. rewrite Hc. by rewrite orb_false_r.
  - destruct (coords st !! u) as [[lat1 lon1]|] eqn:Hu; [|done].
    destruct (coords st !! v) as [[lat2 lon2]|] eqn:Hv; [|done].
    simpl in He.
    destruct (osrm_live (net lon1 lat1 lon2 lat2)) as [[d t]|] eqn:Hl;
      simpl in He; injection He as <-.
    + exists (set_cache st (u, v) (d, t)).
      split; [by eapply get_edge_live|].
      split.
      * split; [done|]. intros a b. unfold edge_of, fallback_of. simpl.
        destruct (decide ((u, v) = (a, b))) as [[= <- <-]|Hne].
        -- rewrite lookup_insert_eq, Hc, Hu, Hv. simpl. rewrite Hl. simpl.
           done.
        -- by rewrite lookup_insert_ne.
      * simpl. unfold fallback_of. rewrite Hc, Hu, Hv. simpl. rewrite Hl.
        simpl. by rewrite orb_false_r.
    + exists (set_cache (add_fallback st (u, v)) (u, v)
                (fallback_estimate (lat1, lon1) (lat2, lon2))).
      split; [by eapply get_edge_fallback|].
      split.
      * split; [done|]. intros a b. unfold edge_of, fallback_of. simpl.
        destruct (decide ((u, v) = (a, b))) as [[= <- <-]|Hne].
        -- rewrite lookup_insert_eq, Hc, Hu, Hv. simpl. rewrite Hl. simpl.
           split; [done|]. rewrite orb_true_r, orb_false_r.
           apply bool_decide_eq_true_2. set_solver.
        -- rewrite lookup_insert_ne by done. split; [done|]. f_equal.
           apply bool_decide_ext. rewrite elem_of_union, elem_of_singleton.
           split; [intros [Heq|Hin]; [congruence|done]|by right].
      * simpl. unfold fallback_of. rewrite Hc, Hu, Hv. simpl. rewrite Hl.
        simpl. rewrite orb_true_r. apply bool_decide_eq_true_2. set_solver.
Qed.


Lemma walk_legs_spec (st0 : OSRMClient) due legs : ∀ clk st,
  view_eq net st0 st →
  (∀ u v, (u, v) ∈ legs → is_Some (edge_of net st0 u v)) →
  ∃ st', view_eq net st0 st'
    ∧ walk_legs net due legs clk st
      = Ok (if existsb (rejecting net st0 due) (arrivals net st0 legs clk)
            then None
            else Some (fold_left (λ clk '(u, v), fadd clk (leg_time net st0 u v))
                                 legs clk),
            st').
Proof.
  induction legs as [|[u v] legs IH]; intros clk st Hview Hknown.
  - exists st. by split.
  - destruct (Hknown u v) as [[d t] He]; [left|].
    assert (He' : edge_of net st u v = Some (d, t)).
    { destruct Hview as [_ Hv]. destruct (Hv u v) as [-> _]. done. }
    destruct (get_edge_spec st u v _ He') as (st1 & Hget & Hview1 & Hfb).
    assert (Hview01 : view_eq net st0 st1) by (by eapply view_eq_trans).
    assert (Hfb0 : fallback_of net st u v = fallback_of net st0 u v).
    { destruct Hview as [_ Hv]. by destruct (Hv u v) as [_ ->]. }
    assert (Hstep : walk_legs net due ((u, v) :: legs) clk st
                    = if rejecting net st0 due (u, v, fadd clk t) then Ok (None, st1)
                      else walk_legs net due legs (fadd clk t) st1).
    { simpl. unfold mbind, M_bind at 1. rewrite Hget. simpl.
      unfold M_bind at 1, is_fallback. rewrite Hfb, Hfb0.
      unfold rejecting. simpl.
      by destruct (bool_decide (v ≠ 0)
                   && fgt (fdiv (fadd clk t) (of_Z 60)) (of_Z (dict_get due v 9999))
                   && negb (fallback_of net st0 u v)). }
    assert (Ht : leg_time net st0 u v = t) by (unfold leg_time; by rewrite He).
    rewrite Hstep. simpl. rewrite !Ht.
    destruct (rejecting net st0 due (u, v, fadd clk t)); simpl.
    + by exists st1.
    + apply IH; [done|]. intros a b Hab. apply Hknown. by right.
Qed.

Lemma trip_legs_elem (trip : list Z) (u v : Z) :
  (u, v) ∈ trip_legs trip → u ∈ 0 :: trip ∧ v ∈ 0 :: trip.
Proof.
  unfold trip_legs. intros Huv.
  pose proof (elem_of_zip_l _ _ _ _ Huv) as Hu.
  pose proof (elem_of_zip_r _ _ _ _ Huv) as Hv.
  simpl in Hu, Hv. split.
  - apply elem_of_cons in Hu as [->|Hu]; [left|].
    apply elem_of_app in Hu as [Hu|Hu]; [by right|].
    apply list_elem_of_singleton in Hu as ->. left.
  - apply elem_of_app in Hv as [Hv|Hv]; [by right|].
    apply list_elem_of_singleton in Hv as ->. left.
Qed.

Lemma route_known_legs (st : OSRMClient) (trip : list Z) (u v : Z) :
  route_known st trip → (u, v) ∈ trip_legs trip → is_Some (edge_of net st u v).
Proof.
  intros Hk Huv. apply trip_legs_elem in Huv as [Hu Hv].
  apply edge_of_known; by apply Hk.
Qed.

Lemma walk_trips_spec (st0 : OSRMClient) due trips : ∀ total expanded st,
  view_eq net st0 st →
  (∀ t, t ∈ trips → route_known st0 t.1) →
  ∃ st', view_eq net st0 st'
    ∧ walk_trips net due trips total expanded st
      = Ok (if existsb (λ t, trip_rejected net st0 due t.1) trips
            then None
            else Some
              (fold_left (λ tot '(trip, _), fadd tot (trip_clock net st0 trip))
                         trips total,
               fold_left (λ expanded '(trip, _),
                            let full := [0] ++ trip ++ [0] in
                            expanded ++ (if is_empty expanded then full else tail full))
                         trips expanded),
            st').
Proof.
  induction trips as [|[trip load] trips IH]; intros total expanded st Hview Hknown.
  - exists st. by split.
  - destruct (walk_legs_spec st0 due (trip_legs trip) (of_Z 0) st Hview)
      as (st1 & Hview1 & Hwalk).
    { intros u v Huv. apply (route_known_legs st0 trip); [|done].
      apply (Hknown (trip, load)). left. }
    cbn [walk_trips existsb fold_left fst].
    unfold mbind, M_bind at 1. rewrite Hwalk.
    fold (trip_rejected net st0 due trip). fold (trip_clock net st0 trip).
    destruct (trip_rejected net st0 due trip); simpl.
    + by exists st1.
    + apply IH; [done|]. intros t Ht. apply Hknown. by right.
Qed.

(** [validate_multitrip] returns what [validate_result] announces, and
    leaves every later answer of the client as it was. *)
Lemma validate_multitrip_denotes (st0 : OSRMClient) route cap demand due :
  route_known st0 route →
  denotes net st0 (validate_multitrip net route cap demand due)
                  (validate_result net st0 route cap demand due).
Proof.
  intros Hknown st Hview0.
  destruct (walk_trips_spec st0 due (split_into_trips route cap demand)
              (of_Z 0) [] st Hview0) as (st' & Hview & Hwalk).
  { intros [trip load] Ht n Hn. apply Hknown.
    apply elem_of_cons in Hn as [->|Hn]; [left|right].
    by eapply split_into_trips_elem. }
  exists st'. split; [done|].
  unfold validate_multitrip, validate_result, mbind, M_bind. rewrite Hwalk.
  destruct (existsb _ (split_into_trips route cap demand)); [done|].
  fold (shift_total net st0 (split_into_trips route cap demand)).
  fold (expanded_path (split_into_trips route cap demand)).
  by destruct (fgt _ _).
Qed.

Lemma validate_multitrip_spec (st : OSRMClient) route cap demand due :
  route_known st route →
  ∃ st', view_eq net st st'
    ∧ validate_multitrip net route cap demand due st
      = Ok (validate_result net st route cap demand due, st').
Proof.
  intros Hknown. by apply validate_multitrip_denotes, view_eq_refl.
Qed.

Lemma existsb_trip_rejected (st : OSRMClient) due (trips : list (list Z * Z)) :
  existsb (λ t, trip_rejected net st due t.1) trips = true
  ↔ ∃ trip load a, (trip, load) ∈ trips
      ∧ a ∈ arrivals net st (trip_legs trip) (of_Z 0)
      ∧ late due a = true ∧ on_fallback net st a = false.
Proof.
  rewrite existsb_exists. split.
  - intros ([trip load] & Hin & Hrej). unfold trip_rejected in Hrej. simpl in Hrej.
    apply existsb_exists in Hrej as (a & Ha & Hr).
    unfold rejecting in Hr. apply andb_true_iff in Hr as [Hlate Hfb].
    apply negb_true_iff in Hfb.
    exists trip, load, a. by rewrite <- !list_elem_of_In in *.
  - intros (trip & load & a & Hin & Ha & Hlate & Hfb).
    exists (trip, load). split; [by apply list_elem_of_In|].
    unfold trip_rejected. simpl. apply existsb_exists. exists a.
    split; [by apply list_elem_of_In|].
    unfold rejecting. by rewrite Hlate, Hfb.
Qed.

(** C1. Deadline rule of [validate_multitrip].  Take a route whose nodes
    the provider knows.  If the time simulation of one of its trips
    arrives at a customer later than its due time over an edge that is not
    a fallback edge, the route is rejected: the call returns
    [(False, [], [])].  If every late arrival of the simulation is over a
    fallback edge, no deadline rejects the route: the answer is the one
    of the shift check alone. *)
Theorem validate_multitrip_deadline (st : OSRMClient) route cap demand due :
  route_known st route →
  let trips := split_into_trips route cap demand in
  (∀ trip load a,
      (trip, load) ∈ trips →
      a ∈ arrivals net st (trip_legs trip) (of_Z 0) →
      late due a = true →
      on_fallback net st a = false →
      ∃ st', validate_multitrip net route cap demand due st
             = Ok ((false, [], []), st'))
  ∧ ((∀ trip load a,
        (trip, load) ∈ trips →
        a ∈ arrivals net st (trip_legs trip) (of_Z 0) →
        late due a = true →
        on_fallback net st a = true) →
     ∃ st', validate_multitrip net route cap demand due st
            = Ok (if fgt (shift_total net st trips) (of_Z SHIFT_LIMIT_SEC)
                  then (false, [], [])
                  else (true, expanded_path trips, customers (expanded_path trips)),
                  st')).
Proof.
  intros Hknown trips.
  destruct (validate_multitrip_spec st route cap demand due Hknown)
    as (st' & _ & Hval).
  unfold validate_result in Hval. fold trips in Hval.
  split.
  - intros trip load a Hin Ha Hlate Hfb. exists st'. rewrite Hval.
    assert (Hex : existsb (λ t, trip_rejected net st due t.1) trips = true).
    { apply existsb_trip_rejected. by exists trip, load, a. }
    by rewrite Hex.
  - intros Hall. exists st'. rewrite Hval.
    destruct (existsb (λ t, trip_rejected net st due t.1) trips) eqn:Hex; [|done].
    apply existsb_trip_rejected in Hex as (trip & load & a & Hin & Ha & Hlate & Hfb).
    rewrite (Hall trip load a Hin Ha Hlate) in Hfb. discriminate.
Qed.

(** C5. Shift rule of [validate_multitrip].  Take a route whose nodes the
    provider knows.  The shift time is the sum, over all trips of the
    route, of the trip clocks.  Whenever it exceeds 8 hours (in seconds)
    the route is rejected, whatever the deadlines and whichever edges
    were fallback edges.  The deadline check of a trip reads a clock that
    starts at zero when the trip leaves the depot: the route is feasible
    exactly when no trip, simulated from clock zero, has a late arrival
    over a live edge and the shift time is within the limit. *)
Theorem validate_multitrip_shift (st : OSRMClient) route cap demand due :
  route_known st route →
  let trips := split_into_trips route cap demand in
  (fgt (shift_total net st trips) (of_Z (8 * 3600)) = true →
   ∃ st', validate_multitrip net route cap demand due st
          = Ok ((false, [], []), st'))
  ∧ ∃ ok path custs st',
      validate_multitrip net route cap demand due st = Ok ((ok, path, custs), st')
      ∧ (ok = true ↔
           (∀ trip load, (trip, load) ∈ trips →
              existsb (rejecting net st due)
                      (arrivals net st (trip_legs trip) (of_Z 0)) = false)
           ∧ fgt (shift_total net st trips) (of_Z (8 * 3600)) = false).
Proof.
  intros Hknown trips.
  destruct (validate_multitrip_spec st route cap demand due Hknown)
    as (st' & _ & Hval).
  unfold validate_result in Hval. fold trips in Hval.
  change (of_Z SHIFT_LIMIT_SEC) with (of_Z (8 * 3600)) in Hval.
  split.
  - intros Hshift. exists st'. rewrite Hval, Hshift.
    by destruct (existsb _ trips).
  - destruct (existsb (λ t, trip_rejected net st due t.1) trips) eqn:Hex.
    + exists false, [], [], st'. split; [done|]. split; [done|].
      intros [Hno _]. apply existsb_exists in Hex as ([trip load] & Hin & Hrej).
      apply list_elem_of_In in Hin. specialize (Hno trip load Hin).
      unfold trip_rejected in Hrej. simpl in Hrej. congruence.
    + assert (Hno : ∀ trip load, (trip, load) ∈ trips →
                existsb (rejecting net st due)
                        (arrivals net st (trip_legs trip) (of_Z 0)) = false).
      { intros trip load Hin.
        destruct (existsb (rejecting net st due) _) eqn:Hr; [|done].
        assert (existsb (λ t, trip_rejected net st due t.1) trips = true); [|congruence].
        apply existsb_exists. exists (trip, load).
        split; [by apply list_elem_of_In|done]. }
      destruct (fgt (shift_total net st trips) (of_Z (8 * 3600))) eqn:Hs.
      * exists false, [], [], st'. split; [done|]. split; [done|]. by intros [_ ?].
      * exists true, (expanded_path trips), (customers (expanded_path trips)), st'.
        by repeat split.
Qed.

End ViewFacts.

Section MergeFacts.
Context {F : Type} `{PyFloat F}.
Variable net : F → F → F → F → http_reply F.
Variables (cap : Z) (demand due : gmap Z Z).

Lemma denotes_ret {A} (st0 : OSRMClient) (a : A) : denotes net st0 (mret a) a.
Proof. intros st Hv. by exists st. Qed.

Lemma denotes_bind {A B} (st0 : OSRMClient) (m : M A) (k : A → M B) a b :
  denotes net st0 m a → denotes net st0 (k a) b → denotes net st0 (m ≫= k) b.
Proof.
  intros Hm Hk st Hv. destruct (Hm st Hv) as (st1 & Hv1 & Hr).
  destruct (Hk st1 Hv1) as (st2 & Hv2 & Hr2).
  exists st2. split; [done|]. unfold mbind, M_bind. by rewrite Hr.
Qed.

Lemma for_first_denotes {A B} (st0 : OSRMClient) (f : A → M (option B))
    (g : A → option B) (l : list A) :
  (∀ x, x ∈ l → denotes net st0 (f x) (g x)) →
  denotes net st0 (for_first f l) (first_some g l).
Proof.
  induction l as [|x l IH]; intros Hf; simpl.
  - apply denotes_ret.
  - eapply denotes_bind; [apply Hf; left|].
    destruct (g x); [apply denotes_ret|].
    apply IH. intros y Hy. apply Hf. by right.
Qed.

Lemma first_some_None {A B} (g : A → option B) (l : list A) :
  first_some g l = None ↔ ∀ x, x ∈ l → g x = None.
Proof.
  induction l as [|x l IH]; simpl.
  - split; [|done]. intros _ y Hy. by apply elem_of_nil in Hy.
  - destruct (g x) eqn:Hx.
    + split; [done|]. intros Hall. rewrite Hall in Hx; [done|left].
    + rewrite IH. split.
      * intros Hall y Hy. apply elem_of_cons in Hy as [->|Hy]; [done|by apply Hall].
      * intros Hall y Hy. apply Hall. by right.
Qed.

Lemma first_some_Some {A B} (g : A → option B) (l : list A) (b : B) :
  first_some g l = Some b → ∃ x, x ∈ l ∧ g x = Some b.
Proof.
  induction l as [|x l IH]; simpl; [done|].
  destruct (g x) eqn:Hx.
  - intros [= ->]. exists x. split; [left|done].
  - intros Hl. destruct (IH Hl) as (y & Hy & Hg). exists y. split; [by right|done].
Qed.

Lemma elem_of_py_range (a b i : nat) : i ∈ py_range a b ↔ (a ≤ i < b)%nat.
Proof. unfold py_range. rewrite elem_of_seq. lia. Qed.

(** **** Paths and their customers *)

Lemma customers_app (l1 l2 : list Z) :
  customers (l1 ++ l2) = customers l1 ++ customers l2.
Proof. apply filter_app. Qed.

Lemma customers_depot_free (r : list Z) : depot_free r → customers r = r.
Proof.
  unfold depot_free, customers. induction r as [|n r IH]; intros Hr; [done|].
  rewrite filter_cons_True by (intros ->; apply Hr; left).
  f_equal. apply IH. intros Hin. apply Hr. by right.
Qed.

Lemma customers_expanded_step (trips : list (list Z * Z)) : ∀ expanded,
  customers (fold_left (λ expanded '(trip, _),
                          let full := [0] ++ trip ++ [0] in
                          expanded ++ (if is_empty expanded then full else tail full))
                       trips expanded)
  = customers expanded ++ customers (concat trips.*1).
Proof.
  induction trips as [|[trip load] trips IH]; intros expanded; simpl.
  - by rewrite app_nil_r.
  - rewrite IH. rewrite !customers_app, <- app_assoc. f_equal. f_equal.
    destruct expanded; simpl; rewrite ?customers_app; unfold customers;
      rewrite ?filter_cons_False by (by intros Hn); simpl;
      rewrite ?filter_app, ?filter_cons_False by (by intros Hn);
      by rewrite ?filter_nil, ?app_nil_r.
Qed.

Lemma customers_expanded_path (route : list Z) :
  customers (expanded_path (split_into_trips route cap demand)) = customers route.
Proof.
  unfold expanded_path. rewrite customers_expanded_step.
  by rewrite split_into_trips_concat.
Qed.

Lemma validate_result_true (st : OSRMClient) route exp rw :
  validate_result net st route cap demand due = (true, exp, rw) →
  exp = expanded_path (split_into_trips route cap demand) ∧ rw = customers route.
Proof.
  unfold validate_result. destruct (existsb _ _); [done|].
  destruct (fgt _ _); [done|]. intros [= <- <-].
  by rewrite customers_expanded_path.
Qed.

Lemma kept_customers (st : OSRMClient) r exp :
  depot_free r → kept net st cap demand due r = Some exp → customers exp = r.
Proof.
  intros Hr. unfold kept.
  destruct (validate_result net st r cap demand due) as [[[] e] rw] eqn:Hv; [|done].
  intros [= <-]. apply validate_result_true in Hv as [-> _].
  rewrite customers_expanded_path. by apply customers_depot_free.
Qed.

(** **** One pass *)

Lemma route_known_app (st : OSRMClient (F:=F)) (r1 r2 : list Z) :
  route_known st r1 → route_known st r2 → route_known st (r1 ++ r2).
Proof.
  intros H1 H2 n Hn. apply elem_of_cons in Hn as [->|Hn]; [apply H1; left|].
  apply elem_of_app in Hn as [Hn|Hn]; [apply H1|apply H2]; by right.
Qed.

Lemma merge_pass_denotes (st0 : OSRMClient) (raw : list (list Z)) :
  Forall (route_known st0) raw →
  denotes net st0 (merge_pass net cap demand due raw)
                  (pass_result net st0 cap demand due raw).
Proof.
  intros Hknown. unfold merge_pass, pass_result.
  apply for_first_denotes. intros i Hi. apply elem_of_py_range in Hi.
  apply for_first_denotes. intros j Hj. apply elem_of_py_range in Hj.
  destruct (lookup_lt_is_Some_2 raw i) as [ri Hri]; [lia|].
  destruct (lookup_lt_is_Some_2 raw j) as [rj Hrj]; [lia|].
  unfold item, merge_of. rewrite Hri, Hrj.
  eapply denotes_bind; [apply denotes_ret|].
  eapply denotes_bind; [apply denotes_ret|].
  eapply denotes_bind.
  { apply validate_multitrip_denotes, route_known_app.
    - eapply Forall_lookup_1; [exact Hknown|exact Hri].
    - eapply Forall_lookup_1; [exact Hknown|exact Hrj]. }
  destruct (validate_result net st0 (ri ++ rj) cap demand due) as [[[] e] rw];
    apply denotes_ret.
Qed.

Lemma pass_result_Some (st0 : OSRMClient) (raw raw' : list (list Z)) :
  Forall (good_route st0) raw →
  pass_result net st0 cap demand due raw = Some raw' →
  Forall (good_route st0) raw' ∧ S (length raw') = length raw.
Proof.
  intros Hgood Hp. unfold pass_result in Hp.
  apply first_some_Some in Hp as (i & Hi & Hp). apply elem_of_py_range in Hi.
  apply first_some_Some in Hp as (j & Hj & Hp). apply elem_of_py_range in Hj.
  unfold merge_of in Hp.
  destruct (raw !! i) as [ri|] eqn:Hri; [|done].
  destruct (raw !! j) as [rj|] eqn:Hrj; [|done].
  destruct (validate_result net st0 (ri ++ rj) cap demand due) as [[[] e] rw] eqn:Hv;
    [|done].
  injection Hp as <-. apply validate_result_true in Hv as [_ ->].
  destruct (Forall_lookup_1 _ _ _ _ Hgood Hri) as (Hk1 & Hd1 & Hn1).
  destruct (Forall_lookup_1 _ _ _ _ Hgood Hrj) as (Hk2 & Hd2 & Hn2).
  assert (Hd : depot_free (ri ++ rj)).
  { unfold depot_free. rewrite elem_of_app. intros [?|?]; [by apply Hd1|by apply Hd2]. }
  rewrite (customers_depot_free _ Hd).
  split.
  - apply Forall_app. split; [by apply Forall_delete, Forall_delete|].
    apply Forall_singleton. split; [by apply route_known_app|]. split; [done|].
    by destruct ri.
  - rewrite length_app. simpl.
    rewrite length_delete.
    2:{ apply lookup_lt_is_Some. rewrite length_delete by (by eexists).
        apply lookup_lt_Some in Hrj. lia. }
    rewrite length_delete by (by eexists).
    apply lookup_lt_Some in Hrj. lia.
Qed.

Lemma pass_result_None (st0 : OSRMClient) (raw : list (list Z)) :
  pass_result net st0 cap demand due raw = None
  ↔ ∀ i j ri rj, (i < j)%nat → raw !! i = Some ri → raw !! j = Some rj →
      feasible net st0 cap demand due (ri ++ rj) = false.
Proof.
  unfold pass_result. rewrite first_some_None. split.
  - intros Hall i j ri rj Hij Hri Hrj.
    pose proof (lookup_lt_Some _ _ _ Hrj) as Hj.
    assert (Hi : i ∈ py_range 0 (length raw)) by (apply elem_of_py_range; lia).
    specialize (Hall i Hi). rewrite first_some_None in Hall.
    assert (Hj' : j ∈ py_range (i + 1) (length raw)) by (apply elem_of_py_range; lia).
    specialize (Hall j Hj'). unfold merge_of in Hall. rewrite Hri, Hrj in Hall.
    unfold feasible.
    by destruct (validate_result net st0 (ri ++ rj) cap demand due) as [[[] e] rw].
  - intros Hall i Hi. apply first_some_None. intros j Hj.
    apply elem_of_py_range in Hi, Hj. unfold merge_of.
    destruct (raw !! i) as [ri|] eqn:Hri; [|done].
    destruct (raw !! j) as [rj|] eqn:Hrj; [|done].
    assert (Hf := Hall i j ri rj ltac:(lia) Hri Hrj). unfold feasible in Hf.
    destruct (validate_result net st0 (ri ++ rj) cap demand due) as [[[] e] rw];
      simpl in Hf; done.
Qed.

(** **** The loop *)

(** With more fuel than routes the loop ends at a list on which a pass
    merges nothing. *)
Lemma merge_loop_denotes (st0 : OSRMClient) (fuel : nat) : ∀ raw,
  (length raw < fuel)%nat →
  Forall (good_route st0) raw →
  ∃ raw_f, denotes net st0 (merge_loop net fuel cap demand due raw) raw_f
           ∧ Forall (good_route st0) raw_f
           ∧ pass_result net st0 cap demand due raw_f = None.
Proof.
  induction fuel as [|fuel IH]; intros raw Hlen Hgood; [lia|].
  assert (Hknown : Forall (route_known st0) raw).
  { eapply Forall_impl; [exact Hgood|]. by intros r [? _]. }
  pose proof (merge_pass_denotes st0 raw Hknown) as Hpass.
  destruct (pass_result net st0 cap demand due raw) as [raw'|] eqn:Hp.
  - destruct (pass_result_Some st0 raw raw' Hgood Hp) as [Hgood' Hlen'].
    destruct (IH raw') as (raw_f & Hden & Hgf & Hpf); [lia|done|].
    exists raw_f. split; [|done].
    simpl. eapply denotes_bind; [exact Hpass|exact Hden].
  - exists raw. split; [|done].
    simpl. eapply denotes_bind; [exact Hpass|apply denotes_ret].
Qed.

Lemma keep_feasible_denotes (st0 : OSRMClient) (raw : list (list Z)) : ∀ final,
  Forall (route_known st0) raw →
  denotes net st0 (keep_feasible net cap demand due raw final)
                  (final ++ omap (kept net st0 cap demand due) raw).
Proof.
  induction raw as [|r raw IH]; intros final Hknown; cbn [keep_feasible].
  - simpl. rewrite app_nil_r. apply denotes_ret.
  - apply Forall_cons in Hknown as [Hr Hknown].
    eapply denotes_bind; [by apply validate_multitrip_denotes|].
    destruct (validate_result net st0 r cap demand due) as [[[] e] rw] eqn:Hv.
    + assert (Ho : omap (kept net st0 cap demand due) (r :: raw)
                   = e :: omap (kept net st0 cap demand due) raw).
      { simpl. unfold kept at 1. by rewrite Hv. }
      rewrite Ho.
      replace (final ++ e :: omap (kept net st0 cap demand due) raw)
        with ((final ++ [e]) ++ omap (kept net st0 cap demand due) raw)
        by (by rewrite <- app_assoc).
      by apply IH.
    + assert (Ho : omap (kept net st0 cap demand due) (r :: raw)
                   = omap (kept net st0 cap demand due) raw).
      { simpl. unfold kept at 1. by rewrite Hv. }
      rewrite Ho. by apply IH.
Qed.

(** **** Running the merge on the customers of its own output *)

Lemma kept_sublist (st0 : OSRMClient) (raw : list (list Z)) :
  Forall (good_route st0) raw →
  let raw2 := customers <$> omap (kept net st0 cap demand due) raw in
  raw2 `sublist_of` raw
  ∧ omap (kept net st0 cap demand due) raw2 = omap (kept net st0 cap demand due) raw.
Proof.
  induction raw as [|r raw IH]; intros Hgood; simpl; [by split; constructor|].
  apply Forall_cons in Hgood as [(Hk & Hd & Hn) Hgood].
  destruct (IH Hgood) as [Hsub Heq].
  destruct (kept net st0 cap demand due r) as [e|] eqn:Hr; simpl.
  - rewrite (kept_customers st0 r e Hd Hr). split; [by constructor|].
    simpl. rewrite Hr. by f_equal.
  - split; [by constructor|done].
Qed.

Lemma sublist_ordered_pair {A} (l1 l2 : list A) (i j : nat) (a b : A) :
  l1 `sublist_of` l2 → (i < j)%nat → l1 !! i = Some a → l1 !! j = Some b →
  ∃ i' j', (i' < j')%nat ∧ l2 !! i' = Some a ∧ l2 !! j' = Some b.
Proof.
  intros Hsub. revert i j. induction Hsub as [|x l1 l2 Hsub IH|x l1 l2 Hsub IH];
    intros i j Hij Hi Hj.
  - done.
  - destruct j as [|j]; [lia|]. simpl in Hj. destruct i as [|i].
    + injection Hi as ->.
      assert (Hb : b ∈ l2).
      { eapply elem_of_sublist; [|exact Hsub]. apply list_elem_of_lookup. by exists j. }
      apply list_elem_of_lookup in Hb as [j' Hj'].
      exists 0%nat, (S j'). split; [lia|]. by split.
    + simpl in Hi. destruct (IH i j) as (i' & j' & Hlt & Hi' & Hj'); [lia|done|done|].
      exists (S i'), (S j'). split; [lia|]. by split.
  - destruct (IH i j Hij Hi Hj) as (i' & j' & Hlt & Hi' & Hj').
    exists (S i'), (S j'). split; [lia|]. by split.
Qed.

Lemma filter_nonempty_good (st0 : OSRMClient (F:=F)) (raw : list (list Z)) :
  Forall (good_route st0) raw → filter (λ r, r ≠ []) raw = raw.
Proof.
  induction 1 as [|r raw (_ & _ & Hn) _ IH]; [done|].
  rewrite filter_cons_True by done. by f_equal.
Qed.

(** C8 (amended). On routes of customers (no depot marker) whose nodes the
    provider knows, the merge returns; and run again, with the same
    provider, on the customer sequences of its own output (every output
    path with its depot markers removed), it merges no pair and returns
    the same paths. *)
Theorem merge_idempotent_on_customers (st : OSRMClient) (routes : list (list Z)) :
  (∀ r, r ∈ routes → route_known st r ∧ depot_free r) →
  ∃ out st1 st2 st3,
    combine_and_validate_multitrip net routes cap demand due st = Ok (out, st1)
    ∧ merge_pass net cap demand due (customers <$> out) st1 = Ok (None, st2)
    ∧ combine_and_validate_multitrip net (customers <$> out) cap demand due st1
      = Ok (out, st3).
Proof.
  intros Hroutes.
  set (raw0 := filter (λ r, r ≠ []) routes).
  assert (Hgood0 : Forall (good_route st) raw0).
  { apply Forall_forall. intros r Hr. apply list_elem_of_filter in Hr as [Hn Hr].
    destruct (Hroutes r Hr). by repeat split. }
  destruct (merge_loop_denotes st (S (length raw0)) raw0) as (raw_f & Hloop & Hgf & Hpf);
    [lia|done|].
  assert (Hkf : Forall (route_known st) raw_f).
  { eapply Forall_impl; [exact Hgf|]. by intros r [? _]. }
  set (out := omap (kept net st cap demand due) raw_f).
  (* first run *)
  destruct (Hloop st (view_eq_refl net st)) as (sta & Hva & Hrun_a).
  destruct (keep_feasible_denotes st raw_f [] Hkf sta Hva) as (st1 & Hv1 & Hrun_1).
  simpl in Hrun_1. fold out in Hrun_1.
  assert (Hfirst : combine_and_validate_multitrip net routes cap demand due st
                   = Ok (out, st1)).
  { unfold combine_and_validate_multitrip. fold raw0.
    unfold mbind, M_bind. by rewrite Hrun_a. }
  (* the customers of the output *)
  destruct (kept_sublist st raw_f Hgf) as [Hsub Hkept]. fold out in Hsub, Hkept.
  set (raw2 := customers <$> out) in *.
  assert (Hg2 : Forall (good_route st) raw2).
  { apply Forall_forall. intros r Hr.
    eapply Forall_forall; [exact Hgf|]. by eapply elem_of_sublist. }
  assert (Hk2 : Forall (route_known st) raw2).
  { eapply Forall_impl; [exact Hg2|]. by intros r [? _]. }
  assert (Hp2 : pass_result net st cap demand due raw2 = None).
  { apply pass_result_None. intros i j ri rj Hij Hri Hrj.
    destruct (sublist_ordered_pair raw2 raw_f i j ri rj Hsub Hij Hri Hrj)
      as (i' & j' & Hlt & Hi' & Hj').
    rewrite pass_result_None in Hpf. by eapply Hpf. }
  (* second run *)
  destruct (merge_pass_denotes st raw2 Hk2 st1 Hv1) as (st2 & Hv2 & Hrun_2).
  rewrite Hp2 in Hrun_2.
  destruct (keep_feasible_denotes st raw2 [] Hk2 st2 Hv2) as (st3 & Hv3 & Hrun_3).
  simpl in Hrun_3. rewrite Hkept in Hrun_3.
  exists out, st1, st2, st3. fold raw2. split; [done|]. split; [done|].
  unfold combine_and_validate_multitrip.
  rewrite (filter_nonempty_good st raw2 Hg2).
  cbn [merge_loop]. unfold mbind, M_bind. by rewrite Hrun_2.
Qed.

End MergeFacts.

(** ** The fallback estimate of two nodes at one address *)

Section RealHaversine.
Import RealFloat.
Open Scope R_scope.

Lemma of_Z_real (z : Z) : of_Z (F:=R) z = IZR z.
Proof. unfold of_Z. simpl. unfold Q2R. simpl. rewrite Rinv_1. ring. Qed.

(** Over the reals, the distance between a point and itself is zero,
    and no function of [math] is outside its domain there. *)
Lemma haversine_m_checked_same (lat lon : R) :
  haversine_m_checked lat lon lat lon = Some 0.
Proof.
  unfold haversine_m_checked, radians. cbv zeta. rewrite !of_Z_real. simpl.
  replace ((lat - lat) * (PI / 180) / 2) with 0 by lra.
  replace ((lon - lon) * (PI / 180) / 2) with 0 by lra.
  rewrite sin_0.
  replace (0 * 0 + cos (lat * (PI / 180)) * cos (lat * (PI / 180)) * (0 * 0))
    with 0 by ring.
  destruct (Rle_dec 0 0) as [_|Hn]; [|exfalso; lra]. simpl. rewrite sqrt_0.
  destruct (Rle_dec (-1) 0) as [_|Hn]; [|exfalso; lra].
  destruct (Rle_dec 0 1) as [_|Hn]; [|exfalso; lra]. simpl.
  rewrite asin_0. f_equal. ring.
Qed.

(** Two patients at one address, map service down: the estimate is
    zero metres and zero seconds. *)
Lemma get_edge_fallback_zero :
  ∃ st',
    get_edge_checked net_unreachable 1 2 (provider_of (new_client same_address))
    = Ok ((Num 0, Num (0 / Q2R FALLBACK_SPEED_MPS)), st')
    ∧ (1, 2)%Z ∈ pv_fallback st'
    ∧ 0 / Q2R FALLBACK_SPEED_MPS = 0
    ∧ ¬ (0 < 0).
Proof.
  pose proof (get_edge_checked_fallback net_unreachable
                (provider_of (new_client same_address)) 1 2
                (2471 / 100) (4667 / 100) (2471 / 100) (4667 / 100) 0
                eq_refl eq_refl eq_refl eq_refl
                (haversine_m_checked_same _ _)) as Hget.
  eexists. split; [exact Hget|].
  split; [simpl; set_solver|]. split; [unfold Rdiv; ring|lra].
Qed.

End RealHaversine.

(** ** The code on small instances *)

Section Instances.
Import RatFloat Demo.

Local Ltac known :=
  let n := fresh "n" in let Hn := fresh "Hn" in
  intros n Hn;
  repeat (apply elem_of_cons in Hn as [->|Hn]; [by eexists|]);
  by apply elem_of_nil in Hn.

Lemma demo_known_1 : route_known demo_client [1].
Proof. known. Defined.

Lemma demo_known_2 : route_known demo_client [2].
Proof. known. Defined.

(** A customer whose own demand exceeds the capacity travels alone, over
    capacity. *)
Lemma split_into_trips_over_capacity :
  split_into_trips [1] 15 {[1 := 20]} = [([1], 20)] ∧ ¬ (20 ≤ 15).
Proof. split; [reflexivity|lia]. Qed.

Lemma split_into_trips_capacity_witness :
  1 = trip_load demo_demand [2]
  ∧ (1 ≤ 1 ∨ ∃ c, [2] = [c])
  ∧ ((∀ c, c ∈ [1; 2] → dict_get demo_demand c 0 ≤ 1) → trip_load demo_demand [2] ≤ 1).
Proof.
  apply (split_into_trips_capacity 1 demo_demand [1; 2] [2] 1).
  vm_compute. right. left.
Defined.

(** Live edge of 5 minutes, due after 3: rejected.  The same customer
    with the map service down: the late arrival is over a fallback edge
    and the route is accepted. *)
Lemma validate_multitrip_deadline_witness :
  (∃ st', validate_multitrip (net_live 1000 300) [1] 15 demo_demand (demo_due 3 20)
            demo_client = Ok ((false, [], []), st'))
  ∧ (∃ st', validate_multitrip net_down [1] 15 demo_demand (demo_due 3 20)
              demo_client = Ok ((true, [0; 1; 0], [1]), st')).
Proof.
  split.
  - apply (proj1 (validate_multitrip_deadline (net_live 1000 300) demo_client [1] 15
                    demo_demand (demo_due 3 20) demo_known_1) [1] 1 (0, 1, 300%Q)).
    + vm_compute. left.
    + vm_compute. left.
    + reflexivity.
    + reflexivity.
  - destruct (proj2 (validate_multitrip_deadline net_down demo_client [1] 15
                       demo_demand (demo_due 3 20) demo_known_1)) as [st' Hst'].
    + intros trip load a Hin Ha _.
      vm_compute in Hin. apply list_elem_of_singleton in Hin. injection Hin as -> ->.
      vm_compute in Ha.
      repeat (apply elem_of_cons in Ha as [->|Ha]; [reflexivity|]).
      by apply elem_of_nil in Ha.
    + exists st'. rewrite Hst'. reflexivity.
Defined.

(** Two legs of 20000 s: the shift limit is passed with no deadline at
    stake. *)
Lemma validate_multitrip_shift_witness :
  ∃ st', validate_multitrip (net_live 1000 20000) [1] 15 demo_demand
           (demo_due 9999 9999) demo_client = Ok ((false, [], []), st').
Proof.
  apply (proj1 (validate_multitrip_shift (net_live 1000 20000) demo_client [1] 15
                  demo_demand (demo_due 9999 9999) demo_known_1)).
  reflexivity.
Defined.

(** Legs of 25 minutes, both customers due after 30.  Split into two
    trips (capacity 1) the route is accepted: the second customer is
    reached 25 minutes after the second departure.  As one trip
    (capacity 2) it is rejected: the second customer is reached after 50
    minutes. *)
Example trip_clock_restarts :
  value_of (validate_multitrip (net_live 1000 1500) [1; 2] 1 demo_demand
              (demo_due 30 30) demo_client)
  = Some (true, [0; 1; 0; 2; 0], [1; 2])
  ∧ value_of (validate_multitrip (net_live 1000 1500) [1; 2] 2 demo_demand
                (demo_due 30 30) demo_client)
    = Some (false, [], []).
Proof. split; vm_compute; reflexivity. Qed.

(** The output paths carry depot markers; fed back, each is wrapped in
    depots again. *)
Lemma merge_twice_differs :
  value_of
    ((out ← combine_and_validate_multitrip (net_live 1000 300) [[1]] 15
              demo_demand (demo_due 9999 9999);
      out2 ← combine_and_validate_multitrip (net_live 1000 300) out 15
               demo_demand (demo_due 9999 9999);
      mret (out, out2)) demo_client)
  = Some ([[0; 1; 0]], [[0; 0; 1; 0; 0]]).
Proof. vm_compute. reflexivity. Qed.

Lemma merge_idempotent_on_customers_witness :
  ∃ out st1 st2 st3,
    combine_and_validate_multitrip (net_live 1000 300) [[1]; [2]] 15 demo_demand
      (demo_due 9999 9999) demo_client = Ok (out, st1)
    ∧ merge_pass (net_live 1000 300) 15 demo_demand (demo_due 9999 9999)
        (customers <$> out) st1 = Ok (None, st2)
    ∧ combine_and_validate_multitrip (net_live 1000 300) (customers <$> out) 15
        demo_demand (demo_due 9999 9999) st1 = Ok (out, st3).
Proof.
  apply (merge_idempotent_on_customers (net_live 1000 300) 15 demo_demand
           (demo_due 9999 9999) demo_client [[1]; [2]]).
  intros r Hr.
  apply elem_of_cons in Hr as [->|Hr].
  { split; [exact demo_known_1|]. unfold depot_free. by intros [=]%list_elem_of_singleton. }
  apply list_elem_of_singleton in Hr as ->.
  split; [exact demo_known_2|]. unfold depot_free. by intros [=]%list_elem_of_singleton.
Defined.

End Instances.

(** ** The stability state machine *)

Section StabilityFacts.
Import Stability.

Local Ltac run_update :=
  unfold update_stability, mbind, W_bind, mret, W_ret, lookup_state,
    fetch_dashboard, store_state, _now, insert_estimated_stability_time.

Lemma Qgt_bool_true (a b : Q) : Qgt_bool a b = true ↔ (b < a)%Q.
Proof.
  unfold Qgt_bool. rewrite negb_true_iff. split.
  - intros Hb. apply Qnot_le_lt. intros Hle. apply Qle_bool_iff in Hle. congruence.
  - intros Hlt. destruct (Qle_bool a b) eqn:Hb; [|done].
    apply Qle_bool_iff in Hb. exfalso. by apply (Qlt_not_le b a).
Qed.

Lemma Qgt_bool_false (a b : Q) : Qgt_bool a b = false ↔ (a <= b)%Q.
Proof.
  unfold Qgt_bool. rewrite negb_false_iff. apply Qle_bool_iff.
Qed.

(** C10. An update for an active monitored order whose [Order] row is
    missing or has no [dashboard_id] raises HTTP 400 whatever the
    reading, before any temperature is compared, and leaves everything
    (the stability state included) as it was. *)
Theorem update_stability_no_dashboard (order_id : string) (data : TempUpdate)
    (w : world) (s : state) :
  STABILITY_STATE w !! order_id = Some s →
  active s = true →
  orders w !! order_id = None ∨ orders w !! order_id = Some None →
  update_stability order_id data w = (HTTPException 400 "Order has no dashboard", w).
Proof.
  intros Hs Ha Hd. run_update. rewrite Hs, Ha. simpl.
  by destruct Hd as [-> | ->].
Qed.

(** C2 (amended). For an active monitored order whose [Order] row has a
    dashboard, a reading above the excursion limit returns the
    [MAX_EXCURSION_EXCEEDED] alert and sets [active] to false, whether
    or not the timer was started; nothing else changes: the timer
    fields are untouched, the clock is not read and no row is written. *)
Theorem update_stability_max_excursion (order_id : string) (data : TempUpdate)
    (w : world) (s : state) (dash : string) :
  STABILITY_STATE w !! order_id = Some s →
  active s = true →
  orders w !! order_id = Some (Some dash) →
  dash ≠ "" →
  (max_exc s < temp data)%Q →
  update_stability order_id data w
  = (Return [("alert", JStr "MAX_EXCURSION_EXCEEDED")],
     (store_state order_id (set_active s false) w).2).
Proof.
  intros Hs Ha Hd Hne Hgt. run_update. rewrite Hs, Ha. simpl. rewrite Hd.
  apply String.eqb_neq in Hne. rewrite Hne.
  apply Qgt_bool_true in Hgt. by rewrite Hgt.
Qed.

(** **** Steps 2 and 3 *)

Lemma update_stability_timer_running (order_id : string) (data : TempUpdate)
    (w : world) (s : state) (dash : string) (t0 : Q) :
  STABILITY_STATE w !! order_id = Some s →
  active s = true →
  orders w !! order_id = Some (Some dash) →
  dash ≠ "" →
  (temp data <= max_exc s)%Q →
  timer_started s = true →
  timer_started_at s = Some t0 →
  let t := clock w (ticks w) in
  let w1 := (_now w).2 in
  let w2 := if Qle_bool (max_time s - (t - t0)) 0
            then (store_state order_id (set_active s false) w1).2 else w1 in
  update_stability order_id data w
  = (Return [("remaining_seconds", JInt (py_int (remaining_at s t0 t)));
             ("written_to_dashboard", JBool true)],
     (insert_estimated_stability_time dash (py_int (remaining_at s t0 t)) w2).2).
Proof.
  intros Hs Ha Hd Hne Hle Hts Ht0. run_update. rewrite Hs, Ha. simpl. rewrite Hd.
  apply String.eqb_neq in Hne. rewrite Hne.
  apply Qgt_bool_false in Hle. rewrite Hle, Hts.
  rewrite andb_false_r. simpl. rewrite Hts, Ht0. simpl.
  unfold remaining_at. by destruct (Qle_bool _ 0).
Qed.

Lemma update_stability_timer_start (order_id : string) (data : TempUpdate)
    (w : world) (s : state) (dash : string) :
  STABILITY_STATE w !! order_id = Some s →
  active s = true →
  orders w !! order_id = Some (Some dash) →
  dash ≠ "" →
  (temp data <= max_exc s)%Q →
  (FRIDGE_MAX < temp data)%Q →
  timer_started s = false →
  let t0 := clock w (ticks w) in
  let t := clock w (S (ticks w)) in
  let s1 := set_timer s t0 in
  let w1 := (_now (store_state order_id s1 (_now w).2).2).2 in
  let w2 := if Qle_bool (max_time s - (t - t0)) 0
            then (store_state order_id (set_active s1 false) w1).2 else w1 in
  update_stability order_id data w
  = (Return [("remaining_seconds", JInt (py_int (remaining_at s t0 t)));
             ("written_to_dashboard", JBool true)],
     (insert_estimated_stability_time dash (py_int (remaining_at s t0 t)) w2).2).
Proof.
  intros Hs Ha Hd Hne Hle Hgt Hts. run_update. rewrite Hs, Ha. simpl. rewrite Hd.
  apply String.eqb_neq in Hne. rewrite Hne.
  apply Qgt_bool_false in Hle. rewrite Hle, Hts.
  apply Qgt_bool_true in Hgt. rewrite Hgt. simpl.
  unfold remaining_at. simpl. by destruct (Qle_bool _ 0).
Qed.

(** C3 (amended). For an active monitored order whose [Order] row has
    a dashboard and whose timer is started, take an update with a
    reading within the excursion limit, at clock reading [t].  If the
    time elapsed since [timer_started_at] is at least the tolerated
    time (remaining at most 0), the update sets [active] to false.
    Otherwise it reports the remaining seconds, truncated to an
    integer, and the order stays as it was. *)
Theorem update_stability_timer (order_id : string) (data : TempUpdate)
    (w : world) (s : state) (dash : string) (t0 : Q) :
  STABILITY_STATE w !! order_id = Some s →
  active s = true →
  orders w !! order_id = Some (Some dash) →
  dash ≠ "" →
  (temp data <= max_exc s)%Q →
  timer_started s = true →
  timer_started_at s = Some t0 →
  let remaining := (max_time s - (clock w (ticks w) - t0))%Q in
  let '(o, w') := update_stability order_id data w in
  ((remaining <= 0)%Q →
     STABILITY_STATE w' !! order_id = Some (set_active s false))
  ∧ ((0 < remaining)%Q →
       o = Return [("remaining_seconds", JInt (py_int remaining));
                   ("written_to_dashboard", JBool true)]
       ∧ STABILITY_STATE w' !! order_id = Some s).
Proof.
  intros Hs Ha Hd Hne Hle Hts Ht0 remaining.
  rewrite (update_stability_timer_running order_id data w s dash t0) by done.
  fold remaining. unfold remaining_at. fold remaining. split.
  - intros Hrem. apply Qle_bool_iff in Hrem. rewrite Hrem. simpl.
    apply lookup_insert_eq.
  - intros Hrem. destruct (Qle_bool remaining 0) eqn:Hb.
    + apply Qle_bool_iff in Hb. exfalso. by apply (Qlt_not_le 0 remaining).
    + by split.
Qed.

(** C9 (amended). For an active monitored order whose [Order] row has
    a dashboard and whose timer is not started, an update with a
    reading above [FRIDGE_MAX] and within the excursion limit sets
    [timer_started] to true and [timer_started_at] to the current
    clock reading. *)
Theorem update_stability_starts_timer (order_id : string) (data : TempUpdate)
    (w : world) (s : state) (dash : string) :
  STABILITY_STATE w !! order_id = Some s →
  active s = true →
  orders w !! order_id = Some (Some dash) →
  dash ≠ "" →
  timer_started s = false →
  (FRIDGE_MAX < temp data)%Q →
  (temp data <= max_exc s)%Q →
  ∃ s', STABILITY_STATE (update_stability order_id data w).2 !! order_id = Some s'
        ∧ timer_started s' = true
        ∧ timer_started_at s' = Some (clock w (ticks w)).
Proof.
  intros Hs Ha Hd Hne Hts Hgt Hle.
  rewrite (update_stability_timer_start order_id data w s dash) by done.
  destruct (Qle_bool _ 0); simpl; eexists; (split; [apply lookup_insert_eq|done]).
Qed.

(** **** The timer is never reset *)

Lemma update_stability_keeps_timer (order_id' : string) (data : TempUpdate)
    (w : world) (order_id : string) (s : state) :
  STABILITY_STATE w !! order_id = Some s →
  timer_started s = true →
  ∃ s', STABILITY_STATE (update_stability order_id' data w).2 !! order_id = Some s'
        ∧ timer_started s' = true
        ∧ timer_started_at s' = timer_started_at s.
Proof.
  intros Hs Hts.
  assert (Hkeep : ∃ s', STABILITY_STATE w !! order_id = Some s'
                        ∧ timer_started s' = true
                        ∧ timer_started_at s' = timer_started_at s) by eauto.
  run_update.
  destruct (STABILITY_STATE w !! order_id') as [s0|] eqn:Hs0; simpl; [|done].
  destruct (active s0); simpl; [|done].
  destruct (orders w !! order_id') as [[dash|]|]; simpl; [|done|done].
  destruct (String.eqb dash ""); simpl; [done|].
  destruct (decide (order_id' = order_id)) as [->|Hne].
  - rewrite Hs in Hs0. injection Hs0 as <-. rewrite Hts.
    destruct (Qgt_bool (temp data) (max_exc s)); simpl.
    { rewrite lookup_insert_eq. by eexists. }
    rewrite andb_false_r. simpl. rewrite Hts.
    destruct (timer_started_at s) as [t0|] eqn:Ht0; simpl; [|done].
    destruct (Qle_bool _ 0); simpl; [|by exists s].
    rewrite lookup_insert_eq. by eexists.
  - destruct (Qgt_bool (temp data) (max_exc s0)); simpl.
    { by rewrite lookup_insert_ne. }
    destruct (Qgt_bool (temp data) FRIDGE_MAX && negb (timer_started s0)); simpl.
    + destruct (Qle_bool _ 0); simpl; by rewrite ?lookup_insert_ne.
    + destruct (timer_started s0); simpl; [|done].
      destruct (timer_started_at s0); simpl; [|done].
      destruct (Qle_bool _ 0); simpl; by rewrite ?lookup_insert_ne.
Qed.

Lemma updates_keep_timer (us : list (string * TempUpdate)) : ∀ (w : world)
    (order_id : string) (s : state),
  STABILITY_STATE w !! order_id = Some s →
  timer_started s = true →
  ∃ s', STABILITY_STATE (updates us w) !! order_id = Some s'
        ∧ timer_started s' = true
        ∧ timer_started_at s' = timer_started_at s.
Proof.
  induction us as [|[order_id' data] us IH]; intros w order_id s Hs Hts; simpl.
  - by exists s.
  - destruct (update_stability_keeps_timer order_id' data w order_id s Hs Hts)
      as (s1 & Hs1 & Hts1 & Hat1).
    destruct (IH _ order_id s1 Hs1 Hts1) as (s' & Hs' & Hts' & Hat').
    exists s'. split; [done|]. split; [done|]. congruence.
Qed.

(** **** What the updates for other orders leave alone *)

Lemma update_stability_env (order_id : string) (data : TempUpdate) (w : world) :
  let w' := (update_stability order_id data w).2 in
  clock w' = clock w ∧ orders w' = orders w ∧ (ticks w ≤ ticks w')%nat.
Proof.
  run_update.
  destruct (STABILITY_STATE w !! order_id) as [s0|]; simpl; [|done].
  destruct (active s0); simpl; [|done].
  destruct (orders w !! order_id) as [[dash|]|]; simpl; [|done|done].
  destruct (String.eqb dash ""); simpl; [done|].
  destruct (Qgt_bool (temp data) (max_exc s0)); simpl; [done|].
  destruct (Qgt_bool (temp data) FRIDGE_MAX && negb (timer_started s0)); simpl.
  - destruct (Qle_bool _ 0); simpl; repeat split; lia.
  - destruct (timer_started s0); simpl; [|done].
    destruct (timer_started_at s0); simpl; [|done].
    destruct (Qle_bool _ 0); simpl; repeat split; lia.
Qed.

Lemma update_stability_other (order_id' : string) (data : TempUpdate) (w : world)
    (order_id : string) :
  order_id' ≠ order_id →
  STABILITY_STATE (update_stability order_id' data w).2 !! order_id
  = STABILITY_STATE w !! order_id.
Proof.
  intros Hne. run_update.
  destruct (STABILITY_STATE w !! order_id') as [s0|]; simpl; [|done].
  destruct (active s0); simpl; [|done].
  destruct (orders w !! order_id') as [[dash|]|]; simpl; [|done|done].
  destruct (String.eqb dash ""); simpl; [done|].
  destruct (Qgt_bool (temp data) (max_exc s0)); simpl; [by rewrite lookup_insert_ne|].
  destruct (Qgt_bool (temp data) FRIDGE_MAX && negb (timer_started s0)); simpl.
  - destruct (Qle_bool _ 0); simpl; by rewrite ?lookup_insert_ne.
  - destruct (timer_started s0); simpl; [|done].
    destruct (timer_started_at s0); simpl; [|done].
    destruct (Qle_bool _ 0); simpl; by rewrite ?lookup_insert_ne.
Qed.

Lemma updates_other (us : list (string * TempUpdate)) (order_id : string) : ∀ w,
  Forall (λ u, u.1 ≠ order_id) us →
  STABILITY_STATE (updates us w) !! order_id = STABILITY_STATE w !! order_id
  ∧ clock (updates us w) = clock w
  ∧ orders (updates us w) = orders w
  ∧ (ticks w ≤ ticks (updates us w))%nat.
Proof.
  induction us as [|[order_id' data] us IH]; intros w Hus; simpl; [done|].
  apply Forall_cons in Hus as [Hne Hus]. simpl in Hne.
  destruct (IH (update_stability order_id' data w).2 Hus) as (Hst & Hclk & Hord & Htk).
  destruct (update_stability_env order_id' data w) as (Hclk1 & Hord1 & Htk1).
  rewrite Hst, Hclk, Hord, (update_stability_other order_id' data w order_id Hne).
  repeat split; [done|done|lia].
Qed.

(** **** Reading a reported remaining time back *)

Lemma update_stability_reports (order_id : string) (data : TempUpdate) (w : world)
    (s : state) (n : Z) :
  STABILITY_STATE w !! order_id = Some s →
  timer_started s = true →
  field "remaining_seconds" (update_stability order_id data w).1 = Some (JInt n) →
  ∃ t0, timer_started_at s = Some t0
    ∧ active s = true
    ∧ n = py_int (remaining_at s t0 (clock w (ticks w)))
    ∧ ticks (update_stability order_id data w).2 = S (ticks w)
    ∧ STABILITY_STATE (update_stability order_id data w).2 !! order_id
      = Some (if Qle_bool (max_time s - (clock w (ticks w) - t0)) 0
              then set_active s false else s).
Proof.
  intros Hs Hts. run_update. rewrite Hs. simpl.
  destruct (active s) eqn:Ha; simpl; [|done].
  destruct (orders w !! order_id) as [[dash|]|]; simpl; [|done|done].
  destruct (String.eqb dash ""); simpl; [done|].
  destruct (Qgt_bool (temp data) (max_exc s)); simpl; [done|].
  rewrite Hts, andb_false_r. simpl. rewrite Hts.
  destruct (timer_started_at s) as [t0|]; simpl; [|done].
  unfold remaining_at.
  destruct (Qle_bool _ 0) eqn:Hb; simpl; intros [= <-]; exists t0; rewrite ?Hb.
  - by rewrite lookup_insert_eq.
  - by rewrite Hs.
Qed.

(** **** Truncation and the countdown *)

Lemma py_int_floor (q : Q) : (0 <= q)%Q → py_int q = Qfloor q.
Proof.
  destruct q as [n d]. unfold py_int, Qfloor, Qle. simpl. intros Hn.
  apply Z.quot_div_nonneg; lia.
Qed.

Lemma remaining_at_nonneg (s : state) (t0 t : Q) : (0 <= remaining_at s t0 t)%Q.
Proof.
  unfold remaining_at. cbv zeta. destruct (Qle_bool _ 0) eqn:Hb; [lra|].
  apply Qlt_le_weak, Qnot_le_lt. intros Hle. apply Qle_bool_iff in Hle. congruence.
Qed.

Lemma remaining_at_cases (s : state) (t0 t : Q) :
  ((max_time s - (t - t0) <= 0)%Q ∧ remaining_at s t0 t = 0%Q)
  ∨ ((0 < max_time s - (t - t0))%Q ∧ remaining_at s t0 t = (max_time s - (t - t0))%Q).
Proof.
  unfold remaining_at. cbv zeta. destruct (Qle_bool _ 0) eqn:Hb.
  - left. split; [by apply Qle_bool_iff|done].
  - right. split; [|done]. apply Qnot_le_lt. intros Hle.
    apply Qle_bool_iff in Hle. congruence.
Qed.

Lemma remaining_at_anti (s : state) (t0 t t' : Q) :
  (t <= t')%Q →
  py_int (remaining_at s t0 t') ≤ py_int (remaining_at s t0 t).
Proof.
  intros Htt.
  rewrite !py_int_floor by apply remaining_at_nonneg.
  apply Qfloor_resp_le.
  destruct (remaining_at_cases s t0 t) as [[H1 ->]|[H1 ->]],
           (remaining_at_cases s t0 t') as [[H2 ->]|[H2 ->]]; lra.
Qed.

(** An update that reports [remaining_seconds] leaves the timer of the
    order started, at the time it had or at the first clock reading of
    this update, and reports the time remaining at its last reading. *)
Lemma update_stability_reports_any (order_id : string) (data : TempUpdate) (w : world)
    (s : state) (n : Z) :
  STABILITY_STATE w !! order_id = Some s →
  field "remaining_seconds" (update_stability order_id data w).1 = Some (JInt n) →
  ∃ t0 i s0,
    STABILITY_STATE (update_stability order_id data w).2 !! order_id = Some s0
    ∧ timer_started s0 = true
    ∧ timer_started_at s0 = Some t0
    ∧ max_time s0 = max_time s
    ∧ (timer_started s = true → timer_started_at s = Some t0)
    ∧ n = py_int (remaining_at s t0 (clock w i))
    ∧ (i < ticks (update_stability order_id data w).2)%nat.
Proof.
  intros Hs Hr. destruct (timer_started s) eqn:Hts.
  - destruct (update_stability_reports order_id data w s n Hs Hts Hr)
      as (t0 & Ht0 & _ & Hn & Hticks & Hst).
    exists t0, (ticks w),
      (if Qle_bool (max_time s - (clock w (ticks w) - t0)) 0
       then set_active s false else s).
    split; [done|]. rewrite Hticks.
    repeat split; try done; try lia; by destruct (Qle_bool _ 0).
  - revert Hr. run_update. rewrite Hs. simpl.
    destruct (active s) eqn:Ha; simpl; [|done].
    destruct (orders w !! order_id) as [[dash|]|]; simpl; [|done|done].
    destruct (String.eqb dash ""); simpl; [done|].
    destruct (Qgt_bool (temp data) (max_exc s)); simpl; [done|].
    rewrite Hts. simpl.
    destruct (Qgt_bool (temp data) FRIDGE_MAX); simpl; [|by rewrite Hts].
    unfold remaining_at.
    destruct (Qle_bool _ 0) eqn:Hb; simpl; intros [= <-];
      exists (clock w (ticks w)), (S (ticks w)); eexists;
      (split; [by rewrite ?insert_insert_eq, lookup_insert_eq|]);
      rewrite ?Hb; repeat split; try done; lia.
Qed.

(** C4 (amended). Once the timer of an order is started, no later
    telemetry update, for this or another order and whatever its
    reading, sets [timer_started] back to false or overwrites
    [timer_started_at]: this holds from a state where the timer is
    started, and from the update that starts it, which is the first to
    report [remaining_seconds].  Consequently, with a clock that does
    not run backwards, of two successive updates for the order that
    both report [remaining_seconds] the second never reports more than
    the first. *)
Theorem timer_never_resets (w : world) (order_id : string) (s : state)
    (us others : list (string * TempUpdate)) (d1 d2 : TempUpdate) :
  STABILITY_STATE w !! order_id = Some s →
  (timer_started s = true →
   ∃ s', STABILITY_STATE (updates us w) !! order_id = Some s'
         ∧ timer_started s' = true
         ∧ timer_started_at s' = timer_started_at s)
  ∧ ∀ n1,
      field "remaining_seconds" (update_stability order_id d1 w).1 = Some (JInt n1) →
      let w0 := (update_stability order_id d1 w).2 in
      (∃ s0 t0,
          STABILITY_STATE w0 !! order_id = Some s0
          ∧ timer_started s0 = true
          ∧ timer_started_at s0 = Some t0
          ∧ (timer_started s = true → timer_started_at s = Some t0)
          ∧ ∃ s', STABILITY_STATE (updates us w0) !! order_id = Some s'
                  ∧ timer_started s' = true
                  ∧ timer_started_at s' = Some t0)
      ∧ (monotone (clock w) →
         Forall (λ u, u.1 ≠ order_id) others →
         ∀ n2,
           field "remaining_seconds"
                 (update_stability order_id d2 (updates others w0)).1 = Some (JInt n2) →
           n2 ≤ n1).
Proof.
  intros Hs. split; [by apply updates_keep_timer|].
  intros n1 Hr1 w0.
  destruct (update_stability_reports_any order_id d1 w s n1 Hs Hr1)
    as (t0 & i & s0 & Hs0 & Hts0 & Hat0 & Hmt0 & Hold & -> & Hi).
  fold w0 in Hs0, Hi. split.
  - exists s0, t0. repeat split; try done.
    destruct (updates_keep_timer us w0 order_id s0 Hs0 Hts0) as (s' & Hs' & Hts' & Hat').
    exists s'. repeat split; try done. congruence.
  - intros Hmono Hothers n2 Hr2.
    destruct (updates_other others order_id w0 Hothers) as (Hst & Hclk & _ & Htk).
    destruct (update_stability_env order_id d1 w) as (Hclk1 & _ & _).
    fold w0 in Hclk1. rewrite Hs0 in Hst. rewrite Hclk1 in Hclk.
    destruct (update_stability_reports order_id d2 (updates others w0) s0 n2
                Hst Hts0 Hr2) as (t0' & Ht0' & _ & -> & _ & _).
    rewrite Hat0 in Ht0'. injection Ht0' as <-. rewrite Hclk.
    assert (Hsame : ∀ t, remaining_at s0 t0 t = remaining_at s t0 t).
    { intros t. unfold remaining_at. by rewrite Hmt0. }
    rewrite Hsame. apply remaining_at_anti. apply Hmono. lia.
Qed.

End StabilityFacts.

(** ** The stability handlers on the documented scenario *)

Section StabilityInstances.
Import Stability.

Lemma seconds_clock_monotone : monotone seconds_clock.
Proof. intros i j Hij. unfold seconds_clock, Qle. simpl. lia. Qed.

(** The documented scenario: 6 degrees, then 9 degrees, then 9 degrees
    1900 s later. *)
Example scenario_expiry :
  (run [start_stability "o1";
        update_stability "o1" (reading 6);
        update_stability "o1" (reading 9);
        update_stability "o1" (reading 9);
        update_stability "o1" (reading 9)]
       (demo_world (clock_steps [0; 0; 1900]%Q))).1
  = [Return [("order_id", JStr "o1"); ("max_excursion_temp", JNum 15);
             ("max_time_exertion_seconds", JNum 1800); ("timer_started", JBool false)];
     Return [("status", JStr "safe"); ("written_to_dashboard", JBool true)];
     Return [("remaining_seconds", JInt 1800); ("written_to_dashboard", JBool true)];
     Return [("remaining_seconds", JInt 0); ("written_to_dashboard", JBool true)];
     Return [("status", JStr "inactive")]].
Proof. vm_compute. reflexivity. Qed.

(** Order [o2] is monitored and active but its row has no dashboard: a
    reading of 16 degrees, above the limit of 15, raises HTTP 400 and
    the order stays active. *)
Lemma excursion_without_dashboard :
  let w := (start_stability "o2" (demo_world seconds_clock)).2 in
  STABILITY_STATE w !! "o2" = Some demo_state
  ∧ (max_exc demo_state < temp (reading 16))%Q
  ∧ update_stability "o2" (reading 16) w
    = (HTTPException 400 "Order has no dashboard", w).
Proof. split; [reflexivity|]. split; [reflexivity|reflexivity]. Qed.

Lemma update_stability_no_dashboard_witness :
  update_stability "o2" (reading 16) (start_stability "o2" (demo_world seconds_clock)).2
  = (HTTPException 400 "Order has no dashboard",
     (start_stability "o2" (demo_world seconds_clock)).2).
Proof.
  apply (update_stability_no_dashboard "o2" (reading 16) _ demo_state).
  - reflexivity.
  - reflexivity.
  - right. reflexivity.
Defined.

Lemma update_stability_max_excursion_witness :
  let w := (start_stability "o1" (demo_world seconds_clock)).2 in
  update_stability "o1" (reading 16) w
  = (Return [("alert", JStr "MAX_EXCURSION_EXCEEDED")],
     (store_state "o1" (set_active demo_state false) w).2).
Proof.
  apply (update_stability_max_excursion "o1" (reading 16) _ demo_state "d1").
  - reflexivity.
  - reflexivity.
  - reflexivity.
  - discriminate.
  - reflexivity.
Defined.

(** Timer started at 0 s, update at 1900 s with tolerated time 1800 s.
    With a reading of 9 degrees the update returns
    [remaining_seconds = 0] and no alert; with a reading of 16 degrees
    it returns the excursion alert; and once the order has lost its
    dashboard it raises HTTP 400 and the order stays active. *)
Lemma expiry_without_alert :
  let w := (run [start_stability "o1"; update_stability "o1" (reading 9)]
                (demo_world (clock_steps [0; 0; 1900]%Q))).2 in
  let w_detached := set_orders w (<["o1" := None]> ∅) in
  STABILITY_STATE w !! "o1" = Some (set_timer demo_state 0)
  ∧ clock w (ticks w) = 1900%Q
  ∧ (update_stability "o1" (reading 9) w).1
    = Return [("remaining_seconds", JInt 0); ("written_to_dashboard", JBool true)]
  ∧ field "alert" (update_stability "o1" (reading 9) w).1 = None
  ∧ (update_stability "o1" (reading 16) w).1
    = Return [("alert", JStr "MAX_EXCURSION_EXCEEDED")]
  ∧ update_stability "o1" (reading 9) w_detached
    = (HTTPException 400 "Order has no dashboard", w_detached).
Proof. repeat split; vm_compute; reflexivity. Qed.

Lemma update_stability_timer_witness :
  let w := (run [start_stability "o1"; update_stability "o1" (reading 9)]
                (demo_world (clock_steps [0; 0; 1900]%Q))).2 in
  let remaining := (max_time (set_timer demo_state 0) - (clock w (ticks w) - 0))%Q in
  let '(o, w') := update_stability "o1" (reading 9) w in
  ((remaining <= 0)%Q →
     STABILITY_STATE w' !! "o1" = Some (set_active (set_timer demo_state 0) false))
  ∧ ((0 < remaining)%Q →
       o = Return [("remaining_seconds", JInt (py_int remaining));
                   ("written_to_dashboard", JBool true)]
       ∧ STABILITY_STATE w' !! "o1" = Some (set_timer demo_state 0)).
Proof.
  apply (update_stability_timer "o1" (reading 9) _ (set_timer demo_state 0) "d1" 0).
  - reflexivity.
  - reflexivity.
  - reflexivity.
  - discriminate.
  - vm_compute. discriminate.
  - reflexivity.
  - reflexivity.
Defined.

(** Readings a quarter of a second apart: two successive updates report
    the same [remaining_seconds], also one back in the safe range. *)
Lemma remaining_seconds_repeats :
  (run [start_stability "o1";
        update_stability "o1" (reading 9);
        update_stability "o1" (reading 9);
        update_stability "o1" (reading 6)]
       (demo_world quarter_clock)).1
  = [Return [("order_id", JStr "o1"); ("max_excursion_temp", JNum 15);
             ("max_time_exertion_seconds", JNum 1800); ("timer_started", JBool false)];
     Return [("remaining_seconds", JInt 1799); ("written_to_dashboard", JBool true)];
     Return [("remaining_seconds", JInt 1799); ("written_to_dashboard", JBool true)];
     Return [("remaining_seconds", JInt 1799); ("written_to_dashboard", JBool true)]].
Proof. vm_compute. reflexivity. Qed.

Lemma timer_never_resets_witness :
  let w := (start_stability "o1" (demo_world seconds_clock)).2 in
  let w0 := (update_stability "o1" (reading 9) w).2 in
  (∃ s0 t0,
      STABILITY_STATE w0 !! "o1" = Some s0
      ∧ timer_started s0 = true
      ∧ timer_started_at s0 = Some t0
      ∧ (timer_started demo_state = true → timer_started_at demo_state = Some t0)
      ∧ ∃ s', STABILITY_STATE (updates [("o1", reading 6); ("o2", reading 9)] w0) !! "o1"
              = Some s'
              ∧ timer_started s' = true
              ∧ timer_started_at s' = Some t0)
  ∧ 1798 ≤ 1799.
Proof.
  intros w w0.
  destruct (timer_never_resets w "o1" demo_state
              [("o1", reading 6); ("o2", reading 9)] [("o2", reading 9)]
              (reading 9) (reading 6)) as [_ Hreport]; [reflexivity|].
  destruct (Hreport 1799) as [Hkeep Hdecr]; [reflexivity|].
  split; [exact Hkeep|].
  apply Hdecr; [exact seconds_clock_monotone| |reflexivity].
  repeat constructor. discriminate.
Defined.

(** The update that starts the timer returns [remaining_seconds], and no
    [timer_started] key; for an order without dashboard it raises HTTP
    400 and the timer is not started. *)
Lemma timer_start_response :
  let w := (start_stability "o1" (demo_world (clock_steps [0; 0]%Q))).2 in
  let w2 := (start_stability "o2" (demo_world (clock_steps [0; 0]%Q))).2 in
  STABILITY_STATE w !! "o1" = Some demo_state
  ∧ (update_stability "o1" (reading 9) w).1
    = Return [("remaining_seconds", JInt 1800); ("written_to_dashboard", JBool true)]
  ∧ field "timer_started" (update_stability "o1" (reading 9) w).1 = None
  ∧ STABILITY_STATE w2 !! "o2" = Some demo_state
  ∧ update_stability "o2" (reading 9) w2
    = (HTTPException 400 "Order has no dashboard", w2).
Proof. repeat split; vm_compute; reflexivity. Qed.

Lemma update_stability_starts_timer_witness :
  let w := (start_stability "o1" (demo_world seconds_clock)).2 in
  ∃ s', STABILITY_STATE (update_stability "o1" (reading 9) w).2 !! "o1" = Some s'
        ∧ timer_started s' = true
        ∧ timer_started_at s' = Some (clock w (ticks w)).
Proof.
  apply (update_stability_starts_timer "o1" (reading 9) _ demo_state "d1").
  - reflexivity.
  - reflexivity.
  - reflexivity.
  - discriminate.
  - reflexivity.
  - reflexivity.
  - vm_compute. discriminate.
Defined.

End StabilityInstances.

(** * Further properties of the routing code *)

Section ProviderFacts.
Context {F : Type} `{PyFloat F}.
Variable net : F → F → F → F → http_reply F.

(** X3. When the service answers a first query with matrices whose
    first row has two numeric cells, [get_edge] returns
    [distances[0][1]] and [durations[0][1]], caches them, and does not
    touch the fallback marks. *)
Theorem get_edge_live_answer (st : OSRMClient) (u v : Z)
    (lat1 lon1 lat2 lon2 d t : F) (c0 c0' : option F)
    (cells cells' : list (option F)) (rows rows' : list (json_row F)) :
  cache st !! (u, v) = None →
  coords st !! u = Some (lat1, lon1) →
  coords st !! v = Some (lat2, lon2) →
  net lon1 lat1 lon2 lat2
  = Response true
      (Some {| distances := Some (JRow (c0 :: Some d :: cells) :: rows);
               durations := Some (JRow (c0' :: Some t :: cells') :: rows') |}) →
  ∃ st', get_edge net u v st = Ok ((d, t), st')
         ∧ cache st' = <[(u, v) := (d, t)]> (cache st)
         ∧ fallback_edges st' = fallback_edges st
         ∧ coords st' = coords st.
Proof.
  intros Hc Hu Hv Hnet.
  exists (set_cache st (u, v) (d, t)). split; [|done].
  eapply get_edge_live; [done|done|done|]. by rewrite Hnet.
Qed.

(** **** Calls that only let the client grow *)

Lemma grows_refl (st : OSRMClient (F:=F)) : grows st st.
Proof. by repeat split. Qed.

Lemma grows_trans (st1 st2 st3 : OSRMClient (F:=F)) :
  grows st1 st2 → grows st2 st3 → grows st1 st3.
Proof.
  intros (Hc1 & Hm1 & Hf1 & Hs1) (Hc2 & Hm2 & Hf2 & Hs2). split; [congruence|].
  split; [by etrans|]. split; [by etrans|].
  intros k [e He] Hk. apply Hs1; [by eexists|]. apply Hs2; [|done].
  exists e. by eapply lookup_weaken.
Qed.

Lemma wb_ret {A} (Q : A → Prop) (a : A) : Q a → well_behaved_with (F:=F) Q (mret a).
Proof. intros Ha st. simpl. split; [apply grows_refl|]. by split. Qed.

Lemma wb_bind {A B} (P : A → Prop) (Q : B → Prop) (m : M (F:=F) A) (k : A → M B) :
  well_behaved_with P m →
  (∀ a, P a → well_behaved_with Q (k a)) →
  well_behaved_with Q (m ≫= k).
Proof.
  intros Hm Hk st. unfold mbind, M_bind. specialize (Hm st).
  destruct (m st) as [[a st1]|e]; [|done].
  destruct Hm as (Hg1 & Hw1 & Ha). specialize (Hk a Ha st1).
  destruct (k a st1) as [[b st2]|e]; [|done].
  destruct Hk as (Hg2 & Hw2 & Hb).
  split; [by eapply grows_trans|]. split; [tauto|done].
Qed.

Lemma wb_weaken {A} (P Q : A → Prop) (m : M (F:=F) A) :
  (∀ a, P a → Q a) → well_behaved_with P m → well_behaved_with Q m.
Proof.
  intros HPQ Hm st. specialize (Hm st). destruct (m st) as [[a st1]|e]; [|done].
  destruct Hm as (? & ? & ?). auto.
Qed.

Lemma get_edge_well_behaved (u v : Z) : well_behaved (get_edge net u v).
Proof.
  intros st. unfold get_edge, mbind, M_bind, cache_lookup, coords_at.
  destruct (cache st !! (u, v)) as [e0|] eqn:Hc.
  { simpl. split; [apply grows_refl|done]. }
  destruct (coords st !! u) as [[lat1 lon1]|]; [|done].
  destruct (coords st !! v) as [[lat2 lon2]|]; [|done].
  destruct (osrm_live (net lon1 lat1 lon2 lat2)) as [[d t]|]; simpl.
  - split; [|split; [|done]].
    + split; [done|]. split; [by apply insert_subseteq|done].
    + intros Hwf k Hk. simpl.
      destruct (decide (k = (u, v))) as [->|Hne];
        [rewrite lookup_insert_eq; by eexists|].
      rewrite lookup_insert_ne by done. by apply Hwf.
  - split; [|split; [|done]].
    + split; [done|]. split; [by apply insert_subseteq|].
      simpl. split; [apply union_subseteq_r|].
      intros k [e He] Hk. apply elem_of_union in Hk as [Hk|Hk]; [|done].
      apply elem_of_singleton in Hk as ->. congruence.
    + intros Hwf k Hk. simpl in *.
      destruct (decide (k = (u, v))) as [->|Hne];
        [rewrite lookup_insert_eq; by eexists|].
      rewrite lookup_insert_ne by done. apply Hwf.
      apply elem_of_union in Hk as [Hk|Hk]; [|done].
      by apply elem_of_singleton in Hk.
Qed.

Lemma is_fallback_well_behaved (u v : Z) : well_behaved (is_fallback (F:=F) u v).
Proof. intros st. simpl. split; [apply grows_refl|done]. Qed.

Lemma walk_legs_well_behaved due legs : ∀ clk,
  well_behaved (walk_legs net due legs clk).
Proof.
  induction legs as [|[u v] legs IH]; intros clk; simpl.
  - by apply wb_ret.
  - eapply wb_bind; [apply get_edge_well_behaved|]. intros [d t] _.
    eapply wb_bind; [apply is_fallback_well_behaved|]. intros fb _.
    destruct (_ && _); [by apply wb_ret|apply IH].
Qed.

Lemma walk_trips_well_behaved due trips : ∀ total expanded,
  well_behaved (walk_trips net due trips total expanded).
Proof.
  induction trips as [|[trip load] trips IH]; intros total expanded; simpl.
  - by apply wb_ret.
  - eapply wb_bind; [apply walk_legs_well_behaved|]. intros [clk|] _;
      [apply IH|by apply wb_ret].
Qed.

Lemma validate_multitrip_well_behaved route cap demand due :
  well_behaved (validate_multitrip net route cap demand due).
Proof.
  unfold validate_multitrip.
  eapply wb_bind; [apply walk_trips_well_behaved|]. intros [[total expanded]|] _.
  - destruct (fgt _ _); by apply wb_ret.
  - by apply wb_ret.
Qed.

Lemma for_first_well_behaved {A B} (P : B → Prop) (f : A → M (option B))
    (l : list A) :
  (∀ x, x ∈ l → well_behaved_with (F:=F) (λ r, ∀ b, r = Some b → P b) (f x)) →
  well_behaved_with (λ r, ∀ b, r = Some b → P b) (for_first f l).
Proof.
  induction l as [|x l IH]; intros Hf; simpl.
  - by apply wb_ret.
  - eapply wb_bind; [apply Hf; left|]. intros [b|] Hb.
    + by apply wb_ret.
    + apply IH. intros y Hy. apply Hf. by right.
Qed.

Lemma merge_pass_well_behaved cap demand due (raw : list (list Z)) :
  well_behaved_with (λ r, ∀ raw', r = Some raw' → S (length raw') = length raw)
    (merge_pass net cap demand due raw).
Proof.
  unfold merge_pass.
  apply for_first_well_behaved. intros i Hi. apply elem_of_py_range in Hi.
  apply for_first_well_behaved. intros j Hj. apply elem_of_py_range in Hj.
  destruct (lookup_lt_is_Some_2 raw i) as [ri Hri]; [lia|].
  destruct (lookup_lt_is_Some_2 raw j) as [rj Hrj]; [lia|].
  unfold item. rewrite Hri, Hrj.
  eapply (wb_bind (λ _, True)); [by apply wb_ret|]. intros ? _.
  eapply (wb_bind (λ _, True)); [by apply wb_ret|]. intros ? _.
  eapply wb_bind; [apply validate_multitrip_well_behaved|].
  intros [[[] e] rw] _; apply wb_ret; [|done].
  intros raw' [= <-]. rewrite length_app. simpl.
  rewrite length_delete.
  2:{ apply lookup_lt_is_Some. rewrite length_delete by (by eexists). lia. }
  rewrite length_delete by (by eexists). lia.
Qed.

Lemma merge_loop_well_behaved cap demand due (fuel : nat) : ∀ raw,
  (length raw < fuel)%nat →
  well_behaved (merge_loop net fuel cap demand due raw).
Proof.
  induction fuel as [|fuel IH]; intros raw Hlen; [lia|]. simpl.
  eapply wb_bind; [apply merge_pass_well_behaved|].
  intros [raw'|] Hr; [|by apply wb_ret].
  apply IH. specialize (Hr raw' eq_refl). lia.
Qed.

Lemma keep_feasible_well_behaved cap demand due (raw : list (list Z)) : ∀ final,
  well_behaved (keep_feasible net cap demand due raw final).
Proof.
  induction raw as [|r raw IH]; intros final; simpl.
  - by apply wb_ret.
  - eapply wb_bind; [apply validate_multitrip_well_behaved|].
    intros [[ok e] rw] _. apply IH.
Qed.

(** X4. The merge loop of [combine_and_validate_multitrip] ends
    within its bound of passes ([len(raw) + 1]) and never reads [raw]
    out of range, whatever the routes and the state of the provider.
    When the call returns, the coordinates are unchanged, every cached
    edge is still cached with the same value, no fallback mark is
    removed, a pair that was already cached has got no new fallback
    mark, and fallback edges are still cached. *)
Theorem combine_and_validate_multitrip_well_behaved
    (routes : list (list Z)) (cap : Z) (demand due : gmap Z Z) (st : OSRMClient) :
  combine_and_validate_multitrip net routes cap demand due st ≠ Raise IndexError
  ∧ combine_and_validate_multitrip net routes cap demand due st ≠ Raise OutOfFuel
  ∧ ∀ out st',
      combine_and_validate_multitrip net routes cap demand due st = Ok (out, st') →
      coords st' = coords st
      ∧ cache st ⊆ cache st'
      ∧ fallback_edges st ⊆ fallback_edges st'
      ∧ (∀ k, is_Some (cache st !! k) → k ∈ fallback_edges st' → k ∈ fallback_edges st)
      ∧ (fallback_cached st → fallback_cached st').
Proof.
  assert (Hwb : well_behaved (combine_and_validate_multitrip net routes cap demand due)).
  { unfold combine_and_validate_multitrip.
    eapply wb_bind; [apply merge_loop_well_behaved; lia|].
    intros raw _. apply keep_feasible_well_behaved. }
  specialize (Hwb st).
  destruct (combine_and_validate_multitrip net routes cap demand due st)
    as [[out st']|e].
  - split; [done|]. split; [done|]. intros out' st'' [= <- <-].
    destruct Hwb as ((Hc & Hm & Hf & Hs) & Hw & _). done.
  - split; [by intros [= ->]|]. split; [by intros [= ->]|]. done.
Qed.

(** X5. When [validate_multitrip] returns, accepting or rejecting, the
    coordinates are unchanged, every cached edge is still cached with
    the same value, no fallback mark is removed, a pair that was
    already cached has got no new fallback mark, and fallback edges are
    still cached. *)
Theorem validate_multitrip_client_grows
    (route : list Z) (cap : Z) (demand due : gmap Z Z) (st : OSRMClient)
    (a : bool * list Z * list Z) (st' : OSRMClient) :
  validate_multitrip net route cap demand due st = Ok (a, st') →
  coords st' = coords st
  ∧ cache st ⊆ cache st'
  ∧ fallback_edges st ⊆ fallback_edges st'
  ∧ (∀ k, is_Some (cache st !! k) → k ∈ fallback_edges st' → k ∈ fallback_edges st)
  ∧ (fallback_cached st → fallback_cached st').
Proof.
  intros Hrun.
  pose proof (validate_multitrip_well_behaved route cap demand due st) as Hwb.
  rewrite Hrun in Hwb. destruct Hwb as ((Hc & Hm & Hf & Hs) & Hw & _). done.
Qed.

End ProviderFacts.

Section SplitMore.
Variables (cap : Z) (demand : gmap Z Z).

(** X6. [split_into_trips] cuts the route without reordering, dropping
    or repeating a customer: the trips, put end to end, are the route;
    no trip is empty; each recorded load is the sum of the demands of
    the trip; and there is no trip exactly when the route is empty. *)
Theorem split_into_trips_partition (route : list Z) :
  let trips := split_into_trips route cap demand in
  concat trips.*1 = route
  ∧ Forall (λ t, t.1 ≠ [] ∧ t.2 = trip_load demand t.1) trips
  ∧ (trips = [] ↔ route = []).
Proof.
  intros trips. pose proof (split_into_trips_concat cap demand route) as Hcat.
  fold trips in Hcat. split; [done|]. split.
  - eapply Forall_impl; [apply split_into_trips_ok|]. by intros t (? & ? & _).
  - split.
    + intros Ht. by rewrite Ht in Hcat.
    + intros ->. reflexivity.
Qed.

Lemma closed_when_full_snoc (trips : list (list Z * Z)) (cur : list Z) (load : Z) :
  closed_when_full cap demand trips →
  (∀ t l, last trips = Some (t, l) →
          ∃ c rest, cur = c :: rest ∧ cap < l + dict_get demand c 0) →
  closed_when_full cap demand (trips ++ [(cur, load)]).
Proof.
  intros Hadj Hlink i t1 l1 t2 l2 H1 H2.
  destruct (decide (S i < length trips)%nat) as [Hlt|Hge].
  - rewrite lookup_app_l in H1 by lia. rewrite lookup_app_l in H2 by lia.
    by eapply Hadj.
  - assert (Hi : S i = length trips).
    { apply lookup_lt_Some in H2. rewrite length_app in H2. simpl in H2. lia. }
    rewrite lookup_app_l in H1 by lia.
    rewrite lookup_app_r in H2 by lia.
    replace (S i - length trips)%nat with 0%nat in H2 by lia.
    injection H2 as <- <-. apply (Hlink t1 l1).
    rewrite last_lookup. by replace (pred (length trips)) with i by lia.
Qed.

Lemma split_loop_closed_when_full (route : list Z) : ∀ trips cur load,
  closed_when_full cap demand trips →
  (∀ t l, last trips = Some (t, l) →
          ∃ c rest, cur = c :: rest ∧ cap < l + dict_get demand c 0) →
  closed_when_full cap demand (split_loop cap demand route trips cur load).
Proof.
  induction route as [|c route IH]; intros trips cur load Hadj Hlink; simpl.
  - unfold close_trips. destruct cur as [|x cur]; simpl; [done|].
    by apply closed_when_full_snoc.
  - destruct (negb (is_empty cur) && (cap <? load + dict_get demand c 0)) eqn:Hc.
    + apply andb_true_iff in Hc as [Hne Hgt]. apply Z.ltb_lt in Hgt.
      apply IH.
      * by apply closed_when_full_snoc.
      * intros t l Hlast. rewrite last_snoc in Hlast. injection Hlast as <- <-.
        by exists c, [].
    + apply IH; [done|]. intros t l Hlast.
      destruct (Hlink t l Hlast) as (c' & rest & -> & Hgt).
      by exists c', (rest ++ [c]).
Qed.

(** X7. [split_into_trips] is greedy: a trip is closed only when the
    next customer does not fit.  For two consecutive trips, the load of
    the first plus the demand of the first customer of the second
    exceeds the capacity. *)
Theorem split_into_trips_greedy (route : list Z) (i : nat)
    (t1 t2 : list Z) (l1 l2 : Z) :
  split_into_trips route cap demand !! i = Some (t1, l1) →
  split_into_trips route cap demand !! S i = Some (t2, l2) →
  ∃ c rest, t2 = c :: rest ∧ cap < l1 + dict_get demand c 0.
Proof.
  apply (split_loop_closed_when_full route [] [] 0).
  - intros j ? ? ? ? Hj. by rewrite lookup_nil in Hj.
  - intros t l Hl. done.
Qed.

Lemma trip_load_nonneg (route : list Z) :
  (∀ c, c ∈ route → 0 ≤ dict_get demand c 0) → 0 ≤ trip_load demand route.
Proof.
  induction route as [|c route IH]; intros Hd; simpl; [lia|].
  assert (0 ≤ dict_get demand c 0) by (apply Hd; left).
  assert (0 ≤ trip_load demand route) by (apply IH; intros; apply Hd; by right).
  lia.
Qed.

Lemma split_loop_fits (route : list Z) : ∀ cur load,
  (∀ c, c ∈ route → 0 ≤ dict_get demand c 0) →
  load + trip_load demand route ≤ cap →
  split_loop cap demand route [] cur load
  = close_trips [] (cur ++ route) (load + trip_load demand route).
Proof.
  induction route as [|c route IH]; intros cur load Hd Hfit; simpl.
  - by rewrite app_nil_r, Z.add_0_r.
  - assert (0 ≤ trip_load demand route)
      by (apply trip_load_nonneg; intros; apply Hd; by right).
    simpl in Hfit.
    replace (cap <? load + dict_get demand c 0) with false
      by (symmetry; apply Z.ltb_ge; lia).
    rewrite andb_false_r. rewrite IH.
    + rewrite <- app_assoc. simpl. f_equal. lia.
    + intros c' Hc'. apply Hd. by right.
    + lia.
Qed.

(** X8. A non-empty route of non-negative demands whose total fits in
    the capacity is not split: it is a single trip with that total as
    load. *)
Theorem split_into_trips_single (route : list Z) :
  route ≠ [] →
  (∀ c, c ∈ route → 0 ≤ dict_get demand c 0) →
  trip_load demand route ≤ cap →
  split_into_trips route cap demand = [(route, trip_load demand route)].
Proof.
  intros Hne Hd Hfit. unfold split_into_trips.
  rewrite split_loop_fits by (done || lia). simpl.
  unfold close_trips. by destruct route.
Qed.

End SplitMore.

(** ** Accepted paths *)

Section PathFacts.

Lemma expanded_step_shape (trips : list (list Z * Z)) : ∀ expanded,
  expanded ≠ [] →
  fold_left (λ expanded '(trip, _),
               let full := [0] ++ trip ++ [0] in
               expanded ++ (if is_empty expanded then full else tail full))
            trips expanded
  = expanded ++ concat ((λ t : list Z * Z, t.1 ++ [0]) <$> trips).
Proof.
  induction trips as [|[trip load] trips IH]; intros expanded Hne; simpl.
  - by rewrite app_nil_r.
  - rewrite IH by (by destruct expanded).
    destruct expanded; [done|]. simpl. by rewrite <- !app_assoc.
Qed.

Lemma expanded_path_shape (trips : list (list Z * Z)) :
  trips ≠ [] →
  expanded_path trips = 0 :: concat ((λ t : list Z * Z, t.1 ++ [0]) <$> trips).
Proof.
  destruct trips as [|[trip load] trips]; [done|]. intros _.
  unfold expanded_path. simpl. by rewrite expanded_step_shape.
Qed.

Lemma last_concat_depot (trips : list (list Z * Z)) : ∀ pre : list Z,
  last ((pre ++ [0]) ++ concat ((λ t : list Z * Z, t.1 ++ [0]) <$> trips)) = Some 0.
Proof.
  induction trips as [|t trips IH]; intros pre; simpl.
  - by rewrite app_nil_r, last_snoc.
  - specialize (IH ((pre ++ [0]) ++ t.1)). by rewrite <- !app_assoc in *.
Qed.

Lemma length_concat_depot (trips : list (list Z * Z)) :
  length (concat ((λ t : list Z * Z, t.1 ++ [0]) <$> trips))
  = (length (concat trips.*1) + length trips)%nat.
Proof.
  induction trips as [|t trips IH]; [done|].
  rewrite !fmap_cons. cbn [concat]. rewrite !length_app, IH. simpl. lia.
Qed.

Lemma zip_tail_app {A} (l1 : list A) (x : A) (l2 : list A) :
  zip (l1 ++ x :: l2) (tail (l1 ++ x :: l2))
  = zip (l1 ++ [x]) (tail (l1 ++ [x])) ++ zip (x :: l2) l2.
Proof.
  induction l1 as [|a l1 IH]; simpl.
  - by destruct l2.
  - destruct l1 as [|b l1]; simpl in *; [done|]. by rewrite IH.
Qed.

Lemma zip_tail_concat_depot (trips : list (list Z * Z)) :
  zip (0 :: concat ((λ t : list Z * Z, t.1 ++ [0]) <$> trips))
      (concat ((λ t : list Z * Z, t.1 ++ [0]) <$> trips))
  = concat (trip_legs <$> trips.*1).
Proof.
  induction trips as [|t trips IH]; [done|].
  cbn [fmap list_fmap concat]. rewrite <- IH. unfold trip_legs.
  pose proof (zip_tail_app (0 :: t.1) 0
                (concat ((λ t : list Z * Z, t.1 ++ [0]) <$> trips))) as Hz.
  simpl in Hz. simpl. rewrite <- app_assoc. simpl. exact Hz.
Qed.

(** The legs of an expanded path are the legs of its trips, in order. *)
Lemma expanded_path_legs (trips : list (list Z * Z)) :
  zip (expanded_path trips) (tail (expanded_path trips))
  = concat (trip_legs <$> trips.*1).
Proof.
  destruct (decide (trips = [])) as [->|Hne]; [done|].
  rewrite expanded_path_shape by done. simpl. apply zip_tail_concat_depot.
Qed.

End PathFacts.

Section ValidateMore.
Context {F : Type} `{PyFloat F} `{PyFloatOrd F}.
Variable net : F → F → F → F → http_reply F.

Lemma walk_trips_expanded due trips : ∀ total expanded (st : OSRMClient) tot exp' st',
  walk_trips net due trips total expanded st = Ok (Some (tot, exp'), st') →
  exp' = fold_left (λ expanded '(trip, _),
                      let full := [0] ++ trip ++ [0] in
                      expanded ++ (if is_empty expanded then full else tail full))
                   trips expanded.
Proof.
  induction trips as [|[trip load] trips IH]; intros total expanded st tot exp' st' Hrun.
  - by injection Hrun as _ <- _.
  - cbn [walk_trips] in Hrun. unfold mbind, M_bind in Hrun.
    destruct (walk_legs net due (trip_legs trip) (of_Z 0) st) as [[[clk|] st1]|e];
      [|done|done].
    apply IH in Hrun. exact Hrun.
Qed.

Lemma validate_multitrip_accepted (st : OSRMClient) route cap demand due path custs st' :
  validate_multitrip net route cap demand due st = Ok ((true, path, custs), st') →
  path = expanded_path (split_into_trips route cap demand)
  ∧ custs = customers route.
Proof.
  unfold validate_multitrip, mbind, M_bind. intros Hrun.
  destruct (walk_trips net due (split_into_trips route cap demand) (of_Z 0) [] st)
    as [[[[tot exp']|] st1]|e] eqn:Hw; [|done|done].
  apply walk_trips_expanded in Hw.
  destruct (fgt tot (of_Z SHIFT_LIMIT_SEC)); [done|].
  injection Hrun as <- <- <-. subst exp'. split; [done|].
  apply customers_expanded_path.
Qed.

(** X9. The path of an accepted route: it visits exactly the customers
    of the route, in the route's order (the third component is that
    list of customers); for a non-empty route it starts and ends at the
    depot, and has one node per customer, one depot visit per trip and
    one more for the start. *)
Theorem validate_multitrip_accepted_path
    (st : OSRMClient) route cap demand due path custs st' :
  validate_multitrip net route cap demand due st = Ok ((true, path, custs), st') →
  custs = customers route
  ∧ customers path = customers route
  ∧ (route = [] → path = [])
  ∧ (route ≠ [] →
     head path = Some 0 ∧ last path = Some 0
     ∧ length path
       = S (length route + length (split_into_trips route cap demand))).
Proof.
  intros Hrun. apply validate_multitrip_accepted in Hrun as [-> ->].
  split; [done|]. split; [apply customers_expanded_path|].
  split; [by intros ->|]. intros Hne.
  pose proof (split_into_trips_concat cap demand route) as Hcat.
  assert (Ht : split_into_trips route cap demand ≠ []).
  { intros Ht. by rewrite Ht in Hcat. }
  rewrite expanded_path_shape by done. split; [done|]. split.
  - apply (last_concat_depot _ []).
  - simpl. by rewrite length_concat_depot, Hcat.
Qed.

End ValidateMore.

Section SummaryFacts.
Context {F : Type} `{PyFloat F} `{PyFloatOrd F}.
Variable net : F → F → F → F → http_reply F.

(** X11. The empty route is accepted with an empty path, and the
    provider is not asked anything (given that [0 > SHIFT_LIMIT_SEC] is
    false). *)
Theorem validate_multitrip_empty (st : OSRMClient) (cap : Z) (demand due : gmap Z Z) :
  fgt (of_Z 0) (of_Z SHIFT_LIMIT_SEC) = false →
  validate_multitrip net [] cap demand due st = Ok ((true, [], []), st).
Proof.
  intros Hf. unfold validate_multitrip, mbind, M_bind. simpl. by rewrite Hf.
Qed.

(** X12. With nothing but empty routes, [combine_and_validate_multitrip]
    returns no path and the provider is not asked anything. *)
Theorem combine_and_validate_multitrip_empty (st : OSRMClient)
    (routes : list (list Z)) (cap : Z) (demand due : gmap Z Z) :
  Forall (λ r, r = []) routes →
  combine_and_validate_multitrip net routes cap demand due st = Ok ([], st).
Proof.
  intros Hall.
  assert (Hf : filter (λ r : list Z, r ≠ []) routes = []).
  { induction Hall as [|r routes -> _ IH]; [done|].
    by rewrite filter_cons_False by (by intros ?). }
  unfold combine_and_validate_multitrip. by rewrite Hf.
Qed.

(** **** Summaries are served from the cache *)

Lemma get_edge_caches (st : OSRMClient) u v e st' :
  get_edge net u v st = Ok (e, st') →
  cache st ⊆ cache st' ∧ cache st' !! (u, v) = Some e.
Proof.
  intros Hget. split.
  - pose proof (get_edge_well_behaved net u v st) as Hwb. rewrite Hget in Hwb.
    by destruct Hwb as ((_ & Hm & _) & _).
  - unfold get_edge, mbind, M_bind, cache_lookup, coords_at in Hget.
    destruct (cache st !! (u, v)) as [e0|] eqn:Hc.
    + injection Hget as <- <-. exact Hc.
    + destruct (coords st !! u) as [[lat1 lon1]|]; [|done].
      destruct (coords st !! v) as [[lat2 lon2]|]; [|done].
      destruct (osrm_live (net lon1 lat1 lon2 lat2)) as [[d t]|];
        injection Hget as <- <-; simpl; apply lookup_insert_eq.
Qed.

Lemma walk_legs_caches due legs : ∀ clk (st : OSRMClient) r st',
  walk_legs net due legs clk st = Ok (Some r, st') →
  cache st ⊆ cache st' ∧ ∀ u v, (u, v) ∈ legs → is_Some (cache st' !! (u, v)).
Proof.
  induction legs as [|[u v] legs IH]; intros clk st r st' Hrun.
  - injection Hrun as _ <-. split; [done|]. intros u v Hin. by apply elem_of_nil in Hin.
  - cbn [walk_legs] in Hrun. unfold mbind, M_bind in Hrun.
    destruct (get_edge net u v st) as [[[d t] st1]|e] eqn:Hg; [|done].
    apply get_edge_caches in Hg as [Hsub Hc]. unfold is_fallback in Hrun.
    match type of Hrun with context [if ?c then _ else _] => destruct c end; [done|].
    apply IH in Hrun as [Hsub' Hlegs]. split; [by etrans|].
    intros u' v' Hin. apply elem_of_cons in Hin as [[= -> ->]|Hin]; [|by apply Hlegs].
    exists (d, t). by eapply lookup_weaken.
Qed.

Lemma walk_trips_caches due trips : ∀ total expanded (st : OSRMClient) r st',
  walk_trips net due trips total expanded st = Ok (Some r, st') →
  cache st ⊆ cache st'
  ∧ ∀ u v, (u, v) ∈ concat (trip_legs <$> trips.*1) → is_Some (cache st' !! (u, v)).
Proof.
  induction trips as [|[trip load] trips IH]; intros total expanded st r st' Hrun.
  - injection Hrun as _ <-. split; [done|]. intros u v Hin. by apply elem_of_nil in Hin.
  - cbn [walk_trips] in Hrun. unfold mbind, M_bind in Hrun.
    destruct (walk_legs net due (trip_legs trip) (of_Z 0) st) as [[[clk|] st1]|e] eqn:Hw;
      [|done|done].
    apply walk_legs_caches in Hw as [Hsub Hlegs].
    apply IH in Hrun as [Hsub' Hrest]. split; [by etrans|].
    intros u v Hin. rewrite !fmap_cons in Hin. cbn [concat] in Hin.
    apply elem_of_app in Hin as [Hin|Hin]; [|by apply Hrest].
    destruct (Hlegs u v Hin) as [e He]. exists e. by eapply lookup_weaken.
Qed.

Lemma validate_multitrip_caches (st : OSRMClient) route cap demand due path custs st1 :
  validate_multitrip net route cap demand due st = Ok ((true, path, custs), st1) →
  path_cached st1 path.
Proof.
  intros Hrun.
  destruct (validate_multitrip_accepted net st route cap demand due path custs st1 Hrun)
    as [-> _].
  unfold validate_multitrip, mbind, M_bind in Hrun.
  destruct (walk_trips net due (split_into_trips route cap demand) (of_Z 0) [] st)
    as [[[[tot exp']|] st1']|e] eqn:Hw; [|done|done].
  apply walk_trips_caches in Hw as [_ Hlegs].
  destruct (fgt tot (of_Z SHIFT_LIMIT_SEC)); [done|].
  injection Hrun as _ <-. intros u v Hin. rewrite expanded_path_legs in Hin.
  subst st1'. by apply Hlegs.
Qed.

(** **** A validation is replayed from the cache *)

Lemma grows_keeps (st st1 st2 : OSRMClient (F:=F)) :
  grows st st1 → keeps st1 st2 → keeps st st2.
Proof.
  intros (_ & Hm & Hf & Hs) [Hm2 Hk2]. split; [by etrans|].
  intros k [e He].
  assert (Hk1 : is_Some (cache st1 !! k)) by (exists e; by eapply lookup_weaken).
  rewrite (Hk2 k Hk1). split; [apply Hs; by eexists|apply Hf].
Qed.

Lemma walk_legs_replay due legs : ∀ clk (st : OSRMClient) r st1,
  walk_legs net due legs clk st = Ok (Some r, st1) →
  ∀ (net2 : F → F → F → F → http_reply F) (st2 : OSRMClient),
    keeps st1 st2 →
    walk_legs net2 due legs clk st2 = Ok (Some r, st2).
Proof.
  induction legs as [|[u v] legs IH]; intros clk st r st1 Hrun net2 st2 Hkeeps.
  - by injection Hrun as <- _.
  - cbn [walk_legs] in Hrun. unfold mbind, M_bind in Hrun.
    destruct (get_edge net u v st) as [[[d t] sta]|e] eqn:Hg; [|done].
    apply get_edge_caches in Hg as [_ Hc]. unfold is_fallback in Hrun.
    match type of Hrun with
    | context [if ?c then _ else _] => destruct c eqn:Hcond
    end; [done|].
    pose proof (walk_legs_well_behaved net due legs (fadd clk t) sta) as Hwb.
    rewrite Hrun in Hwb. destruct Hwb as (Hgrows & _).
    destruct (grows_keeps sta st1 st2 Hgrows Hkeeps) as [Hsub Hfb].
    cbn [walk_legs]. unfold mbind, M_bind.
    rewrite (get_edge_cached net2 st2 u v (d, t)) by (by eapply lookup_weaken).
    unfold is_fallback.
    rewrite (bool_decide_ext ((u, v) ∈ fallback_edges st2) ((u, v) ∈ fallback_edges sta))
      by (apply Hfb; by eexists).
    rewrite Hcond. by eapply IH.
Qed.

Lemma walk_trips_replay due trips : ∀ total expanded (st : OSRMClient) r st1,
  walk_trips net due trips total expanded st = Ok (Some r, st1) →
  ∀ (net2 : F → F → F → F → http_reply F) (st2 : OSRMClient),
    keeps st1 st2 →
    walk_trips net2 due trips total expanded st2 = Ok (Some r, st2).
Proof.
  induction trips as [|[trip load] trips IH];
    intros total expanded st r st1 Hrun net2 st2 Hkeeps.
  - by injection Hrun as <- _.
  - cbn [walk_trips] in Hrun. unfold mbind, M_bind in Hrun.
    destruct (walk_legs net due (trip_legs trip) (of_Z 0) st) as [[[clk|] sta]|e] eqn:Hw;
      [|done|done].
    pose proof (walk_trips_well_behaved net due trips (fadd total clk)
                  (expanded ++ (if is_empty expanded
                                then [0] ++ trip ++ [0]
                                else tail ([0] ++ trip ++ [0]))) sta) as Hwb.
    rewrite Hrun in Hwb. destruct Hwb as (Hgrows & _).
    cbn [walk_trips]. unfold mbind, M_bind.
    rewrite (walk_legs_replay _ _ _ _ _ _ Hw net2 st2 (grows_keeps _ _ _ Hgrows Hkeeps)).
    by eapply IH.
Qed.

(** X10. An accepted validation is replayed from the cache.  Once
    [validate_multitrip] has accepted a route, validating it again
    accepts it with the same path and leaves the provider as it is,
    whatever the map service would answer now and whatever has been
    cached since: the durations and the fallback marks of the first
    run decide, so an edge estimated while the service was down never
    makes the route late afterwards. *)
Theorem validate_multitrip_replay
    (st : OSRMClient) route cap demand due path custs st1 :
  validate_multitrip net route cap demand due st = Ok ((true, path, custs), st1) →
  ∀ (net2 : F → F → F → F → http_reply F) (st2 : OSRMClient),
    keeps st1 st2 →
    validate_multitrip net2 route cap demand due st2 = Ok ((true, path, custs), st2).
Proof.
  intros Hrun net2 st2 Hkeeps.
  unfold validate_multitrip, mbind, M_bind in *.
  destruct (walk_trips net due (split_into_trips route cap demand) (of_Z 0) [] st)
    as [[[[tot exp']|] st1']|e] eqn:Hw; [|done|done].
  destruct (fgt tot (of_Z SHIFT_LIMIT_SEC)) eqn:Hf; [done|].
  injection Hrun as <- <- <-.
  rewrite (walk_trips_replay _ _ _ _ _ _ _ Hw net2 st2 Hkeeps). by rewrite Hf.
Qed.

Lemma path_cached_mono (st st' : OSRMClient (F:=F)) path :
  cache st ⊆ cache st' → path_cached st path → path_cached st' path.
Proof.
  intros Hsub Hc u v Hin. destruct (Hc u v Hin) as [e He].
  exists e. by eapply lookup_weaken.
Qed.

Lemma sum_legs_cached (net' : F → F → F → F → http_reply F) legs :
  ∀ d t (st : OSRMClient),
  (∀ u v, (u, v) ∈ legs → is_Some (cache st !! (u, v))) →
  ∃ r, sum_legs net' legs d t st = Ok (r, st).
Proof.
  induction legs as [|[u v] legs IH]; intros d t st Hc.
  - by eexists.
  - destruct (Hc u v) as [[d1 t1] Hc1]; [left|].
    cbn [sum_legs]. unfold mbind, M_bind.
    rewrite (get_edge_cached net' st u v _ Hc1).
    apply IH. intros u' v' Hin. apply Hc. by right.
Qed.

Lemma summarize_route_cached (net' : F → F → F → F → http_reply F)
    (st : OSRMClient) path :
  path_cached st path →
  ∃ m, summarize_route net' path st = Ok (m, st) ∧ nodes m = path.
Proof.
  intros Hc. unfold summarize_route, mbind, M_bind.
  destruct (sum_legs_cached net' (zip path (tail path)) (of_Z 0) (of_Z 0) st Hc)
    as [[d t] Hsum].
  rewrite Hsum. by eexists.
Qed.


Lemma keep_feasible_cached cap demand due raw : ∀ final (st : OSRMClient) out st',
  keep_feasible net cap demand due raw final st = Ok (out, st') →
  Forall (path_cached st) final → Forall (path_cached st') out.
Proof.
  induction raw as [|r raw IH]; intros final st out st' Hrun Hfin.
  - by injection Hrun as <- <-.
  - cbn [keep_feasible] in Hrun. unfold mbind, M_bind in Hrun.
    destruct (validate_multitrip net r cap demand due st)
      as [[[[ok exp] rw] st1]|e] eqn:Hv; [|done].
    pose proof (validate_multitrip_well_behaved net r cap demand due st) as Hwb.
    rewrite Hv in Hwb. destruct Hwb as ((_ & Hsub & _) & _).
    assert (Hfin1 : Forall (path_cached st1) final).
    { eapply Forall_impl; [done|]. intros p. by apply path_cached_mono. }
    apply IH in Hrun; [done|]. destruct ok; [|done].
    apply Forall_app. split; [done|]. apply Forall_singleton.
    by eapply validate_multitrip_caches.
Qed.


End SummaryFacts.


Section CallerFacts.
Context {F : Type} `{PyFloat F} `{PyFloatOrd F}.
Variable net : F → F → F → F → http_reply F.

Lemma customers_trip_paths (trips : list (list Z * Z)) :
  customers (concat ((λ t : list Z * Z, [0] ++ t.1 ++ [0]) <$> trips))
  = customers (concat trips.*1).
Proof.
  induction trips as [|t trips IH]; [done|].
  assert (Hd : customers [0] = []) by done.
  rewrite !fmap_cons. cbn [concat]. rewrite !customers_app, IH, Hd.
  by rewrite app_nil_r.
Qed.

Lemma run_hgs_validated_spec (st0 : OSRMClient) demand due routes :
  ∀ acc (st : OSRMClient),
  view_eq net st0 st →
  Forall (route_known st0) routes →
  ∃ validated st',
    run_hgs_validated net routes demand due acc st = Ok (validated, st')
    ∧ view_eq net st0 st'
    ∧ customers (concat validated)
      = customers (concat acc) ++ customers (concat routes).
Proof.
  induction routes as [|r routes IH]; intros acc st Hv Hk.
  - exists acc, st. split; [done|]. split; [done|]. by rewrite app_nil_r.
  - apply Forall_cons in Hk as [Hr Hk].
    destruct (validate_multitrip_denotes net st0 r SOL_VEH_CAP demand due Hr st Hv)
      as (st1 & Hv1 & Hrun).
    cbn [run_hgs_validated]. unfold mbind, M_bind. rewrite Hrun.
    destruct (validate_result net st0 r SOL_VEH_CAP demand due)
      as [[ok exp] rw] eqn:Hres.
    destruct ok.
    + apply validate_result_true in Hres as [-> _].
      destruct (IH (acc ++ [expanded_path (split_into_trips r SOL_VEH_CAP demand)])
                  st1 Hv1 Hk) as (v & st' & Hgo & Hv' & Hc).
      exists v, st'. split; [exact Hgo|]. split; [done|]. rewrite Hc.
      rewrite concat_app, customers_app. cbn [concat]. rewrite app_nil_r.
      rewrite customers_expanded_path. cbn [concat].
      by rewrite customers_app, <- app_assoc.
    + destruct (IH (acc ++ ((λ t : list Z * Z, [0] ++ t.1 ++ [0])
                              <$> split_into_trips r SOL_VEH_CAP demand))
                  st1 Hv1 Hk) as (v & st' & Hgo & Hv' & Hc).
      exists v, st'. split; [exact Hgo|]. split; [done|]. rewrite Hc.
      rewrite concat_app, customers_app, customers_trip_paths.
      rewrite split_into_trips_concat. cbn [concat].
      by rewrite customers_app, <- app_assoc.
Qed.


End CallerFacts.

Section MergeMore.
Context {F : Type} `{PyFloat F}.
Variable net : F → F → F → F → http_reply F.
Variables (cap : Z) (demand due : gmap Z Z).

Lemma concat_Permutation {A} (l1 l2 : list (list A)) :
  l1 ≡ₚ l2 → concat l1 ≡ₚ concat l2.
Proof.
  induction 1 as [|x l1 l2 _ IH|x y l|l1 l2 l3 _ IH1 _ IH2]; simpl.
  - done.
  - by f_equiv.
  - rewrite !app_assoc. f_equiv. apply Permutation_app_comm.
  - by etrans.
Qed.

Lemma concat_filter_nonempty {A} (l : list (list A)) :
  concat (filter (λ r, r ≠ []) l) = concat l.
Proof.
  induction l as [|r l IH]; [done|].
  destruct r as [|x r].
  - by rewrite filter_cons_False by (by intros ?).
  - rewrite filter_cons_True by done. simpl. by rewrite IH.
Qed.

(** A merge keeps the customers, and routes that are feasible stay so. *)
Lemma pass_result_perm (st0 : OSRMClient) (raw raw' : list (list Z)) :
  Forall (good_route st0) raw →
  pass_result net st0 cap demand due raw = Some raw' →
  concat raw' ≡ₚ concat raw
  ∧ (Forall (λ r, feasible net st0 cap demand due r = true) raw →
     Forall (λ r, feasible net st0 cap demand due r = true) raw').
Proof.
  intros Hgood Hp. unfold pass_result in Hp.
  apply first_some_Some in Hp as (i & Hi & Hp). apply elem_of_py_range in Hi.
  apply first_some_Some in Hp as (j & Hj & Hp). apply elem_of_py_range in Hj.
  unfold merge_of in Hp.
  destruct (raw !! i) as [ri|] eqn:Hri; [|done].
  destruct (raw !! j) as [rj|] eqn:Hrj; [|done].
  destruct (validate_result net st0 (ri ++ rj) cap demand due) as [[[] e] rw] eqn:Hv;
    [|done].
  injection Hp as <-.
  assert (Hfeas : feasible net st0 cap demand due (ri ++ rj) = true).
  { unfold feasible. by rewrite Hv. }
  apply validate_result_true in Hv as [_ ->].
  destruct (Forall_lookup_1 _ _ _ _ Hgood Hri) as (Hk1 & Hd1 & Hn1).
  destruct (Forall_lookup_1 _ _ _ _ Hgood Hrj) as (Hk2 & Hd2 & Hn2).
  assert (Hd : depot_free (ri ++ rj)).
  { unfold depot_free. rewrite elem_of_app. intros [?|?]; [by apply Hd1|by apply Hd2]. }
  rewrite (customers_depot_free _ Hd).
  assert (Hri' : delete j raw !! i = Some ri).
  { by rewrite list_lookup_delete_lt by lia. }
  split.
  - rewrite concat_app. cbn [concat]. rewrite app_nil_r.
    rewrite (concat_Permutation _ _ (delete_Permutation raw j rj Hrj)).
    cbn [concat].
    rewrite (concat_Permutation _ _ (delete_Permutation (delete j raw) i ri Hri')).
    cbn [concat].
    rewrite (Permutation_app_comm (concat _) (ri ++ rj)).
    rewrite (Permutation_app_comm ri rj). by rewrite <- app_assoc.
  - intros Hall. apply Forall_app. split; [by apply Forall_delete, Forall_delete|].
    by apply Forall_singleton.
Qed.

Lemma merge_loop_perm (st0 : OSRMClient) (fuel : nat) : ∀ raw,
  (length raw < fuel)%nat →
  Forall (good_route st0) raw →
  ∃ raw_f, denotes net st0 (merge_loop net fuel cap demand due raw) raw_f
           ∧ Forall (good_route st0) raw_f
           ∧ concat raw_f ≡ₚ concat raw
           ∧ (length raw_f ≤ length raw)%nat
           ∧ (Forall (λ r, feasible net st0 cap demand due r = true) raw →
              Forall (λ r, feasible net st0 cap demand due r = true) raw_f).
Proof.
  induction fuel as [|fuel IH]; intros raw Hlen Hgood; [lia|].
  assert (Hknown : Forall (route_known st0) raw).
  { eapply Forall_impl; [exact Hgood|]. by intros r [? _]. }
  pose proof (merge_pass_denotes net cap demand due st0 raw Hknown) as Hpass.
  destruct (pass_result net st0 cap demand due raw) as [raw'|] eqn:Hp.
  - destruct (pass_result_Some net cap demand due st0 raw raw' Hgood Hp)
      as [Hgood' Hlen'].
    destruct (pass_result_perm st0 raw raw' Hgood Hp) as [Hperm Hfeas].
    destruct (IH raw') as (raw_f & Hden & Hgf & Hpf & Hlf & Hff); [lia|done|].
    exists raw_f. split.
    { simpl. eapply denotes_bind; [exact Hpass|exact Hden]. }
    split; [done|]. split; [by etrans|]. split; [lia|]. auto.
  - exists raw. split.
    { simpl. eapply denotes_bind; [exact Hpass|apply denotes_ret]. }
    by repeat split.
Qed.

(** What a run of the whole function comes to, for routes the provider
    knows: the merged routes [raw_f], of which the feasible ones are
    returned as paths. *)
Lemma combine_run (st : OSRMClient) (routes : list (list Z)) :
  (∀ r, r ∈ routes → route_known st r ∧ depot_free r) →
  ∃ raw_f st1,
    combine_and_validate_multitrip net routes cap demand due st
    = Ok (omap (kept net st cap demand due) raw_f, st1)
    ∧ view_eq net st st1
    ∧ Forall (good_route st) raw_f
    ∧ concat raw_f ≡ₚ concat routes
    ∧ (length raw_f ≤ length routes)%nat
    ∧ (Forall (λ r, feasible net st cap demand due r = true) routes →
       Forall (λ r, feasible net st cap demand due r = true) raw_f).
Proof.
  intros Hroutes.
  set (raw0 := filter (λ r, r ≠ []) routes).
  assert (Hgood0 : Forall (good_route st) raw0).
  { apply Forall_forall. intros r Hr. apply list_elem_of_filter in Hr as [Hn Hr].
    destruct (Hroutes r Hr). by repeat split. }
  destruct (merge_loop_perm st (S (length raw0)) raw0)
    as (raw_f & Hloop & Hgf & Hperm & Hlen & Hfeas); [lia|done|].
  assert (Hkf : Forall (route_known st) raw_f).
  { eapply Forall_impl; [exact Hgf|]. by intros r [? _]. }
  destruct (Hloop st (view_eq_refl net st)) as (sta & Hva & Hrun_a).
  destruct (keep_feasible_denotes net cap demand due st raw_f [] Hkf sta Hva)
    as (st1 & Hv1 & Hrun_1).
  simpl in Hrun_1.
  exists raw_f, st1. split.
  { unfold combine_and_validate_multitrip. fold raw0.
    unfold mbind, M_bind. by rewrite Hrun_a. }
  split; [done|]. split; [done|]. split.
  { rewrite Hperm. unfold raw0. by rewrite concat_filter_nonempty. }
  split.
  { etrans; [exact Hlen|]. apply length_filter. }
  intros Hall. apply Hfeas. unfold raw0.
  apply Forall_forall. intros r Hr. apply list_elem_of_filter in Hr as [_ Hr].
  rewrite Forall_forall in Hall. by apply Hall.
Qed.

Lemma kept_submseteq (st : OSRMClient) (raw : list (list Z)) :
  Forall (good_route st) raw →
  concat (customers <$> omap (kept net st cap demand due) raw) ⊆+ concat raw.
Proof.
  induction 1 as [|r raw (Hk & Hd & Hn) _ IH]; [done|].
  cbn [omap list_omap]. fold (omap (kept net st cap demand due) raw).
  destruct (kept net st cap demand due r) as [exp|] eqn:Hkept.
  - rewrite fmap_cons. cbn [concat].
    rewrite (kept_customers net cap demand due st r exp Hd Hkept).
    by apply submseteq_skips_l.
  - cbn [concat]. by apply submseteq_inserts_l.
Qed.

(** X17. For routes of customers the provider knows,
    [combine_and_validate_multitrip] returns, with at most as many
    paths as it was given routes, and every path it returns is
    feasible: validated again on its own customers, with the provider
    as the call left it, it is accepted with that very path. *)
Theorem combine_and_validate_multitrip_sound
    (st : OSRMClient) (routes : list (list Z)) :
  (∀ r, r ∈ routes → route_known st r ∧ depot_free r) →
  ∃ out st1,
    combine_and_validate_multitrip net routes cap demand due st = Ok (out, st1)
    ∧ (length out ≤ length routes)%nat
    ∧ ∀ p, p ∈ out →
        customers p ≠ []
        ∧ ∃ st2, validate_multitrip net (customers p) cap demand due st1
                 = Ok ((true, p, customers p), st2).
Proof.
  intros Hroutes.
  destruct (combine_run st routes Hroutes)
    as (raw_f & st1 & Hrun & Hview & Hgood & _ & Hlen & _).
  exists (omap (kept net st cap demand due) raw_f), st1.
  split; [done|]. split.
  { destruct (kept_sublist net cap demand due st raw_f Hgood) as [Hsub _].
    apply sublist_length in Hsub. rewrite length_fmap in Hsub. lia. }
  intros p Hp. apply list_elem_of_omap in Hp as (r & Hr & Hkept).
  rewrite Forall_forall in Hgood. destruct (Hgood r Hr) as (Hk & Hd & Hn).
  rewrite (kept_customers net cap demand due st r p Hd Hkept).
  split; [done|].
  destruct (validate_multitrip_denotes net st r cap demand due Hk st1 Hview)
    as (st2 & _ & Hval).
  exists st2. rewrite Hval. unfold kept in Hkept.
  destruct (validate_result net st r cap demand due) as [[[] e] rw] eqn:Hres; [|done].
  injection Hkept as ->.
  apply validate_result_true in Hres as [_ ->].
  by rewrite (customers_depot_free _ Hd).
Qed.

(** X18. [combine_and_validate_multitrip] invents no customer and
    visits none twice more than the routes do: the customers of the
    returned paths, with their multiplicities, are among the customers
    of the routes.  (Customers of a route that stays infeasible are
    dropped.) *)
Theorem combine_and_validate_multitrip_customers
    (st : OSRMClient) (routes : list (list Z)) :
  (∀ r, r ∈ routes → route_known st r ∧ depot_free r) →
  ∃ out st1,
    combine_and_validate_multitrip net routes cap demand due st = Ok (out, st1)
    ∧ concat (customers <$> out) ⊆+ concat routes.
Proof.
  intros Hroutes.
  destruct (combine_run st routes Hroutes)
    as (raw_f & st1 & Hrun & _ & Hgood & Hperm & _ & _).
  exists (omap (kept net st cap demand due) raw_f), st1.
  split; [done|]. rewrite <- Hperm. by apply kept_submseteq.
Qed.

(** X19. When every route is feasible by itself,
    [combine_and_validate_multitrip] drops no customer: the customers
    of the returned paths are those of the routes, each as often,
    possibly in another order. *)
Theorem combine_and_validate_multitrip_complete
    (st : OSRMClient) (routes : list (list Z)) :
  (∀ r, r ∈ routes →
     route_known st r ∧ depot_free r ∧ feasible net st cap demand due r = true) →
  ∃ out st1,
    combine_and_validate_multitrip net routes cap demand due st = Ok (out, st1)
    ∧ concat (customers <$> out) ≡ₚ concat routes.
Proof.
  intros Hroutes.
  destruct (combine_run st routes) as (raw_f & st1 & Hrun & _ & Hgood & Hperm & _ & Hfeas).
  { intros r Hr. destruct (Hroutes r Hr) as (? & ? & ?). by split. }
  exists (omap (kept net st cap demand due) raw_f), st1.
  split; [done|]. rewrite <- Hperm.
  assert (Hall : Forall (λ r, feasible net st cap demand due r = true) raw_f).
  { apply Hfeas, Forall_forall. intros r Hr. by destruct (Hroutes r Hr) as (? & ? & ?). }
  clear Hrun Hperm Hfeas.
  induction Hgood as [|r raw (Hk & Hd & Hn) _ IH]; [done|].
  apply Forall_cons in Hall as [Hr Hall].
  cbn [omap list_omap]. fold (omap (kept net st cap demand due) raw).
  unfold feasible in Hr.
  destruct (kept net st cap demand due r) as [exp|] eqn:Hkept.
  - rewrite fmap_cons. cbn [concat].
    rewrite (kept_customers net cap demand due st r exp Hd Hkept).
    f_equiv. by apply IH.
  - unfold kept in Hkept.
    destruct (validate_result net st r cap demand due) as [[[] e] rw]; done.
Qed.

End MergeMore.

(** ** From the patient table to the validator *)

Section PatientFacts.
Context {F : Type} `{PyFloat F} `{PyFloatOrd F}.
Variable net : F → F → F → F → http_reply F.
Variable parse_ints : string → option (list Z).

Lemma patient_demand_pos (d : option Z) : 1 ≤ patient_demand d.
Proof.
  unfold patient_demand. destruct d as [d|]; [|lia].
  destruct (negb (d =? 0) && (0 <? d)) eqn:Hc; [|lia].
  apply andb_true_iff in Hc as [_ Hc]. apply Z.ltb_lt in Hc. lia.
Qed.

Lemma patients_loop_spec (rows : list (patient_row F)) : ∀ pts i,
  ∃ new,
    patients_loop parse_ints rows pts i = pts ++ new
    ∧ pt_cust_no <$> new = (λ k, i + Z.of_nat k) <$> seq 0 (length new)
    ∧ pt_id <$> new = row_pid <$> filter (λ row, has_coords row) rows
    ∧ Forall (λ p, ∃ d t, pt_demand p = Some d ∧ 1 ≤ d ∧ pt_due_date p = Some t) new.
Proof.
  induction rows as [|row rows IH]; intros pts i.
  - exists []. by rewrite app_nil_r.
  - cbn [patients_loop]. unfold has_coords at 1.
    destruct (row_lat row) as [lat|] eqn:Hlat, (row_lon row) as [lon|] eqn:Hlon.
    2-4: (destruct (IH pts i) as (new & Hl & Hn & Hi & Hd);
          exists new; rewrite filter_cons_False
            by (unfold has_coords; rewrite Hlat, ?Hlon; by intros ?); done).
    match goal with
    | |- context [patients_loop _ _ (pts ++ [?p]) _] => set (pt := p)
    end.
    destruct (IH (pts ++ [pt]) (i + 1)) as (new & Hl & Hn & Hi & Hd).
    exists (pt :: new). split; [by rewrite Hl, <- app_assoc|]. split.
    { cbn [length seq]. rewrite !fmap_cons, Hn. f_equal; [simpl; lia|].
      rewrite <- (fmap_S_seq 0), <- list_fmap_compose.
      apply list_fmap_ext. intros _ k _. simpl. lia. }
    split.
    { rewrite filter_cons_True by (unfold has_coords; by rewrite Hlat, Hlon).
      by rewrite !fmap_cons, Hi. }
    apply Forall_cons. split; [|done].
    eexists _, _. split; [done|]. split; [apply patient_demand_pos|done].
Qed.

(** X20. [get_patients_data] numbers the patients it loads 1, 2, ...,
    N without gaps, in the order of the rows, skipping exactly the rows
    that lack a coordinate; every loaded patient has a demand of at
    least 1 and a due time. *)
Theorem get_patients_data_numbering (rows : list (patient_row F)) :
  let pts := get_patients_data parse_ints rows in
  pt_cust_no <$> pts = Z.of_nat <$> seq 1 (length pts)
  ∧ pt_id <$> pts = row_pid <$> filter (λ row, has_coords row) rows
  ∧ Forall (λ p, ∃ d t, pt_demand p = Some d ∧ 1 ≤ d ∧ pt_due_date p = Some t) pts.
Proof.
  unfold get_patients_data.
  destruct (patients_loop_spec rows [] 1) as (new & -> & Hn & Hi & Hd).
  simpl. split; [|done]. rewrite Hn.
  rewrite <- (fmap_S_seq 0), <- list_fmap_compose.
  apply list_fmap_ext. intros _ k _. simpl. lia.
Qed.

End PatientFacts.

Section BuildFacts.
Context {F : Type} `{PyFloat F} `{PyFloatOrd F}.
Variable net : F → F → F → F → http_reply F.
Variable parse_ints : string → option (list Z).

(** Nodes that are not customer numbers keep their entries. *)
Lemma build_nodes_other (patients : list (patient F)) :
  ∀ coords demand due c d u n,
  build_nodes patients coords demand due = (c, d, u) →
  n ∉ pt_cust_no <$> patients →
  c !! n = coords !! n ∧ d !! n = demand !! n ∧ u !! n = due !! n.
Proof.
  induction patients as [|p patients IH]; intros coords demand due c d u n Hb Hn.
  - by injection Hb as <- <- <-.
  - cbn [build_nodes] in Hb. rewrite fmap_cons in Hn.
    apply not_elem_of_cons in Hn as [Hne Hn].
    destruct (IH _ _ _ _ _ _ n Hb Hn) as (-> & -> & ->).
    by rewrite !lookup_insert_ne by done.
Qed.

(** The last patient with a given customer number sets the entries. *)
Lemma build_nodes_last (l1 : list (patient F)) :
  ∀ p l2 coords demand due c d u,
  build_nodes (l1 ++ p :: l2) coords demand due = (c, d, u) →
  pt_cust_no p ∉ pt_cust_no <$> l2 →
  c !! pt_cust_no p = Some (pt_lat p, pt_lon p)
  ∧ d !! pt_cust_no p = Some (default 1 (pt_demand p))
  ∧ u !! pt_cust_no p = Some (default 9999 (pt_due_date p)).
Proof.
  induction l1 as [|q l1 IH]; intros p l2 coords demand due c d u Hb Hn.
  - cbn [app build_nodes] in Hb.
    destruct (build_nodes_other l2 _ _ _ _ _ _ _ Hb Hn) as (-> & -> & ->).
    by rewrite !lookup_insert_eq.
  - cbn [app build_nodes] in Hb. by eapply IH.
Qed.

Lemma build_nodes_dom (patients : list (patient F)) :
  ∀ coords demand due c d u n,
  build_nodes patients coords demand due = (c, d, u) →
  n ∈ pt_cust_no <$> patients →
  is_Some (c !! n) ∧ is_Some (d !! n) ∧ is_Some (u !! n).
Proof.
  induction patients as [|p patients IH]; intros coords demand due c d u n Hb Hn.
  - by apply elem_of_nil in Hn.
  - cbn [build_nodes] in Hb.
    destruct (decide (n ∈ pt_cust_no <$> patients)) as [Hin|Hnin]; [by eapply IH|].
    rewrite fmap_cons in Hn. apply elem_of_cons in Hn as [->|Hn]; [|done].
    destruct (build_nodes_other patients _ _ _ _ _ _ _ Hb Hnin) as (-> & -> & ->).
    rewrite !lookup_insert_eq. by repeat split.
Qed.

Lemma build_nodes_demand_pos (patients : list (patient F)) :
  ∀ coords demand due c d u n,
  build_nodes patients coords demand due = (c, d, u) →
  Forall (λ p, ∃ d t, pt_demand p = Some d ∧ 1 ≤ d ∧ pt_due_date p = Some t) patients →
  n ∈ pt_cust_no <$> patients →
  1 ≤ dict_get d n 0.
Proof.
  induction patients as [|p patients IH]; intros coords demand due c d u n Hb Hd Hn.
  - by apply elem_of_nil in Hn.
  - apply Forall_cons in Hd as [(dp & tp & Hdp & Hpos & _) Hd].
    cbn [build_nodes] in Hb.
    destruct (decide (n ∈ pt_cust_no <$> patients)) as [Hin|Hnin]; [by eapply IH|].
    rewrite fmap_cons in Hn. apply elem_of_cons in Hn as [->|Hn]; [|done].
    destruct (build_nodes_other patients _ _ _ _ _ _ _ Hb Hnin) as (_ & Hdem & _).
    unfold dict_get. by rewrite Hdem, lookup_insert_eq, Hdp.
Qed.

(** X21. The maps of [build_nodes_and_client]: the three maps have the
    same keys, the depot [0] and the customer numbers and no other; the
    client starts with these coordinates, an empty cache and no
    fallback mark; the depot keeps its coordinates, demand 0 and due
    time [10 ** 9] unless a patient is numbered 0; and of several
    patients with one number the last one sets the entries, with
    demand 1 and due time 9999 where the patient has none. *)
Theorem build_nodes_and_client_maps (depot : F * F) (patients : list (patient F)) :
  let '(coords, demand, due, osrm) := build_nodes_and_client depot patients in
  osrm = new_client coords
  ∧ (∀ n, is_Some (coords !! n) ↔ n ∈ 0 :: (pt_cust_no <$> patients))
  ∧ (∀ n, is_Some (demand !! n) ↔ n ∈ 0 :: (pt_cust_no <$> patients))
  ∧ (∀ n, is_Some (due !! n) ↔ n ∈ 0 :: (pt_cust_no <$> patients))
  ∧ (0 ∉ pt_cust_no <$> patients →
     coords !! 0 = Some depot ∧ demand !! 0 = Some 0 ∧ due !! 0 = Some (10 ^ 9))
  ∧ (∀ l1 p l2, patients = l1 ++ p :: l2 →
       pt_cust_no p ∉ pt_cust_no <$> l2 →
       coords !! pt_cust_no p = Some (pt_lat p, pt_lon p)
       ∧ demand !! pt_cust_no p = Some (default 1 (pt_demand p))
       ∧ due !! pt_cust_no p = Some (default 9999 (pt_due_date p))).
Proof.
  unfold build_nodes_and_client.
  destruct (build_nodes patients {[0 := depot]} {[0 := 0]} {[0 := 10 ^ 9]})
    as [[c d] u] eqn:Hb.
  assert (Hdom : ∀ n,
    (is_Some (c !! n) ↔ n ∈ 0 :: (pt_cust_no <$> patients))
    ∧ (is_Some (d !! n) ↔ n ∈ 0 :: (pt_cust_no <$> patients))
    ∧ (is_Some (u !! n) ↔ n ∈ 0 :: (pt_cust_no <$> patients))).
  { intros n.
    destruct (decide (n ∈ pt_cust_no <$> patients)) as [Hin|Hnin].
    - destruct (build_nodes_dom patients _ _ _ _ _ _ n Hb Hin) as (? & ? & ?).
      repeat split; intros; try done; by right.
    - destruct (build_nodes_other patients _ _ _ _ _ _ n Hb Hnin) as (-> & -> & ->).
      destruct (decide (n = 0)) as [->|Hne].
      + rewrite !lookup_singleton_eq. repeat split; intros; try (by eexists); by left.
      + rewrite !lookup_singleton_ne by done.
        repeat split; intros Hx; try (by destruct Hx);
          by apply elem_of_cons in Hx as [?|?]. }
  split; [done|]. split; [intros n; apply Hdom|]. split; [intros n; apply Hdom|].
  split; [intros n; apply Hdom|]. split.
  - intros Hn. destruct (build_nodes_other patients _ _ _ _ _ _ 0 Hb Hn) as (-> & -> & ->).
    by rewrite !lookup_singleton_eq.
  - intros l1 p l2 -> Hn. by eapply build_nodes_last.
Qed.

(** X22. Loading and validating fit together: with the maps and the
    client built from the rows of the patient table, any routes over
    the customer numbers 1..N go through the validation loop of
    [run_hgs] and then through [combine_and_validate_multitrip] (on the
    same client) without a [KeyError], and every customer of these
    routes has a demand of at least 1. *)
Theorem loaded_patients_validate (depot : F * F) (rows : list (patient_row F))
    (routes : list (list Z)) :
  let pts := get_patients_data parse_ints rows in
  (∀ r n, r ∈ routes → n ∈ r → 1 ≤ n ≤ Z.of_nat (length pts)) →
  let '(coords, demand, due, osrm) := build_nodes_and_client depot pts in
  (∀ r n, r ∈ routes → n ∈ r → 1 ≤ dict_get demand n 0)
  ∧ ∃ validated st1 out st2,
      run_hgs_validated net routes demand due [] osrm = Ok (validated, st1)
      ∧ combine_and_validate_multitrip net routes SOL_VEH_CAP demand due st1
        = Ok (out, st2).
Proof.
  intros pts Hroutes.
  destruct (patients_loop_spec parse_ints rows [] 1) as (new & Hnew & Hn & _ & Hd).
  change (patients_loop parse_ints rows [] 1) with pts in Hnew. simpl in Hnew.
  subst new.
  assert (Hnum : ∀ n, n ∈ pt_cust_no <$> pts ↔ 1 ≤ n ≤ Z.of_nat (length pts)).
  { intros n. rewrite Hn, list_elem_of_fmap. split.
    - intros (k & -> & Hk). apply elem_of_seq in Hk. lia.
    - intros Hr. exists (Z.to_nat (n - 1)). split; [lia|]. apply elem_of_seq. lia. }
  unfold build_nodes_and_client.
  destruct (build_nodes pts {[0 := depot]} {[0 := 0]} {[0 := 10 ^ 9]})
    as [[c d] u] eqn:Hb.
  assert (Hknown : ∀ r, r ∈ routes → route_known (new_client c) r ∧ depot_free r).
  { intros r Hr. split.
    - intros n Hin. simpl. apply elem_of_cons in Hin as [->|Hin].
      + destruct (build_nodes_other pts _ _ _ _ _ _ 0 Hb) as (-> & _).
        { rewrite Hnum. lia. }
        rewrite lookup_singleton_eq. by eexists.
      + apply (build_nodes_dom pts _ _ _ _ _ _ n Hb). apply Hnum. by eapply Hroutes.
    - intros Hz. specialize (Hroutes r 0 Hr Hz). lia. }
  split.
  - intros r n Hr Hin.
    eapply (build_nodes_demand_pos pts); [exact Hb|exact Hd|].
    apply Hnum. by eapply Hroutes.
  - assert (Hk : Forall (route_known (new_client c)) routes).
    { apply Forall_forall. intros r Hr. by apply Hknown. }
    destruct (run_hgs_validated_spec net (new_client c) d u routes []
                (new_client c) (view_eq_refl net _) Hk) as (v & st1 & Hgo & Hv1 & _).
    destruct (combine_run net SOL_VEH_CAP d u st1 routes)
      as (raw_f & st2 & Hrun & _).
    { intros r Hr. destruct (Hknown r Hr) as [Hkr Hdf]. split; [|done].
      intros n Hin. destruct Hv1 as [-> _]. by apply Hkr. }
    by eexists v, st1, _, st2.
Qed.

End BuildFacts.

(** ** More on the stability handlers *)

Section StabilityMore.
Import Stability StabilityHandlers.

Local Ltac run_handler :=
  unfold update_stability, start_stability, stability_config, get_medication_config,
    mbind, W_bind, mret, W_ret, lookup_state, fetch_dashboard, fetch_medication,
    store_state, _now,
    insert_estimated_stability_time.

Lemma update_stability_idle (order_id : string) (data : TempUpdate) (w : world) :
  idle w order_id →
  (update_stability order_id data w).2 = w
  ∧ (update_stability order_id data w).1
    = Return (match STABILITY_STATE w !! order_id with
              | None => [("error", JStr "Monitoring not started")]
              | Some _ => [("status", JStr "inactive")]
              end).
Proof.
  unfold idle. run_handler. simpl.
  destruct (STABILITY_STATE w !! order_id) as [s|]; simpl; [|done].
  by intros ->.
Qed.

Lemma updates_idle (us : list (string * TempUpdate)) (order_id : string) : ∀ w,
  idle w order_id →
  STABILITY_STATE (updates us w) !! order_id = STABILITY_STATE w !! order_id.
Proof.
  induction us as [|[oid d] us IH]; intros w Hidle; [done|].
  cbn [updates].
  assert (Hstep : STABILITY_STATE (update_stability oid d w).2 !! order_id
                  = STABILITY_STATE w !! order_id).
  { destruct (decide (oid = order_id)) as [->|Hne].
    - by rewrite (proj1 (update_stability_idle order_id d w Hidle)).
    - by apply update_stability_other. }
  rewrite IH; [done|]. unfold idle. by rewrite Hstep.
Qed.

(** X23. An order that is not monitored, or whose monitoring has ended
    ([active] false, after an excursion or an expiry), is out of reach
    of the updates: whatever updates come, for this or other orders,
    its entry stays as it is (none, or the same inactive entry), and an
    update for it changes nothing at all (no state, no row, no clock
    reading) and answers [error] or [inactive]. *)
Theorem updates_leave_idle (w : world) (order_id : string)
    (us : list (string * TempUpdate)) (data : TempUpdate) :
  idle w order_id →
  let w' := updates us w in
  STABILITY_STATE w' !! order_id = STABILITY_STATE w !! order_id
  ∧ update_stability order_id data w'
    = (Return (match STABILITY_STATE w !! order_id with
               | None => [("error", JStr "Monitoring not started")]
               | Some _ => [("status", JStr "inactive")]
               end), w').
Proof.
  intros Hidle w'.
  pose proof (updates_idle us order_id w Hidle) as Hsame. fold w' in Hsame.
  split; [done|].
  assert (Hidle' : idle w' order_id) by (unfold idle; by rewrite Hsame).
  destruct (update_stability_idle order_id data w' Hidle') as [Hw Ho].
  rewrite Hsame in Ho.
  destruct (update_stability order_id data w') as [o w'']. simpl in *. by subst.
Qed.

Lemma update_stability_step4 (order_id : string) (data : TempUpdate)
    (w : world) (s : state) (dash : string) :
  STABILITY_STATE w !! order_id = Some s →
  active s = true →
  orders w !! order_id = Some (Some dash) →
  dash ≠ "" →
  timer_started s = false →
  (temp data <= max_exc s)%Q →
  (temp data <= FRIDGE_MAX)%Q →
  update_stability order_id data w
  = (Return [("status", JStr "safe"); ("written_to_dashboard", JBool true)],
     (insert_estimated_stability_time dash (py_int (max_time s)) w).2).
Proof.
  intros Hs Ha Ho Hd Ht Hexc Hfr. run_handler. rewrite Hs, Ha. simpl. rewrite Ho.
  apply String.eqb_neq in Hd. rewrite Hd.
  apply Qgt_bool_false in Hexc, Hfr. rewrite Hexc, Hfr. simpl. by rewrite Ht.
Qed.

(** X24. Step 4: for an active monitored order with a dashboard whose
    timer has not started, a reading at or below [FRIDGE_MAX] (and
    within the excursion limit) answers [safe] and writes one row with
    the full tolerated time, truncated to seconds; the entry of the
    order and the clock are untouched.  Readings below [FRIDGE_MIN] are
    no exception: the lower bound of the fridge is never consulted. *)
Theorem update_stability_safe (order_id : string) (data : TempUpdate)
    (w : world) (s : state) (dash : string) :
  STABILITY_STATE w !! order_id = Some s →
  active s = true →
  orders w !! order_id = Some (Some dash) →
  dash ≠ "" →
  timer_started s = false →
  (temp data <= max_exc s)%Q →
  (temp data <= FRIDGE_MAX)%Q →
  update_stability order_id data w
  = (Return [("status", JStr "safe"); ("written_to_dashboard", JBool true)],
     (insert_estimated_stability_time dash (py_int (max_time s)) w).2)
  ∧ STABILITY_STATE (update_stability order_id data w).2 = STABILITY_STATE w
  ∧ ticks (update_stability order_id data w).2 = ticks w.
Proof.
  intros Hs Ha Ho Hd Ht Hexc Hfr.
  rewrite (update_stability_step4 order_id data w s dash) by done. done.
Qed.

(** X25. What [update_stability] never answers: no response has a
    [timer_started] key, and the only alert is
    [MAX_EXCURSION_EXCEEDED], given only for a reading above the
    excursion limit of a monitored order; the expiry of the timer is
    never reported as an alert. *)
Theorem update_stability_alerts (order_id : string) (data : TempUpdate) (w : world) :
  let o := (update_stability order_id data w).1 in
  field "timer_started" o = None
  ∧ ∀ a, field "alert" o = Some a →
      a = JStr "MAX_EXCURSION_EXCEEDED"
      ∧ ∃ s, STABILITY_STATE w !! order_id = Some s ∧ (max_exc s < temp data)%Q.
Proof.
  run_handler. simpl.
  destruct (STABILITY_STATE w !! order_id) as [s|] eqn:Hs; simpl; [|done].
  destruct (active s); simpl; [|done].
  destruct (orders w !! order_id) as [[dash|]|]; simpl; [|done|done].
  destruct (String.eqb dash ""); simpl; [done|].
  destruct (Qgt_bool (temp data) (max_exc s)) eqn:Hgt; simpl.
  { split; [done|]. intros a [= <-]. split; [done|].
    exists s. split; [done|]. by apply Qgt_bool_true. }
  destruct (Qgt_bool (temp data) FRIDGE_MAX && negb (timer_started s)); simpl.
  { destruct (Qle_bool _ 0); simpl; done. }
  destruct (timer_started s); simpl; [|done].
  destruct (timer_started_at s); simpl; [|done].
  destruct (Qle_bool _ 0); simpl; done.
Qed.

(** X26. The rows of [estimated_stability_time]: an update appends at
    most one row and removes none; it appends one exactly when it
    answers [written_to_dashboard], and then the row is under the
    dashboard of the order and holds the seconds the response reports
    ([remaining_seconds], never negative) or, for [safe], the full
    tolerated time. *)
Theorem update_stability_rows (order_id : string) (data : TempUpdate) (w : world) :
  let o := (update_stability order_id data w).1 in
  let w' := (update_stability order_id data w).2 in
  (field "written_to_dashboard" o = None
   ∧ estimated_stability_time w' = estimated_stability_time w)
  ∨ (field "written_to_dashboard" o = Some (JBool true)
     ∧ ∃ dash n s,
         orders w !! order_id = Some (Some dash)
         ∧ STABILITY_STATE w !! order_id = Some s
         ∧ estimated_stability_time w' = estimated_stability_time w ++ [(dash, n)]
         ∧ ((field "remaining_seconds" o = Some (JInt n) ∧ 0 ≤ n)
            ∨ (field "status" o = Some (JStr "safe") ∧ n = py_int (max_time s)))).
Proof.
  run_handler. simpl.
  destruct (STABILITY_STATE w !! order_id) as [s|] eqn:Hs; simpl; [|by left].
  destruct (active s); simpl; [|by left].
  destruct (orders w !! order_id) as [[dash|]|]; simpl; [|by left|by left].
  destruct (String.eqb dash ""); simpl; [by left|].
  destruct (Qgt_bool (temp data) (max_exc s)) eqn:Hgt; simpl; [by left|].
  assert (Hpos : ∀ q, Qle_bool q 0 = false → 0 ≤ py_int q).
  { intros q Hq. rewrite py_int_floor.
    - change 0 with (Qfloor 0). apply Qfloor_resp_le.
      destruct (Qlt_le_dec 0 q) as [Hlt|Hle]; [by apply Qlt_le_weak|].
      apply Qle_bool_iff in Hle. congruence.
    - destruct (Qlt_le_dec 0 q) as [Hlt|Hle]; [by apply Qlt_le_weak|].
      apply Qle_bool_iff in Hle. congruence. }
  destruct (Qgt_bool (temp data) FRIDGE_MAX && negb (timer_started s)); simpl.
  { right. split; [by destruct (Qle_bool _ 0)|].
    destruct (Qle_bool _ 0) eqn:Hle; simpl.
    - eexists dash, _, s. repeat split; try done. left. by split.
    - eexists dash, _, s. repeat split; try done. left. split; [done|]. by apply Hpos. }
  destruct (timer_started s); simpl.
  - destruct (timer_started_at s) as [t0|]; simpl; [|by left].
    right. split; [by destruct (Qle_bool _ 0)|].
    destruct (Qle_bool _ 0) eqn:Hle; simpl.
    + eexists dash, _, s. repeat split; try done. left. by split.
    + eexists dash, _, s. repeat split; try done. left. split; [done|]. by apply Hpos.
  - right. split; [done|]. eexists dash, _, s. repeat split; try done. by right.
Qed.

Lemma handler_consistent (c : W outcome) (w : world) :
  handler_call c → consistent w →
  consistent (c w).2 ∧ (c w).1 ≠ TypeError.
Proof.
  intros Hc Hw. destruct Hc as [oid|oid data|oid].
  - run_handler. simpl.
    destruct (medication w !! oid) as [[[me|] [mt|]]|]; simpl; try done.
    split; [|done]. intros o s. simpl.
    destruct (decide (oid = o)) as [->|Hne].
    + rewrite lookup_insert_eq. by intros [= <-].
    + rewrite lookup_insert_ne by done. apply Hw.
  - assert (Hset : ∀ s' : state,
      timer_consistent s' →
      ∀ o s0, <[oid := s']> (STABILITY_STATE w) !! o = Some s0 → timer_consistent s0).
    { intros s' Hs' o s0. destruct (decide (oid = o)) as [->|Hne].
      - rewrite lookup_insert_eq. by intros [= <-].
      - rewrite lookup_insert_ne by done. apply Hw. }
    run_handler. simpl.
    destruct (STABILITY_STATE w !! oid) as [s|] eqn:Hs; simpl; [|done].
    pose proof (Hw oid s Hs) as Hcs.
    destruct (active s); simpl; [|done].
    destruct (orders w !! oid) as [[dash|]|]; simpl; [|done|done].
    destruct (String.eqb dash ""); simpl; [done|].
    destruct (Qgt_bool (temp data) (max_exc s)) eqn:Hgt; simpl.
    { split; [|done]. intros o s0. simpl. by apply Hset. }
    destruct (Qgt_bool (temp data) FRIDGE_MAX && negb (timer_started s)); simpl.
    { destruct (Qle_bool _ 0); simpl; (split; [|done]); intros o s0; simpl.
      - rewrite insert_insert_eq. apply Hset. by intros _.
      - apply Hset. by intros _. }
    destruct (timer_started s) eqn:Hts; simpl; [|done].
    destruct (Hcs Hts) as [t0 Ht0]. rewrite Ht0. simpl.
    destruct (Qle_bool _ 0); simpl; (split; [|done]); [|done].
    intros o s0. simpl. apply Hset.
    intros _. simpl. by rewrite Ht0.
  - run_handler. simpl. by destruct (medication w !! oid) as [[[me|] [mt|]]|].
Qed.

(** X27. No sequence of calls of the three handlers reaches the
    arithmetic on a missing timestamp: starting from a store whose
    started timers have their starting time (the empty store of a fresh
    process is one), every call leaves such a store, and no call raises
    the [TypeError] of that arithmetic. *)
Theorem handlers_never_type_error (calls : list (W outcome)) (w : world) :
  consistent w →
  Forall handler_call calls →
  consistent (run calls w).2 ∧ TypeError ∉ (run calls w).1.
Proof.
  revert w. induction calls as [|c calls IH]; intros w Hw Hcalls.
  - split; [done|]. by intros ?%elem_of_nil.
  - apply Forall_cons in Hcalls as [Hc Hcalls].
    destruct (handler_consistent c w Hc Hw) as [Hw1 Ho].
    cbn [run]. destruct (c w) as [o w1] eqn:Hcw. simpl in Hw1, Ho.
    destruct (IH w1 Hw1 Hcalls) as [Hw2 Hos].
    destruct (run calls w1) as [os w2]. simpl in *.
    split; [done|]. intros Hin. apply elem_of_cons in Hin as [Heq|Hin]; [|done].
    by apply Ho.
Qed.

Lemma update_stability_limits (order_id' : string) (data : TempUpdate) (w : world)
    (order_id : string) (s : state) :
  STABILITY_STATE w !! order_id = Some s →
  ∃ s', STABILITY_STATE (update_stability order_id' data w).2 !! order_id = Some s'
        ∧ max_exc s' = max_exc s ∧ max_time s' = max_time s
        ∧ (active s' = true → active s = true).
Proof.
  intros Hs. destruct (decide (order_id' = order_id)) as [->|Hne].
  2:{ exists s. by rewrite update_stability_other. }
  run_handler. simpl. rewrite Hs. simpl.
  destruct (active s) eqn:Ha; simpl;
    [|exists s; repeat split; try done; congruence].
  destruct (orders w !! order_id) as [[dash|]|]; simpl; [|by exists s|by exists s].
  destruct (String.eqb dash ""); simpl; [by exists s|].
  destruct (Qgt_bool (temp data) (max_exc s)) eqn:Hgt; simpl.
  { eexists. by rewrite lookup_insert_eq. }
  destruct (Qgt_bool (temp data) FRIDGE_MAX && negb (timer_started s)); simpl.
  { destruct (Qle_bool _ 0); simpl; eexists;
      rewrite ?insert_insert_eq; by rewrite lookup_insert_eq. }
  destruct (timer_started s); simpl; [|by exists s].
  destruct (timer_started_at s); simpl; [|by exists s].
  destruct (Qle_bool _ 0); simpl; [|by exists s].
  eexists. by rewrite lookup_insert_eq.
Qed.

(** X28. The limits of an order are those loaded when monitoring
    started: no update changes [max_exc] or [max_time] of an entry,
    removes an entry, or makes an inactive order active again. *)
Theorem updates_keep_limits (us : list (string * TempUpdate)) : ∀ (w : world)
    (order_id : string) (s : state),
  STABILITY_STATE w !! order_id = Some s →
  ∃ s', STABILITY_STATE (updates us w) !! order_id = Some s'
        ∧ max_exc s' = max_exc s ∧ max_time s' = max_time s
        ∧ (active s' = true → active s = true).
Proof.
  induction us as [|[oid d] us IH]; intros w order_id s Hs.
  - by exists s.
  - cbn [updates].
    destruct (update_stability_limits oid d w order_id s Hs) as (s1 & Hs1 & He1 & Ht1 & Ha1).
    destruct (IH _ order_id s1 Hs1) as (s' & Hs' & He & Ht & Ha).
    exists s'. split; [done|]. split; [congruence|]. split; [congruence|]. tauto.
Qed.

(** X29. [start_stability] arms the order afresh, whatever its entry
    was (none, a running timer, an ended monitoring): with a medication
    row whose two limits are not NULL and with a dashboard, the first
    update after it with a reading at or below [FRIDGE_MAX] and within
    the new excursion limit answers [safe] and writes the full
    tolerated time.  Without a medication row it raises HTTP 404; with
    a row that has a NULL limit, [float] or [total_seconds] raises;
    in both cases nothing is changed. *)
Theorem start_stability_rearms (order_id : string) (data : TempUpdate) (w : world) :
  match medication w !! order_id with
  | None =>
      start_stability order_id w = (HTTPException 404 "Order or medication not found", w)
  | Some (None, _) => start_stability order_id w = (FloatOfNone, w)
  | Some (Some _, None) => start_stability order_id w = (AttributeError, w)
  | Some (Some max_exc, Some max_time) =>
      ∀ dash, orders w !! order_id = Some (Some dash) → dash ≠ "" →
        (temp data <= max_exc)%Q → (temp data <= FRIDGE_MAX)%Q →
        let w1 := (start_stability order_id w).2 in
        update_stability order_id data w1
        = (Return [("status", JStr "safe"); ("written_to_dashboard", JBool true)],
           (insert_estimated_stability_time dash (py_int max_time) w1).2)
  end.
Proof.
  destruct (medication w !! order_id) as [[[me|] [mt|]]|] eqn:Hm;
    try (run_handler; by rewrite Hm).
  intros dash Ho Hd Hexc Hfr w1.
  assert (Hw1 : w1 = (store_state order_id
                        {| timer_started := false; timer_started_at := None;
                           active := true; max_exc := me; max_time := mt |} w).2).
  { unfold w1. run_handler. by rewrite Hm. }
  apply (update_stability_step4 order_id data w1
           {| timer_started := false; timer_started_at := None;
              active := true; max_exc := me; max_time := mt |} dash); try done.
  - rewrite Hw1. simpl. by rewrite lookup_insert_eq.
  - by rewrite Hw1.
Qed.

End StabilityMore.

(** ** The further properties on small instances *)

Section MoreInstances.
Import RatFloat Demo.

Local Ltac in_list H :=
  repeat (apply elem_of_cons in H as [->|H]); try (by apply elem_of_nil in H).

Lemma demo_routes_good (r : list Z) :
  r ∈ [[1]; [2]] → route_known demo_client r ∧ depot_free r.
Proof.
  intros Hr. apply elem_of_cons in Hr as [->|Hr].
  { split; [exact demo_known_1|]. unfold depot_free. by intros [=]%list_elem_of_singleton. }
  apply list_elem_of_singleton in Hr as ->.
  split; [exact demo_known_2|]. unfold depot_free. by intros [=]%list_elem_of_singleton.
Defined.

Lemma get_edge_live_answer_witness :
  ∃ st', get_edge (net_live 1000 300) 0 1 demo_client = Ok ((1000%Q, 300%Q), st')
         ∧ cache st' = <[(0, 1) := (1000%Q, 300%Q)]> (cache demo_client)
         ∧ fallback_edges st' = fallback_edges demo_client
         ∧ coords st' = coords demo_client.
Proof.
  apply (get_edge_live_answer (net_live 1000 300) demo_client 0 1
           (2471 # 100)%Q (4667 # 100)%Q (2475 # 100)%Q (4670 # 100)%Q
           1000%Q 300%Q (Some 0%Q) (Some 0%Q) [] []
           [JRow [Some 1000%Q; Some 0%Q]] [JRow [Some 300%Q; Some 0%Q]]);
    reflexivity.
Defined.

Lemma split_into_trips_greedy_witness :
  ∃ c rest, [2] = c :: rest ∧ 1 < 1 + dict_get demo_demand c 0.
Proof.
  apply (split_into_trips_greedy 1 demo_demand [1; 2] 0 [1] [2] 1 1); reflexivity.
Defined.

Lemma split_into_trips_single_witness :
  split_into_trips [1; 2] 15 demo_demand = [([1; 2], trip_load demo_demand [1; 2])].
Proof.
  apply (split_into_trips_single 15 demo_demand [1; 2]).
  - discriminate.
  - intros c Hc. in_list Hc; vm_compute; discriminate.
  - vm_compute. discriminate.
Defined.

Lemma validate_multitrip_accepted_path_witness :
  [1] = customers [1]
  ∧ customers [0; 1; 0] = customers [1]
  ∧ ([1] = [] → [0; 1; 0] = [])
  ∧ ([1] ≠ [] →
     head [0; 1; 0] = Some 0 ∧ last [0; 1; 0] = Some 0
     ∧ length [0; 1; 0] = S (length [1] + length (split_into_trips [1] 15 demo_demand))).
Proof.
  eapply (validate_multitrip_accepted_path (net_live 1000 300) demo_client [1] 15
            demo_demand (demo_due 20 20) [0; 1; 0] [1]).
  vm_compute. reflexivity.
Defined.

Lemma validate_multitrip_client_grows_witness :
  ∃ a st',
    validate_multitrip net_down [1] 15 demo_demand (demo_due 20 20) demo_client
    = Ok (a, st')
    ∧ coords st' = coords demo_client
    ∧ cache demo_client ⊆ cache st'
    ∧ fallback_edges demo_client ⊆ fallback_edges st'
    ∧ (∀ k, is_Some (cache demo_client !! k) →
            k ∈ fallback_edges st' → k ∈ fallback_edges demo_client)
    ∧ (fallback_cached demo_client → fallback_cached st').
Proof.
  eexists _, _. split; [vm_compute; reflexivity|].
  eapply (validate_multitrip_client_grows net_down [1] 15 demo_demand (demo_due 20 20)
            demo_client).
  vm_compute. reflexivity.
Defined.

(** The customer is due after 3 minutes and five minutes away.
    Validated while the map service is down, the route is accepted over
    fallback edges; validated again when the service is back, it is
    accepted from the cache, although a first validation with the
    service up rejects it. *)
Lemma validate_multitrip_replay_witness :
  ∃ st1,
    validate_multitrip net_down [1] 15 demo_demand (demo_due 3 20) demo_client
    = Ok ((true, [0; 1; 0], [1]), st1)
    ∧ validate_multitrip (net_live 1000 300) [1] 15 demo_demand (demo_due 3 20) st1
      = Ok ((true, [0; 1; 0], [1]), st1).
Proof.
  eexists. split; [vm_compute; reflexivity|].
  eapply (validate_multitrip_replay net_down demo_client [1] 15 demo_demand
            (demo_due 3 20) [0; 1; 0] [1]).
  - vm_compute. reflexivity.
  - split; [reflexivity|]. intros k _. reflexivity.
Defined.

Lemma validate_multitrip_empty_witness :
  validate_multitrip (net_live 1000 300) [] 15 demo_demand (demo_due 20 20) demo_client
  = Ok ((true, [], []), demo_client).
Proof. apply validate_multitrip_empty. reflexivity. Defined.

Lemma combine_and_validate_multitrip_empty_witness :
  combine_and_validate_multitrip (net_live 1000 300) [[]; []] 15 demo_demand
    (demo_due 20 20) demo_client = Ok ([], demo_client).
Proof. apply combine_and_validate_multitrip_empty. by repeat constructor. Defined.




Lemma combine_and_validate_multitrip_sound_witness :
  ∃ out st1,
    combine_and_validate_multitrip (net_live 1000 300) [[1]; [2]] 15 demo_demand
      (demo_due 20 20) demo_client = Ok (out, st1)
    ∧ (length out ≤ length [[1]; [2]])%nat
    ∧ ∀ p, p ∈ out →
        customers p ≠ []
        ∧ ∃ st2, validate_multitrip (net_live 1000 300) (customers p) 15 demo_demand
                   (demo_due 20 20) st1 = Ok ((true, p, customers p), st2).
Proof.
  apply (combine_and_validate_multitrip_sound (net_live 1000 300) 15 demo_demand
           (demo_due 20 20) demo_client [[1]; [2]]).
  exact demo_routes_good.
Defined.

Lemma combine_and_validate_multitrip_customers_witness :
  ∃ out st1,
    combine_and_validate_multitrip (net_live 1000 300) [[1]; [2]] 15 demo_demand
      (demo_due 3 20) demo_client = Ok (out, st1)
    ∧ concat (customers <$> out) ⊆+ concat [[1]; [2]].
Proof.
  apply (combine_and_validate_multitrip_customers (net_live 1000 300) 15 demo_demand
           (demo_due 3 20) demo_client [[1]; [2]]).
  exact demo_routes_good.
Defined.

Lemma combine_and_validate_multitrip_complete_witness :
  ∃ out st1,
    combine_and_validate_multitrip (net_live 1000 300) [[1]; [2]] 15 demo_demand
      (demo_due 20 20) demo_client = Ok (out, st1)
    ∧ concat (customers <$> out) ≡ₚ concat [[1]; [2]].
Proof.
  apply (combine_and_validate_multitrip_complete (net_live 1000 300) 15 demo_demand
           (demo_due 20 20) demo_client [[1]; [2]]).
  intros r Hr. destruct (demo_routes_good r Hr) as [Hk Hd].
  split; [done|]. split; [done|].
  in_list Hr; vm_compute; reflexivity.
Defined.

End MoreInstances.

Section PatientInstances.
Import RatFloat Demo PatientDemo.

Lemma loaded_patients_validate_witness :
  let '(coords, demand, due, osrm) :=
    build_nodes_and_client demo_depot (get_patients_data no_parse demo_rows) in
  (∀ r n, r ∈ [[1]] → n ∈ r → 1 ≤ dict_get demand n 0)
  ∧ ∃ validated st1 out st2,
      run_hgs_validated (net_live 1000 300) [[1]] demand due [] osrm = Ok (validated, st1)
      ∧ combine_and_validate_multitrip (net_live 1000 300) [[1]] SOL_VEH_CAP demand due st1
        = Ok (out, st2).
Proof.
  apply (loaded_patients_validate (net_live 1000 300) no_parse demo_depot demo_rows [[1]]).
  intros r n Hr Hn.
  apply list_elem_of_singleton in Hr as ->. apply list_elem_of_singleton in Hn as ->.
  vm_compute. split; discriminate.
Defined.

End PatientInstances.

Section CheckedInstances.
Import RatFloat Demo CheckedDemo.

(** A distance cell that is a text is stored and returned as it is;
    the next call returns it again although the service is down. *)
Lemma get_edge_repeat_witness :
  ∃ t st',
    get_edge_checked net_text 0 1 demo_provider = Ok ((NotNum, t), st')
    ∧ pv_cache st' !! (0, 1) = Some (NotNum, t)
    ∧ get_edge_checked net_failing 0 1 st' = Ok ((NotNum, t), st').
Proof.
  eexists _, _. split; [vm_compute; reflexivity|].
  match goal with
  | |- context [get_edge_checked net_failing 0 1 ?s] =>
      destruct (get_edge_repeat net_text demo_provider s 0 1 (NotNum, Num 300%Q))
        as [Hc Hrepeat]
  end.
  { vm_compute. reflexivity. }
  split; [exact Hc|]. apply Hrepeat. reflexivity.
Defined.

(** The depot and the first customer are apart: with the service down
    the estimate is some four and a half kilometres and the pair is
    recorded as fallback. *)
Lemma get_edge_fallback_estimate_witness :
  ∃ d st',
    haversine_m_checked (2471 # 100) (4667 # 100) (2475 # 100) (4670 # 100) = Some d
    ∧ (0 < d)%Q
    ∧ get_edge_checked net_failing 0 1 demo_provider
      = Ok ((Num d, Num (fdiv d (of_Q FALLBACK_SPEED_MPS))), st')
    ∧ pv_cache st' = <[(0, 1) := (Num d, Num (fdiv d (of_Q FALLBACK_SPEED_MPS)))]>
                       (pv_cache demo_provider)
    ∧ pv_fallback st' = {[(0, 1)]} ∪ pv_fallback demo_provider
    ∧ pv_coords st' = pv_coords demo_provider.
Proof.
  assert (Hd : ∃ d, haversine_m_checked (2471 # 100) (4667 # 100) (2475 # 100) (4670 # 100)
                    = Some d ∧ (0 < d)%Q).
  { eexists. split; vm_compute; reflexivity. }
  destruct Hd as (d & Hd & Hpos).
  pose proof (proj1 (get_edge_fallback_estimate net_failing demo_provider 0 1
                       (2471 # 100) (4667 # 100) (2475 # 100) (4670 # 100)
                       eq_refl eq_refl eq_refl) (fail_request)) as Hfb.
  rewrite Hd in Hfb. destruct Hfb as (st' & Hget & Hrest).
  exists d, st'. split; [exact Hd|]. split; [exact Hpos|]. split; [exact Hget|exact Hrest].
Defined.

End CheckedInstances.

Section StabilityMoreInstances.
Import Stability StabilityHandlers.

Lemma updates_leave_idle_witness :
  let w := (run [start_stability "o1"; update_stability "o1" (reading 16)]
                (demo_world seconds_clock)).2 in
  let w' := updates [("o1", reading 9); ("o2", reading 5)] w in
  STABILITY_STATE w' !! "o1" = STABILITY_STATE w !! "o1"
  ∧ update_stability "o1" (reading 5) w'
    = (Return (match STABILITY_STATE w !! "o1" with
               | None => [("error", JStr "Monitoring not started")]
               | Some _ => [("status", JStr "inactive")]
               end), w').
Proof.
  apply (updates_leave_idle _ "o1" [("o1", reading 9); ("o2", reading 5)] (reading 5)).
  reflexivity.
Defined.

Lemma update_stability_safe_witness :
  let w := (start_stability "o1" (demo_world seconds_clock)).2 in
  update_stability "o1" (reading 1) w
  = (Return [("status", JStr "safe"); ("written_to_dashboard", JBool true)],
     (insert_estimated_stability_time "d1" (py_int (max_time demo_state)) w).2)
  ∧ STABILITY_STATE (update_stability "o1" (reading 1) w).2 = STABILITY_STATE w
  ∧ ticks (update_stability "o1" (reading 1) w).2 = ticks w.
Proof.
  apply (update_stability_safe "o1" (reading 1) _ demo_state "d1").
  - reflexivity.
  - reflexivity.
  - reflexivity.
  - discriminate.
  - reflexivity.
  - vm_compute. discriminate.
  - vm_compute. discriminate.
Defined.

Lemma demo_world_consistent (clk : nat → Q) : consistent (demo_world clk).
Proof. intros o s Hs. simpl in Hs. by rewrite lookup_empty in Hs. Qed.

Lemma handlers_never_type_error_witness :
  let calls := [start_stability "o1"; update_stability "o1" (reading 9);
                stability_config "o1"; update_stability "o1" (reading 9)] in
  consistent (run calls (demo_world seconds_clock)).2
  ∧ TypeError ∉ (run calls (demo_world seconds_clock)).1.
Proof.
  apply handlers_never_type_error.
  - apply demo_world_consistent.
  - repeat constructor.
Defined.

Lemma updates_keep_limits_witness :
  let w := (start_stability "o1" (demo_world seconds_clock)).2 in
  ∃ s', STABILITY_STATE (updates [("o1", reading 9); ("o1", reading 16)] w) !! "o1"
        = Some s'
        ∧ max_exc s' = max_exc demo_state ∧ max_time s' = max_time demo_state
        ∧ (active s' = true → active demo_state = true).
Proof.
  apply (updates_keep_limits [("o1", reading 9); ("o1", reading 16)] _ "o1" demo_state).
  reflexivity.
Defined.

End StabilityMoreInstances.
